(** * NeuroLens resume analyzer: a shallow embedding of the [app] package

    The development follows the Python sources function by function:

    - [app/constants.py]  : the two catalogs [SKILL_CATEGORIES] and [JOB_ROLES];
    - [app/models.py]     : the records [Skill], [RoleMatch], [AnalysisResponse];
    - [app/services.py]   : text extraction, skill extraction, the experience
                            and education scanners, role scoring, the feedback
                            generator with its retry loop, and the orchestrator;
    - [app/db_service.py] : [log_analysis_to_db], [get_analysis_metrics] and
                            [connect_to_mongo];
    - [app/main.py]       : the startup hook and the handlers of
                            [POST /analyze/] and [GET /metrics/];
    - [tests/test_services.py] : the four unit tests, as examples.

    Modelling conventions.

    - A Python [str] is the sequence of its Unicode code points.  The model
      covers the texts whose code points are all below 256 (Basic Latin and
      the Latin-1 Supplement): such a text is the [string] of its code
      points, the character [ascii_of_nat n] standing for U+00nn, so that
      [String.length] counts characters as [len] does.  On these texts
      [str.lower], [str.strip], [str.isspace] and the classes [\b], [\w],
      [\d], [\s] of [re] are Python's, character by character: the
      no-break space U+00A0 and NEL U+0085 are white space, the accented
      letters of Latin-1 are word characters and have their lower case.
      Texts with a code point from 256 on are outside the model.  A
      character outside ASCII is written by its number, as in [chr 160]:
      inside a Rocq string literal it would be stored as the bytes of its
      UTF-8 encoding, that is as several characters of another text.  The
      theorems about the three scanners and about the names of the found
      skills are stated for ASCII characters ([ascii_only]), on which the
      two readings agree; [characters_outside_ascii] shows the scanners on
      other characters.
    - Python [float] is IEEE binary64, modelled by Rocq's primitive [float];
      [round(x, 2)] is the correctly rounded decimal rounding CPython performs.
    - A Python [set] whose elements are only tested or counted is a [gset];
      where the code turns a set back into a list ([list(set(xs))]) the
      iteration order is that of the interpreter's hash table, which the
      program does not control: it is a parameter of the model.
    - External capabilities (the PDF and DOCX parsers, the generative model,
      the MongoDB collection, the wall clock) are fields of an environment
      record; a call that leaves the process is recorded in the world's event
      trace, and exceptions are explicit results.  The spaCy pipeline is the
      argument [nlp_model], as in the code.  The clock is read in whole
      milliseconds.
    - Calls to [logger] are not modelled. *)

From Stdlib Require Import List String Ascii ZArith Lia Bool Permutation Sorted.
From Stdlib Require Import OrdersEx QArith_base.
From Stdlib Require Import DecimalString PrimFloat FloatOps SpecFloat Uint63.
From stdpp Require Import gmap strings.
Import ListNotations.

Set Warnings "-inexact-float".
Open Scope string_scope.

(* stdpp freezes [String.append] under [simpl]; the proofs below unfold it. *)
#[local] Arguments String.append !s1 s2 : simpl nomatch.

(** ** Characters, character classes and the string methods the code uses *)

(** [chr(n)] for a code point [n] below 256. *)
Definition chr (n : nat) : ascii := ascii_of_nat n.

Definition in_range (lo hi c : ascii) : bool :=
  (Ascii.leb lo c && Ascii.leb c hi)%bool.

(** The characters [str.lower] changes: A to Z, and in the Latin-1
    Supplement U+00C0 to U+00D6 and U+00D8 to U+00DE (the multiplication
    sign U+00D7 lies between the two runs). *)
Definition is_upper (c : ascii) : bool :=
  (in_range "A" "Z" c || in_range "192" "214" c || in_range "216" "222" c)%bool.

(** [\d]: the decimal digits; below 256 these are 0 to 9 (the superscripts
    U+00B2, U+00B3 and U+00B9 are digits but not decimal ones). *)
Definition is_digit (c : ascii) : bool := in_range "0" "9" c.

(** [\w]: what [str.isalnum] accepts, and the underscore.  Below 256:
    the ASCII letters and digits; the ordinal indicators U+00AA and U+00BA;
    the micro sign U+00B5; the superscripts U+00B2, U+00B3, U+00B9; the
    fractions U+00BC to U+00BE; and the letters U+00C0 to U+00FF without
    the multiplication sign U+00D7 and the division sign U+00F7. *)
Definition is_word (c : ascii) : bool :=
  (in_range "0" "9" c || in_range "A" "Z" c || Ascii.eqb c "_"
   || in_range "a" "z" c
   || Ascii.eqb c "170" || in_range "178" "179" c || Ascii.eqb c "181"
   || in_range "185" "186" c || in_range "188" "190" c
   || in_range "192" "214" c || in_range "216" "246" c
   || in_range "248" "255" c)%bool.

(** [\s] and [str.isspace]: TAB, LF, VT, FF, CR, the four separators
    FS, GS, RS, US, the space, NEL U+0085 and the no-break space U+00A0. *)
Definition is_space (c : ascii) : bool :=
  (in_range "009" "013" c || in_range "028" "032" c
   || Ascii.eqb c "133" || Ascii.eqb c "160")%bool.

(** The lower case of one character: 32 code points up, for the characters
    that have one. *)
Definition lower_char (c : ascii) : ascii :=
  if is_upper c then ascii_of_nat (nat_of_ascii c + 32) else c.

(** The characters of ASCII, below 128. *)
Definition is_ascii (c : ascii) : bool := Ascii.ltb c "128".

(** [all(p(c) for c in s)] *)
Fixpoint string_forall (p : ascii -> bool) (s : string) : bool :=
  match s with
  | EmptyString => true
  | String a s' => p a && string_forall p s'
  end.

(** [s.isascii()]: every character of [s] is below 128.  A text of ASCII
    characters is the same sequence whether it is read by code points or
    by the bytes of its encoding. *)
Definition ascii_only (s : string) : bool := string_forall is_ascii s.

(** [str.lower()] *)
Fixpoint lower (s : string) : string :=
  match s with
  | EmptyString => EmptyString
  | String c s' => String (lower_char c) (lower s')
  end.

(** [str.replace("\n", " ")] *)
Fixpoint replace_newlines (s : string) : string :=
  match s with
  | EmptyString => EmptyString
  | String c s' =>
      String (if Ascii.eqb c "010" then " "%char else c) (replace_newlines s')
  end.

Fixpoint lstrip (s : string) : string :=
  match s with
  | EmptyString => EmptyString
  | String c s' => if is_space c then lstrip s' else s
  end.

Fixpoint string_rev_onto (s acc : string) : string :=
  match s with
  | EmptyString => acc
  | String c s' => string_rev_onto s' (String c acc)
  end.

Definition string_rev (s : string) : string := string_rev_onto s EmptyString.

Definition rstrip (s : string) : string := string_rev (lstrip (string_rev s)).

(** [str.strip()] *)
Definition strip (s : string) : string := rstrip (lstrip s).

(** [s.endswith(suffix)] *)
Definition endswith (s suffix : string) : bool :=
  let n := String.length s in
  let k := String.length suffix in
  (k <=? n)%nat && String.eqb (substring (n - k) k s) suffix.

(** [sep.join(xs)] *)
Fixpoint join (sep : string) (xs : list string) : string :=
  match xs with
  | [] => EmptyString
  | [x] => x
  | x :: rest => x ++ sep ++ join sep rest
  end.

(** ** A backtracking matcher for the regular expressions of [services.py]

    The patterns of the program use literals, character classes, greedy
    repetition of a class, alternation, optional parts and the word-boundary
    assertion.  [run] tries the alternatives in the order Python's [re] does
    (left alternative first, longest repetition first) and calls the
    continuation on each candidate end until one is accepted. *)

Module Re.

Inductive re : Type :=
| Eps
| Chr (p : ascii -> bool)
| Seq (r1 r2 : re)
| Alt (r1 r2 : re)
| Star (p : ascii -> bool)
| WordB.

(** A position in the subject: the character before it, its index, and
    the characters from it on. *)
Record cursor : Type := Cursor {
  before : option ascii;
  pos : nat;
  rest : list ascii
}.

Definition word_before (c : cursor) : bool :=
  match before c with Some a => is_word a | None => false end.

Definition word_after (c : cursor) : bool :=
  match rest c with a :: _ => is_word a | [] => false end.

(** [\b]: exactly one side of the position is a word character. *)
Definition at_boundary (c : cursor) : bool :=
  xorb (word_before c) (word_after c).

Section Run.
Context {A : Type}.

(** Greedy [p*]: take one more character when possible, give it back
    when the continuation refuses. *)
Fixpoint star (p : ascii -> bool) (k : cursor -> option A)
         (b : option ascii) (n : nat) (s : list ascii) : option A :=
  match s with
  | a :: s' =>
      if p a then
        match star p k (Some a) (S n) s' with
        | Some e => Some e
        | None => k (Cursor b n s)
        end
      else k (Cursor b n s)
  | [] => k (Cursor b n s)
  end.

Fixpoint run (r : re) (c : cursor) (k : cursor -> option A) : option A :=
  match r with
  | Eps => k c
  | Chr p =>
      match rest c with
      | a :: s' => if p a then k (Cursor (Some a) (S (pos c)) s') else None
      | [] => None
      end
  | Seq r1 r2 => run r1 c (fun c1 => run r2 c1 k)
  | Alt r1 r2 =>
      match run r1 c k with
      | Some e => Some e
      | None => run r2 c k
      end
  | Star p => star p k (before c) (pos c) (rest c)
  | WordB => if at_boundary c then k c else None
  end.
End Run.

(** End index of the match of [r] starting at [c], if any. *)
Definition match_at (r : re) (c : cursor) : option nat :=
  run r c (fun c' => Some (pos c')).

(** [re.search]: the leftmost start with a match, as a span. *)
Fixpoint search_from (r : re) (b : option ascii) (n : nat)
         (s : list ascii) : option (nat * nat) :=
  match match_at r (Cursor b n s) with
  | Some e => Some (n, e)
  | None =>
      match s with
      | a :: s' => search_from r (Some a) (S n) s'
      | [] => None
      end
  end.

Definition search (r : re) (text : string) : option (nat * nat) :=
  search_from r None 0 (list_ascii_of_string text).

(** [re.finditer]: the successive non-overlapping matches, left to right.
    [skip] counts the positions still covered by the previous match. *)
Fixpoint finditer_from (r : re) (b : option ascii) (n : nat)
         (s : list ascii) (skip : nat) : list (nat * nat) :=
  let next k :=
    match s with
    | a :: s' => finditer_from r (Some a) (S n) s' k
    | [] => []
    end in
  match skip with
  | S k => next k
  | O =>
      match match_at r (Cursor b n s) with
      | Some e => (n, e) :: next (e - n - 1)
      | None => next 0
      end
  end.

Definition finditer (r : re) (text : string) : list (nat * nat) :=
  finditer_from r None 0 (list_ascii_of_string text) 0.

(** Pattern builders. *)
Definition Opt (r : re) : re := Alt r Eps.
Definition Plus (p : ascii -> bool) : re := Seq (Chr p) (Star p).

(** A character matched literally (what [re.escape] guarantees). *)
Definition Lit1 (c : ascii) : re := Chr (Ascii.eqb c).

(** A character matched under [re.IGNORECASE]. *)
Definition Lit1i (c : ascii) : re :=
  Chr (fun a => Ascii.eqb (lower_char a) (lower_char c)).

Fixpoint Lit (s : string) : re :=
  match s with
  | EmptyString => Eps
  | String c s' => Seq (Lit1 c) (Lit s')
  end.

Fixpoint Liti (s : string) : re :=
  match s with
  | EmptyString => Eps
  | String c s' => Seq (Lit1i c) (Liti s')
  end.

End Re.

(** [m.group()] and slicing [text[i:j]] for a span. *)
Definition slice (text : string) (i j : nat) : string := substring i (j - i) text.

(** ** [app/models.py] *)

Record Skill : Type := mkSkill { name : string; category : string }.

Record RoleMatch : Type := mkRoleMatch { role : string; score : float }.

(** ** [app/constants.py] *)

Definition SKILL_CATEGORIES : list (string * list string) :=
  [ ("Programming Languages",
     ["python"; "java"; "javascript"; "typescript"; "c++"; "c#"; "go";
      "golang"; "ruby"; "php"; "swift"; "kotlin"; "r"; "matlab"; "sql";
      "scala"; "perl"; "rust"]);
    ("Web Development (Frontend)",
     ["html"; "css"; "react"; "angular"; "vue"; "vue.js"; "next.js"; "nextjs";
      "svelte"; "jquery"; "bootstrap"; "tailwind"; "tailwindcss"; "sass";
      "less"; "webpack"; "babel"]);
    ("Web Development (Backend)",
     ["node.js"; "nodejs"; "express"; "django"; "flask"; "fastapi";
      "ruby on rails"; "spring"; "spring boot"; ".net"; "asp.net"; "laravel"]);
    ("Database Systems",
     ["mysql"; "postgresql"; "mongodb"; "redis"; "oracle"; "sqlite";
      "microsoft sql server"; "sql server"; "cassandra"; "elasticsearch";
      "dynamodb"; "firebase"]);
    ("DevOps & Cloud",
     ["aws"; "azure"; "gcp"; "google cloud platform"; "docker"; "kubernetes";
      "k8s"; "terraform"; "ansible"; "jenkins"; "gitlab ci"; "github actions";
      "ci/cd"; "prometheus"; "grafana"; "linux"; "bash"; "powershell"; "nginx";
      "apache"]);
    ("Data Science & ML",
     ["tensorflow"; "pytorch"; "scikit-learn"; "keras"; "pandas"; "numpy";
      "scipy"; "matplotlib"; "seaborn"; "jupyter"; "spark"; "apache spark";
      "hadoop"; "nlp"; "computer vision"; "opencv"; "d3.js"; "tableau";
      "power bi"; "looker"]);
    ("Project Management & Tools",
     ["agile"; "scrum"; "kanban"; "jira"; "confluence"; "trello"; "asana";
      "git"; "github"; "gitlab"; "bitbucket"; "svn"; "project management"]);
    ("Soft Skills",
     ["leadership"; "communication"; "teamwork"; "problem solving";
      "analytical"; "critical thinking"; "collaboration"; "mentoring";
      "adaptability"; "time management"]) ].

Record RoleRequirements : Type := mkRole {
  required_skills : list string;
  good_to_have : list string;
  experience_keywords : list string
}.

Definition JOB_ROLES : list (string * RoleRequirements) :=
  [ ("Software Engineer",
     mkRole ["python"; "java"; "javascript"; "sql"; "git"; "teamwork"]
            ["docker"; "kubernetes"; "aws"; "ci/cd"; "agile"; "react";
             "node.js"; "c++"]
            ["development"; "implementation"; "testing"; "debugging";
             "optimization"; "code review"]);
    ("Data Scientist",
     mkRole ["python"; "r"; "sql"; "pandas"; "scikit-learn"; "matplotlib"]
            ["tensorflow"; "pytorch"; "spark"; "tableau"; "power bi"; "nlp";
             "computer vision"; "aws"]
            ["analysis"; "modeling"; "visualization"; "research";
             "prediction"; "a/b testing"; "algorithms"]);
    ("Frontend Developer",
     mkRole ["html"; "css"; "javascript"; "react"; "git"; "api"]
            ["typescript"; "vue"; "angular"; "next.js"; "tailwind"; "figma";
             "sass"; "webpack"]
            ["frontend"; "ui"; "user interface"; "web applications";
             "responsive"; "cross-browser"]);
    ("Backend Developer",
     mkRole ["node.js"; "python"; "java"; "sql"; "api"; "rest"; "git";
             "mongodb"; "postgresql"]
            ["docker"; "kubernetes"; "aws"; "gcp"; "django"; "flask";
             "spring boot"; "microservices"; "graphql"]
            ["backend"; "api development"; "database design"; "server-side";
             "microservices"; "performance"]);
    ("DevOps Engineer",
     mkRole ["linux"; "aws"; "docker"; "kubernetes"; "ci/cd"; "jenkins";
             "terraform"; "bash"]
            ["python"; "ansible"; "prometheus"; "grafana"; "gcp"; "azure";
             "security"]
            ["automation"; "deployment"; "monitoring"; "infrastructure";
             "iac"; "scalability"; "reliability"]) ].

(** [JOB_ROLES.get(role)] / [role in JOB_ROLES] *)
Fixpoint lookup_role (catalog : list (string * RoleRequirements))
         (r : string) : option RoleRequirements :=
  match catalog with
  | [] => None
  | (k, v) :: rest => if String.eqb r k then Some v else lookup_role rest r
  end.

(** ** Skill extraction ([extract_skills]) *)

(** [r'\b' + re.escape(skill_lower) + r's?\b'] *)
Definition skill_pattern (skill_lower : string) : Re.re :=
  Re.Seq Re.WordB
    (Re.Seq (Re.Lit skill_lower)
       (Re.Seq (Re.Opt (Re.Lit1 "s")) Re.WordB)).

Definition re_search (r : Re.re) (text : string) : bool :=
  match Re.search r text with Some _ => true | None => false end.

(** The loop state: [skills_found] (in append order) and
    [found_skill_names]. *)
Definition extract_state : Type := (list Skill * gset string)%type.

(** One iteration of the inner loop. *)
Definition extract_step (text_lower : string) (cat : string)
           (st : extract_state) (skill : string) : extract_state :=
  let '(skills_found, found_skill_names) := st in
  let skill_lower := lower skill in
  if decide (skill_lower ∈ found_skill_names) then st
  else if re_search (skill_pattern skill_lower) text_lower then
    ((skills_found ++ [mkSkill skill cat])%list,
     {[skill_lower]} ∪ found_skill_names)
  else st.

Definition extract_category (text_lower : string) (st : extract_state)
           (entry : string * list string) : extract_state :=
  fold_left (extract_step text_lower (fst entry)) (snd entry) st.

(** [extract_skills] over an explicit catalog (the code reads the global). *)
Definition extract_skills_from (catalog : list (string * list string))
           (text : string) : list Skill :=
  let text_lower := lower text in
  fst (fold_left (extract_category text_lower) catalog ([], ∅)).

Definition extract_skills (text : string) : list Skill :=
  extract_skills_from SKILL_CATEGORIES text.

(** ** Iteration order of a Python [set]

    [list(set(xs))] lists every element of [xs] once, in the order of the
    interpreter's hash table.  That order is fixed by the string hashes of the
    running process, not by the program, so the model takes it as an
    interface: any duplicate-free listing of the same elements. *)

Class HashOrder : Type := {
  list_of_set : list string -> list string;
  list_of_set_NoDup : forall xs, List.NoDup (list_of_set xs);
  list_of_set_In : forall xs x, In x (list_of_set xs) <-> In x xs
}.

(** Two such orders: first occurrences in insertion order, and the same
    listing reversed. *)
Definition first_occurrences (xs : list string) : list string :=
  rev (nodup string_dec (rev xs)).

Definition last_to_first (xs : list string) : list string :=
  nodup string_dec (rev xs).

Lemma first_occurrences_NoDup (xs : list string) :
  List.NoDup (first_occurrences xs).
Proof. apply NoDup_rev, NoDup_nodup. Qed.

Lemma first_occurrences_In (xs : list string) (x : string) :
  In x (first_occurrences xs) <-> In x xs.
Proof.
  unfold first_occurrences. rewrite <- in_rev, nodup_In, <- in_rev. reflexivity.
Qed.

Lemma last_to_first_NoDup (xs : list string) : List.NoDup (last_to_first xs).
Proof. apply NoDup_nodup. Qed.

Lemma last_to_first_In (xs : list string) (x : string) :
  In x (last_to_first xs) <-> In x xs.
Proof. unfold last_to_first. rewrite nodup_In, <- in_rev. reflexivity. Qed.

Definition insertion_order : HashOrder :=
  {| list_of_set := first_occurrences;
     list_of_set_NoDup := first_occurrences_NoDup;
     list_of_set_In := first_occurrences_In |}.

Definition reversed_order : HashOrder :=
  {| list_of_set := last_to_first;
     list_of_set_NoDup := last_to_first_NoDup;
     list_of_set_In := last_to_first_In |}.

(** ** Sorting as Python's [sorted] does: stable *)

Section StableSort.
Context {A : Type}.

(** [lt x y]: [x] sorts strictly before [y].  An element is put before
    the first one it does not have to follow, so equal elements keep the
    order of the input. *)
Fixpoint insert_sorted (lt : A -> A -> bool) (x : A) (l : list A) : list A :=
  match l with
  | [] => [x]
  | y :: l' => if lt y x then y :: insert_sorted lt x l' else x :: l
  end.

Definition stable_sort (lt : A -> A -> bool) (l : list A) : list A :=
  fold_right (insert_sorted lt) [] l.
End StableSort.

(** [sorted(xs)] on strings: ascending code-point order. *)
Definition sorted_strings (xs : list string) : list string :=
  stable_sort String.ltb xs.

(** [sorted(xs, key=len, reverse=True)] *)
Definition sorted_by_len_desc (xs : list string) : list string :=
  stable_sort (fun x y => (String.length y <? String.length x)%nat) xs.

(** ** Experience analysis ([analyze_experience]) *)

(** First pattern of [year_patterns] ("5 years", "5+ years"): a digit run,
    optional blanks, an optional plus sign followed by optional blanks, then
    year or years, between two word boundaries; under [re.IGNORECASE]. *)
Definition year_pattern_1 : Re.re :=
  Re.Seq Re.WordB
    (Re.Seq (Re.Plus is_digit)
       (Re.Seq (Re.Star is_space)
          (Re.Seq (Re.Opt (Re.Seq (Re.Lit1 "+") (Re.Star is_space)))
             (Re.Seq (Re.Liti "year")
                (Re.Seq (Re.Opt (Re.Lit1i "s")) Re.WordB))))).

(** Second pattern of [year_patterns] ("5-7 years"),
    [\b(\d+)-(\d+)\s*years?\b]; under [re.IGNORECASE]. *)
Definition year_pattern_2 : Re.re :=
  Re.Seq Re.WordB
    (Re.Seq (Re.Plus is_digit)
       (Re.Seq (Re.Lit1 "-")
          (Re.Seq (Re.Plus is_digit)
             (Re.Seq (Re.Star is_space)
                (Re.Seq (Re.Liti "year")
                   (Re.Seq (Re.Opt (Re.Lit1i "s")) Re.WordB)))))).

Definition year_patterns : list Re.re := [year_pattern_1; year_pattern_2].

(** The [experience_matches] built by the first loop. *)
Definition year_mentions (text : string) : list string :=
  flat_map
    (fun pattern =>
       map (fun m => "Mention of: " ++ slice text (fst m) (snd m))
           (Re.finditer pattern text))
    year_patterns.

(** An entity of [doc.ents]: [ent.text] and [ent.label_]. *)
Record Entity : Type := mkEntity { ent_text : string; ent_label : string }.

(** The spaCy pipeline: its entities, or [None] when the call raises. *)
Definition NlpModel : Type := string -> option (list Entity).

(** [[ent.text.replace("\n", " ") for ent in doc.ents if ent.label_ == "DATE"]] *)
Definition date_entities_of (ents : list Entity) : list string :=
  map (fun e => replace_newlines (ent_text e))
      (List.filter (fun e => String.eqb (ent_label e) "DATE") ents).

(** [unique_dates[:10]] *)
Definition unique_dates `{HashOrder} (date_entities : list string) : list string :=
  firstn 10 (sorted_by_len_desc (list_of_set date_entities)).

(** [experience_matches] before the final [list(set(...))]. *)
Definition experience_matches `{HashOrder} (text : string)
           (nlp_model : NlpModel) : list string :=
  let mentions := year_mentions text in
  match nlp_model text with
  | Some ents =>
      let date_entities := date_entities_of ents in
      match date_entities with
      | [] => mentions
      | _ :: _ =>
          (mentions ++ ["Key Dates Found:"] ++ unique_dates date_entities)%list
      end
  | None => mentions
  end.

Definition analyze_experience `{HashOrder} (text : string)
           (nlp_model : NlpModel) : list string :=
  list_of_set (experience_matches text nlp_model).

(** ** Education analysis ([analyze_education]) *)

Definition dot_opt : Re.re := Re.Opt (Re.Lit1 ".").

Fixpoint alternatives (rs : list Re.re) : Re.re :=
  match rs with
  | [] => Re.Eps
  | [r] => r
  | r :: rest => Re.Alt r (alternatives rest)
  end.

(** The degree abbreviations,
    [B\.?S\.?|M\.?S\.?|Ph\.?D\.?|B\.?A\.?|M\.?B\.?A\.?|B\.?Tech|M\.?Tech|B\.?E\.?|M\.?E\.?] *)
Definition degree_alternatives : Re.re :=
  let l := Re.Liti in
  let sq := fold_right Re.Seq Re.Eps in
  alternatives
    [ sq [l "B"; dot_opt; l "S"; dot_opt];
      sq [l "M"; dot_opt; l "S"; dot_opt];
      sq [l "Ph"; dot_opt; l "D"; dot_opt];
      sq [l "B"; dot_opt; l "A"; dot_opt];
      sq [l "M"; dot_opt; l "B"; dot_opt; l "A"; dot_opt];
      sq [l "B"; dot_opt; l "Tech"];
      sq [l "M"; dot_opt; l "Tech"];
      sq [l "B"; dot_opt; l "E"; dot_opt];
      sq [l "M"; dot_opt; l "E"; dot_opt] ].

Definition whole_word (r : Re.re) : Re.re := Re.Seq Re.WordB (Re.Seq r Re.WordB).

Definition education_keywords : list Re.re :=
  [ whole_word degree_alternatives;
    whole_word (Re.Liti "University");
    whole_word (Re.Liti "College");
    whole_word (Re.Liti "Institute of Technology");
    whole_word (Re.Liti "Degree");
    whole_word (Re.Liti "Bachelor");
    whole_word (Re.Liti "Master");
    whole_word (alternatives [Re.Liti "Cum Laude"; Re.Liti "Magna Cum Laude";
                              Re.Liti "Summa Cum Laude"]) ].

(** The snippet around one match. *)
Definition context_snippet (text : string) (m : nat * nat) : string :=
  let context_start := Nat.max 0 (fst m - 30) in
  let context_end := Nat.min (String.length text) (snd m + 30) in
  strip (replace_newlines (slice text context_start context_end)).

Definition analyze_education `{HashOrder} (text : string) : list string :=
  list_of_set
    (flat_map (fun pattern => map (context_snippet text) (Re.finditer pattern text))
              education_keywords).

(** ** Floating-point helpers *)

(** [float(n)] for a small natural number (exact below 2^53). *)
Definition float_of_nat (n : nat) : float :=
  PrimFloat.of_uint63 (Uint63.of_Z (Z.of_nat n)).

(** Nearest integer to [num / den] for [den > 0], ties to the even one. *)
Definition round_half_even (num den : Z) : Z :=
  let q := (num / den)%Z in
  let r := (num mod den)%Z in
  match (2 * r ?= den)%Z with
  | Lt => q
  | Gt => (q + 1)%Z
  | Eq => if Z.even q then q else (q + 1)%Z
  end.

(** [round(x, 2)].  CPython prints the exact binary value of [x] to two
    decimals with round-half-even and reads the decimal back as the nearest
    double.  With [x = m * 2^e]: from [e >= -6] on, the doubles are more than
    0.01 apart (or [x] is an integer) and the result is [x] itself; below,
    the hundredths [n] fit in 53 bits, so [n / 100] is that nearest double. *)
Definition round2 (x : float) : float :=
  match Prim2SF x with
  | S754_finite s m e =>
      if (-6 <=? e)%Z then x
      else
        let n := round_half_even (100 * Z.pos m) (2 ^ (- e)) in
        let a := (PrimFloat.of_uint63 (Uint63.of_Z n) / 100)%float in
        if s then (- a)%float else a
  | _ => x
  end.

(** ** Role scoring ([suggest_role_matches], [analyze_target_role]) *)

(** [{s.name.lower() for s in skills}] *)
Definition skill_names_found (skills : list Skill) : gset string :=
  list_to_set (map (fun s => lower (name s)) skills).

(** [(found / total) if total > 0 else 0] *)
Definition ratio (found total : nat) : float :=
  if (0 <? total)%nat then (float_of_nat found / float_of_nat total)%float
  else 0%float.

(** [(required_score * 0.7 + good_to_have_score * 0.3) * 100] *)
Definition weighted (required_score good_to_have_score : float) : float :=
  ((required_score * 0.7 + good_to_have_score * 0.3) * 100)%float.

(** The body of the loop of [suggest_role_matches]: [final_score] of a role. *)
Definition role_final_score (found : gset string)
           (requirements : RoleRequirements) : float :=
  let total_required := length (required_skills requirements) in
  let total_good_to_have := length (good_to_have requirements) in
  let required_found := found ∩ list_to_set (required_skills requirements) in
  let good_to_have_found := found ∩ list_to_set (good_to_have requirements) in
  let required_score := ratio (size required_found) total_required in
  let good_to_have_score := ratio (size good_to_have_found) total_good_to_have in
  weighted required_score good_to_have_score.

(** [sorted(role_scores.items(), key=lambda item: item[1], reverse=True)] *)
Definition sort_by_score_desc (items : list (string * float))
  : list (string * float) :=
  stable_sort (fun a b => PrimFloat.ltb (snd b) (snd a)) items.

(** [suggest_role_matches] over an explicit catalog, an association list
    with distinct role names like the dictionary it stands for. *)
Definition suggest_role_matches_from
           (catalog : list (string * RoleRequirements))
           (skills : list Skill) : list RoleMatch :=
  let found := skill_names_found skills in
  let role_scores :=
    map (fun entry => (fst entry, role_final_score found (snd entry))) catalog in
  let sorted_roles := sort_by_score_desc role_scores in
  map (fun item => mkRoleMatch (fst item) (round2 (snd item))) sorted_roles.

Definition suggest_role_matches (skills : list Skill) : list RoleMatch :=
  suggest_role_matches_from JOB_ROLES skills.

(** The dictionary returned by [analyze_target_role]. *)
Record TargetRoleAnalysis : Type := mkAnalysis {
  tra_role : string;
  tra_score : float;
  tra_required_found : list string;
  tra_required_missing : list string;
  tra_good_to_have_found : list string;
  tra_good_to_have_missing : list string
}.

(** [sorted(list(s))] for a set of strings. *)
Definition sorted_of_set (s : gset string) : list string :=
  sorted_strings (elements s).

Definition analyze_target_role_from
           (catalog : list (string * RoleRequirements))
           (skills : list Skill) (target_role : string)
  : option TargetRoleAnalysis :=
  match lookup_role catalog target_role with
  | None => None
  | Some requirements =>
      let found := skill_names_found skills in
      let required_skills_set : gset string :=
        list_to_set (required_skills requirements) in
      let good_to_have_set : gset string :=
        list_to_set (good_to_have requirements) in
      let total_required := size required_skills_set in
      let total_good_to_have := size good_to_have_set in
      let required_found_count := size (found ∩ required_skills_set) in
      let good_to_have_found_count := size (found ∩ good_to_have_set) in
      let req_score := ratio required_found_count total_required in
      let gth_score := ratio good_to_have_found_count total_good_to_have in
      let final_score := weighted req_score gth_score in
      Some {| tra_role := target_role;
              tra_score := final_score;
              tra_required_found := sorted_of_set (found ∩ required_skills_set);
              tra_required_missing := sorted_of_set (required_skills_set ∖ found);
              tra_good_to_have_found := sorted_of_set (found ∩ good_to_have_set);
              tra_good_to_have_missing := sorted_of_set (good_to_have_set ∖ found) |}
  end.

Definition analyze_target_role (skills : list Skill) (target_role : string)
  : option TargetRoleAnalysis :=
  analyze_target_role_from JOB_ROLES skills target_role.

(** ** Exceptions, external capabilities and the world *)

(** The exceptions that travel through [services.py]. *)
Inductive exn : Type :=
| ValueError (msg : string)
| IndexError.

(** What a call into a library gives back: a value, or an exception derived
    from [Exception]. *)
Inductive Fallible (A : Type) : Type :=
| Returns (a : A)
| Raises.
Arguments Returns {A} a.
Arguments Raises {A}.

(** A completion of the generative model.  Reading [response.text] raises
    when the model stopped for a reason other than STOP; [candidates] and
    the [finish_reason.name] of a candidate are read in the last handler. *)
Record Response : Type := mkResponse {
  resp_text : Fallible string;
  resp_candidates : Fallible (list (Fallible string))
}.

(** The audit document written by [analyze_resume_file]. *)
Record AnalysisRecord : Type := mkRecord {
  rec_timestamp : Z;
  rec_file_name : string;
  rec_target_role : string;
  rec_match_score : float;
  rec_skills_found_count : nat;
  rec_analysis_duration_ms : Z
}.

(** Calls that leave the process. *)
Inductive Event : Type :=
| EvPdfReader (file_stream : list Byte.byte)
| EvDocxDocument (file_stream : list Byte.byte)
| EvConfigure (api_key : string)
| EvGenerate (prompt : string)
| EvSleep (delay : nat)
| EvInsertOne (doc : AnalysisRecord).

Record World : Type := mkWorld {
  trace : list Event;
  collection : list AnalysisRecord
}.

(** The collaborators.  A parser gives the page (paragraph) texts, each of
    which may fail when read; the model's answer may depend on the calls made
    so far; the clock is read in milliseconds. *)
Record Env : Type := mkEnv {
  pdf_reader : list Byte.byte -> Fallible (list (Fallible string));
  docx_document : list Byte.byte -> Fallible (list (Fallible string));
  GEMINI_API_KEY : option string;
  genai_configure : string -> Fallible unit;
  generate_content : list Event -> string -> Fallible Response;
  insert_one : list AnalysisRecord -> AnalysisRecord -> Fallible unit;
  clock : list Event -> Z
}.

(** ** The monad of the service layer: world passing with exceptions *)

Inductive Result (A : Type) : Type :=
| Ok (a : A)
| Raise (e : exn).
Arguments Ok {A} a.
Arguments Raise {A} e.

Definition M (A : Type) : Type := World -> Result A * World.

Definition ret {A} (a : A) : M A := fun w => (Ok a, w).

Definition raise {A} (e : exn) : M A := fun w => (Raise e, w).

Definition bind {A B} (m : M A) (f : A -> M B) : M B :=
  fun w =>
    match m w with
    | (Ok a, w') => f a w'
    | (Raise e, w') => (Raise e, w')
    end.

Declare Scope service_scope.
Delimit Scope service_scope with service.
Notation "x <- m ;; k" := (bind m (fun x => k))
  (at level 100, m at next level, right associativity) : service_scope.
Notation "m ;;; k" := (bind m (fun _ => k))
  (at level 100, right associativity) : service_scope.

Definition emit (e : Event) : M unit :=
  fun w => (Ok tt, {| trace := (trace w ++ [e])%list; collection := collection w |}).

(** [time.time()] *)
Definition time_time (env : Env) : M Z := fun w => (Ok (clock env (trace w)), w).

(** ** Text extraction ([extract_text_from_pdf], [extract_text_from_docx]) *)

(** The loop over [pdf_reader.pages] inside the [try]: the text accumulated
    when the loop ends, normally or by an exception. *)
Fixpoint pdf_pages_loop (pages : list (Fallible string)) (text : string) : string :=
  match pages with
  | [] => text
  | Raises :: _ => text
  | Returns page_text :: rest =>
      pdf_pages_loop rest
        (if String.eqb page_text EmptyString then text
         else text ++ page_text ++ String "010" EmptyString)
  end.

Definition extract_text_from_pdf (env : Env) (file_stream : list Byte.byte)
  : M string :=
  (emit (EvPdfReader file_stream) ;;;
   let text := EmptyString in
   match pdf_reader env file_stream with
   | Returns pages => ret (pdf_pages_loop pages text)
   | Raises => ret text
   end)%service.

(** The loop over [doc.paragraphs]. *)
Fixpoint docx_paragraphs_loop (paragraphs : list (Fallible string))
         (text : string) : string :=
  match paragraphs with
  | [] => text
  | Raises :: _ => text
  | Returns para_text :: rest =>
      docx_paragraphs_loop rest (text ++ para_text ++ String "010" EmptyString)
  end.

Definition extract_text_from_docx (env : Env) (file_stream : list Byte.byte)
  : M string :=
  (emit (EvDocxDocument file_stream) ;;;
   let text := EmptyString in
   match docx_document env file_stream with
   | Returns paragraphs => ret (docx_paragraphs_loop paragraphs text)
   | Raises => ret text
   end)%service.

(** ** Feedback generation ([get_personalized_feedback]) *)

(** The [analysis_data] dictionary: empty, or the target-role analysis with
    the two keys the orchestrator adds. *)
Inductive FeedbackData : Type :=
| EmptyData
| GapData (analysis : TargetRoleAnalysis) (total_skills : nat)
          (experience_keywords : list string).

Definition dq : string := String "034" EmptyString.

(** [str(n)] *)
Definition string_of_nat (n : nat) : string :=
  NilEmpty.string_of_uint (Nat.to_uint n).

(** [', '.join(xs) or 'None'] *)
Definition join_or_none (xs : list string) : string :=
  let s := join ", " xs in
  if String.eqb s EmptyString then "None" else s.

(** The f-string with its six holes filled. *)
Definition prompt_text
           (role_text found_text missing_text optional_text total_text
            keyword_text : string) : string :=
  "
    You are an expert, encouraging, and professional career coach. A user has uploaded their resume for analysis.
    Your task is to provide concise, actionable feedback in Markdown format (max 3-4 bullet points).

    **Analysis Data:**
    * **Target Role:** "
  ++ role_text
  ++ "
    * **Skills Found:** "
  ++ found_text
  ++ "
    * **Critical Missing Skills:** "
  ++ missing_text
  ++ "
    * **'Good-to-Have' Missing Skills:** "
  ++ optional_text
  ++ "
    * **Total Skills Count:** "
  ++ total_text
  ++ "

    **Instructions:**
    1.  Start with a positive reinforcement based on the skills they *do* have.
    2.  Identify the *most critical* 1-2 missing required skills. Suggest a specific, actionable way to learn them (e.g., "
  ++ dq
  ++ "build a small project,"
  ++ dq
  ++ " "
  ++ dq
  ++ "contribute to an open-source repo,"
  ++ dq
  ++ " "
  ++ dq
  ++ "get a certification"
  ++ dq
  ++ ").
    3.  If no required skills are missing, suggest focusing on 1-2 "
  ++ dq
  ++ "good-to-have"
  ++ dq
  ++ " skills to stand out.
    4.  Provide one suggestion on how to tailor their resume *language* (e.g., "
  ++ dq
  ++ "Use keywords like '"
  ++ keyword_text
  ++ "' to describe your experience..."
  ++ dq
  ++ ").
    5.  Keep the tone professional, supportive, and constructive. Do not be overly harsh.
    ".

(** [prompt_template]; [experience_keywords[0]] raises on an empty list. *)
Definition prompt_template (analysis_data : FeedbackData) : Result string :=
  match analysis_data with
  | EmptyData =>
      Ok (prompt_text "N/A" (join_or_none []) (join_or_none [])
                      (join_or_none []) (string_of_nat 0) "...")
  | GapData a total_skills keywords =>
      match keywords with
      | [] => Raise IndexError
      | keyword :: _ =>
          Ok (prompt_text (tra_role a)
                          (join_or_none (tra_required_found a))
                          (join_or_none (tra_required_missing a))
                          (join_or_none (tra_good_to_have_missing a))
                          (string_of_nat total_skills) keyword)
      end
  end.

(** [await model.generate_content_async(prompt_template)] *)
Definition generate (env : Env) (prompt : string) : M (Fallible Response) :=
  fun w =>
    (Ok (generate_content env (trace w) prompt),
     {| trace := (trace w ++ [EvGenerate prompt])%list;
        collection := collection w |}).

(** [await asyncio.sleep(delay)] *)
Definition sleep (delay : nat) : M unit := emit (EvSleep delay).

(** The innermost [try] of the last handler: the message built from the
    last response that was received, if any. *)
Definition failure_message (response : option Response) : string :=
  match response with
  | Some r =>
      match resp_candidates r with
      | Returns (candidate :: _) =>
          match candidate with
          | Returns reason_name =>
              "Error: AI feedback generation failed (Reason: " ++ reason_name ++ ")."
          | Raises => "Error: Unable to generate AI feedback at this time."
          end
      | Returns [] => "Error: Unable to generate AI feedback (No response from model)."
      | Raises => "Error: Unable to generate AI feedback at this time."
      end
  | None => "Error: Unable to generate AI feedback (No response from model)."
  end.

(** [for attempt in range(max_retries)], as a recursion over the attempts
    still to make; [delay] and [response] are the loop's variables.  The
    model object built before the loop makes no call and is left out. *)
Fixpoint retry_loop (env : Env) (prompt : string) (max_retries : nat)
         (attempts : list nat) (delay : nat) (response : option Response)
  : M string :=
  match attempts with
  | [] => ret "Error: AI feedback generation failed."
  | attempt :: later =>
      let on_exception (response : option Response) : M string :=
        if (attempt <? max_retries - 1)%nat then
          (sleep delay ;;; retry_loop env prompt max_retries later (delay * 2) response)%service
        else ret (failure_message response) in
      (r <- generate env prompt ;;
       match r with
       | Returns resp =>
           match resp_text resp with
           | Returns text_response => ret text_response
           | Raises => on_exception (Some resp)
           end
       | Raises => on_exception response
       end)%service
  end.

Definition not_configured (apiKey : option string) : bool :=
  match apiKey with
  | None => true
  | Some key =>
      String.eqb key EmptyString || String.eqb key "YOUR_GEMINI_API_KEY_GOES_HERE"
  end.

Definition get_personalized_feedback (env : Env) (analysis_data : FeedbackData)
  : M string :=
  let apiKey := GEMINI_API_KEY env in
  match apiKey with
  | None => ret "Error: AI feedback service is not configured."
  | Some key =>
      if not_configured apiKey then
        ret "Error: AI feedback service is not configured."
      else
        (emit (EvConfigure key) ;;;
         match genai_configure env key with
         | Raises => ret "Error: Could not configure AI feedback service."
         | Returns _ =>
             match prompt_template analysis_data with
             | Raise e => raise e
             | Ok prompt =>
                 let max_retries := 3 in
                 let delay := 1 in
                 retry_loop env prompt max_retries (seq 0 max_retries) delay None
             end
         end)%service
  end.

(** ** The audit log ([db_service.log_analysis_to_db]) *)

(** [insert_one] inside a [try] whose handler only logs. *)
Definition log_analysis_to_db (env : Env) (log_document : AnalysisRecord)
  : M unit :=
  fun w =>
    let tr := (trace w ++ [EvInsertOne log_document])%list in
    match insert_one env (collection w) log_document with
    | Returns _ =>
        (Ok tt, {| trace := tr;
                   collection := (collection w ++ [log_document])%list |})
    | Raises => (Ok tt, {| trace := tr; collection := collection w |})
    end.

(** ** The orchestrator ([analyze_resume_file]) *)

Record AnalysisResponse : Type := mkResponseBody {
  fileName : string;
  extractedText : string;
  skillsFound : list Skill;
  roleMatches : list RoleMatch;
  targetRoleAnalysis : option TargetRoleAnalysis;
  experienceSummary : list string;
  educationSummary : list string;
  personalizedFeedback : string
}.

Definition unsupported_file_type : exn := ValueError "Unsupported file type".

Definition empty_document : exn :=
  ValueError
    "Could not extract text from the document. It might be empty or image-based.".

(** [JOB_ROLES.get(target_role, {}).get("experience_keywords", [])] *)
Definition role_experience_keywords (target_role : string) : list string :=
  match lookup_role JOB_ROLES target_role with
  | Some requirements => experience_keywords requirements
  | None => []
  end.

(** Step 1 of [analyze_resume_file], the dispatch on the file name. *)
Definition extract_text (env : Env) (file_stream : list Byte.byte)
           (filename : string) : M string :=
  if endswith filename ".pdf" then extract_text_from_pdf env file_stream
  else if endswith filename ".docx" then extract_text_from_docx env file_stream
  else raise unsupported_file_type.

Definition analyze_resume_file `{HashOrder} (env : Env)
           (file_stream : list Byte.byte) (filename target_role : string)
           (nlp_model : NlpModel) : M AnalysisResponse :=
  (start_time <- time_time env ;;
   text <- extract_text env file_stream filename ;;
   if String.eqb (strip text) EmptyString then raise empty_document
   else
     let skills := extract_skills text in
     let experience_summary := analyze_experience text nlp_model in
     let education_summary := analyze_education text in
     let role_matches := suggest_role_matches skills in
     let target_role_analysis := analyze_target_role skills target_role in
     let feedback_data :=
       match target_role_analysis with
       | Some a => GapData a (length skills) (role_experience_keywords target_role)
       | None => EmptyData
       end in
     let target_score :=
       match target_role_analysis with
       | Some a => tra_score a
       | None => 0%float
       end in
     personalized_feedback <- get_personalized_feedback env feedback_data ;;
     end_time <- time_time env ;;
     let duration_ms := (end_time - start_time)%Z in
     let log_document :=
       {| rec_timestamp := end_time;
          rec_file_name := filename;
          rec_target_role := target_role;
          rec_match_score := target_score;
          rec_skills_found_count := length skills;
          rec_analysis_duration_ms := duration_ms |} in
     log_analysis_to_db env log_document ;;;
     ret {| fileName := filename;
            extractedText := substring 0 2000 text ++ "...";
            skillsFound := skills;
            roleMatches := role_matches;
            targetRoleAnalysis := target_role_analysis;
            experienceSummary := experience_summary;
            educationSummary := education_summary;
            personalizedFeedback := personalized_feedback |})%service.

(** * Specification-side definitions

    Reference functions the properties compare the code with. *)

(** Text of the pages read without failure, as the loop builds it. *)
Fixpoint pages_text (texts : list string) : string :=
  match texts with
  | [] => EmptyString
  | t :: rest =>
      (if String.eqb t EmptyString then EmptyString
       else t ++ String "010" EmptyString) ++ pages_text rest
  end.

Fixpoint paragraphs_text (texts : list string) : string :=
  match texts with
  | [] => EmptyString
  | t :: rest => t ++ String "010" EmptyString ++ paragraphs_text rest
  end.


(** A generation attempt fails when the call raises or when the text of the
    completion cannot be read. *)
Definition attempt_fails (o : Fallible Response) : Prop :=
  match o with
  | Raises => True
  | Returns r => resp_text r = Raises
  end.

(** The last completion received among the outcomes of successive attempts. *)
Fixpoint last_received (outcomes : list (Fallible Response)) : option Response :=
  match outcomes with
  | [] => None
  | o :: later =>
      match last_received later with
      | Some r => Some r
      | None => match o with Returns r => Some r | Raises => None end
      end
  end.

(** The catalog in iteration order: one (category, keyword) pair per turn of
    the inner loop of [extract_skills]. *)
Definition catalog_entries (catalog : list (string * list string))
  : list (string * string) :=
  flat_map (fun entry => map (fun skill => (fst entry, skill)) (snd entry)) catalog.

(** The key of the result set: the lowercased name of a finding. *)
Definition lname (s : Skill) : string := lower (name s).

(** [s] stands at the first place of [entries] that carries its lowercased
    name. *)
Definition first_seen (entries : list (string * string)) (s : Skill) : Prop :=
  exists pre post,
    entries = (pre ++ (category s, name s) :: post)%list /\
    forall e, In e pre -> lower (snd e) <> lname s.

(** The test the loop applies to a keyword. *)
Definition keyword_matches (text_lower skill : string) : bool :=
  re_search (skill_pattern (lower skill)) text_lower.

(** [a] occurs before [b] in [l]. *)
Definition precedes {A : Type} (l : list A) (a b : A) : Prop :=
  exists l1 l2 l3, l = (l1 ++ a :: l2 ++ b :: l3)%list.

(** The unrounded scores a role can get: one per pair of counts. *)
Definition count_pairs (n m : nat) : list (nat * nat) :=
  list_prod (seq 0 (S n)) (seq 0 (S m)).

Definition possible_scores (requirements : RoleRequirements) : list float :=
  let n := length (required_skills requirements) in
  let m := length (good_to_have requirements) in
  map (fun c => weighted (ratio (fst c) n) (ratio (snd c) m)) (count_pairs n m).

Definition all_scores (catalog : list (string * RoleRequirements)) : list float :=
  flat_map (fun entry => possible_scores (snd entry)) catalog.

(** An integer that orders the finite doubles as they are ordered: the
    value scaled by 2^1074. *)
Definition fkey (x : float) : Z :=
  match Prim2SF x with
  | S754_finite false m e => (Z.pos m * 2 ^ (e + 1074))%Z
  | S754_finite true m e => (- (Z.pos m * 2 ^ (e + 1074)))%Z
  | _ => 0%Z
  end.

(** A score with its key and its rounding. *)
Definition keyed (x : float) : float * Z * float := (x, fkey x, round2 x).

(** On the scores [V]: [<] is the order of the keys, rounding is monotone,
    and every rounded score lies between 0 and 100. *)
Definition order_check (V : list float) : bool :=
  let T := map keyed V in
  forallb
    (fun tx =>
       let '(x, kx, rx) := tx in
       PrimFloat.leb 0 rx && PrimFloat.leb rx 100 &&
       forallb
         (fun ty =>
            let '(y, ky, ry) := ty in
            Bool.eqb (PrimFloat.ltb y x) (ky <? kx)%Z &&
            (if (ky <=? kx)%Z then PrimFloat.leb ry rx else true))
         T)
    T.

(** A role never has a strictly larger score than an earlier role while
    both round to the same value. *)
Definition tie_pair_check (earlier later : RoleRequirements) : bool :=
  let Te := map keyed (possible_scores earlier) in
  let Tl := map keyed (possible_scores later) in
  forallb
    (fun tx =>
       let '(x, _, rx) := tx in
       forallb
         (fun ty =>
            let '(y, _, ry) := ty in
            if PrimFloat.eqb ry rx then negb (PrimFloat.ltb x y) else true)
         Tl)
    Te.

Fixpoint ties_check (catalog : list (string * RoleRequirements)) : bool :=
  match catalog with
  | [] => true
  | entry :: later =>
      forallb (fun e => tie_pair_check (snd entry) (snd e)) later
      && ties_check later
  end.

(** A role whose two lists have no repetition: the length of each list
    ([len(requirements[...])] in [suggest_role_matches]) is the size of its
    set ([len(set(...))] in [analyze_target_role]). *)
Definition role_regular (requirements : RoleRequirements) : Prop :=
  let R := required_skills requirements in
  let G := good_to_have requirements in
  size (list_to_set R : gset string) = length R /\
  size (list_to_set G : gset string) = length G.

(** [l] lists the set [S] in strictly ascending order. *)
Definition sorted_listing (l : list string) (S : gset string) : Prop :=
  StronglySorted (fun x y => String.ltb x y = true) l /\
  forall x, In x l <-> x ∈ S.

(** [part in text]: [part] occurs in [text] as a substring. *)
Fixpoint occurs_at (part text : string) : bool :=
  match part, text with
  | EmptyString, _ => true
  | String _ _, EmptyString => false
  | String a part', String b text' => Ascii.eqb a b && occurs_at part' text'
  end.

Fixpoint occurs (part text : string) : bool :=
  occurs_at part text ||
  match text with
  | EmptyString => false
  | String _ text' => occurs part text'
  end.

(** First and last character of a string, if any. *)
Definition first_char (s : string) : option ascii :=
  match s with
  | EmptyString => None
  | String a _ => Some a
  end.

Fixpoint last_char (s : string) : option ascii :=
  match s with
  | EmptyString => None
  | String a EmptyString => Some a
  | String _ s' => last_char s'
  end.

Definition is_word_opt (c : option ascii) : bool :=
  match c with
  | Some a => is_word a
  | None => false
  end.

(** A keyword that begins and ends with a word character. *)
Definition word_edged (keyword : string) : bool :=
  is_word_opt (first_char keyword) && is_word_opt (last_char keyword).

(** [word] stands in [pre ++ word ++ post] as a whole word: no word
    character touches it on either side. *)
Definition stands_alone (pre post : string) : bool :=
  negb (is_word_opt (last_char pre)) && negb (is_word_opt (first_char post)).

(** One turn of the inner loop of [extract_skills], on a catalog entry. *)
Definition extract_entry (text_lower : string) (st : extract_state)
           (e : string * string) : extract_state :=
  extract_step text_lower (fst e) st (snd e).

(** What holds of the loop state once the entries [seen] are processed. *)
Record extract_inv (text_lower : string) (seen : list (string * string))
       (st : extract_state) : Prop := {
  inv_names : forall x, x ∈ snd st <-> In x (map lname (fst st));
  inv_nodup : List.NoDup (map lname (fst st));
  inv_first : forall s, In s (fst st) ->
                        first_seen seen s /\
                        keyword_matches text_lower (name s) = true;
  inv_found : forall e, In e seen ->
                        keyword_matches text_lower (snd e) = true ->
                        In (lower (snd e)) (map lname (fst st))
}.

(** The comparison [lt] of a sort is, on the elements of [l], the strict
    order of an integer key, larger key first. *)
Definition key_order {A : Type} (lt : A -> A -> bool) (key : A -> Z)
           (l : list A) : Prop :=
  forall a b, In a l -> In b l -> lt a b = (key b <? key a)%Z.

(** The character before the position reached after reading [s] from a
    position whose previous character is [b]. *)
Definition before_after (b : option ascii) (s : string) : option ascii :=
  match last_char s with
  | Some a => Some a
  | None => b
  end.

(** The score in exact arithmetic: the ratios and the weights 7/10 and
    3/10 as rationals. *)
Definition exact_ratio (found total : nat) : Q :=
  if (0 <? total)%nat then Qmake (Z.of_nat found) (Pos.of_nat total)
  else Qmake 0 1.

Definition exact_score (a n b m : nat) : Q :=
  Qmult (Qplus (Qmult (Qmake 7 10) (exact_ratio a n))
               (Qmult (Qmake 3 10) (exact_ratio b m)))
        (Qmake 100 1).

(** A rational rounded to two decimals, half to even, in hundredths. *)
Definition hundredths (q : Q) : Z :=
  let h := Qmult q (Qmake 100 1) in
  round_half_even (Qnum h) (Z.pos (Qden h)).

(** [k] hundredths is the rational [q] rounded to two decimals:
    [k - 1/2 <= 100 q <= k + 1/2], and [k] is even when [100 q] lies
    half-way between two integers. *)
Definition rounds_to_hundredths (q : Q) (k : Z) : Prop :=
  let h := Qmult q (Qmake 100 1) in
  Qle (Qminus (inject_Z k) (Qmake 1 2)) h /\
  Qle h (Qplus (inject_Z k) (Qmake 1 2)) /\
  (Qeq h (Qminus (inject_Z k) (Qmake 1 2)) \/
   Qeq h (Qplus (inject_Z k) (Qmake 1 2)) -> Z.even k = true).

(** The double nearest to [k / 100], for [k] below 2^53. *)
Definition float_of_hundredths (k : Z) : float :=
  (PrimFloat.of_uint63 (Uint63.of_Z k) / 100)%float.

(** On every pair of counts of a role, the rounded floating-point score is
    the exact score rounded to two decimals. *)
Definition role_exact (requirements : RoleRequirements) : Prop :=
  let n := length (required_skills requirements) in
  let m := length (good_to_have requirements) in
  Forall (fun c => round2 (weighted (ratio (fst c) n) (ratio (snd c) m))
                   = float_of_hundredths
                       (hundredths (exact_score (fst c) n (snd c) m)))
         (count_pairs n m).

(** Within a role, a pair of counts that is no smaller in either
    coordinate gives a rounded score that is no smaller. *)
Definition monotone_check (requirements : RoleRequirements) : bool :=
  let n := length (required_skills requirements) in
  let m := length (good_to_have requirements) in
  let T := map (fun c => (c, round2 (weighted (ratio (fst c) n) (ratio (snd c) m))))
               (count_pairs n m) in
  forallb
    (fun t =>
       forallb
         (fun t' =>
            if ((fst (fst t) <=? fst (fst t')) && (snd (fst t) <=? snd (fst t')))%nat
            then PrimFloat.leb (snd t) (snd t') else true)
         T)
    T.

(** The variable [response] after an attempt with outcome [o]. *)
Definition record_response (o : Fallible Response) (response : option Response)
  : option Response :=
  match o with Returns r => Some r | Raises => response end.

(** * Sample data for the worked instances *)

(** A concrete environment: a PDF whose only page holds blanks (a space,
    a no-break space U+00A0, a space), a DOCX parser that fails, no
    credential. *)
Definition blank_env : Env :=
  {| pdf_reader :=
       fun _ => Returns [Returns (String " " (String (chr 160) " "))];
     docx_document := fun _ => Raises;
     GEMINI_API_KEY := None;
     genai_configure := fun _ => Returns tt;
     generate_content := fun _ _ => Raises;
     insert_one := fun _ _ => Returns tt;
     clock := fun tr => Z.of_nat (length tr) |}.

Definition empty_world : World := {| trace := []; collection := [] |}.

Definition no_entities : NlpModel := fun _ => Some [].

(** A configured service whose model always stops for safety. *)
Definition blocked_response : Response :=
  {| resp_text := Raises; resp_candidates := Returns [Returns "SAFETY"] |}.

Definition blocked_env : Env :=
  {| pdf_reader := fun _ => Raises;
     docx_document := fun _ => Raises;
     GEMINI_API_KEY := Some "key-1";
     genai_configure := fun _ => Returns tt;
     generate_content := fun _ _ => Returns blocked_response;
     insert_one := fun _ _ => Returns tt;
     clock := fun tr => Z.of_nat (length tr) |}.

Definition default_prompt : string :=
  prompt_text "N/A" "None" "None" "None" "0" "...".

(** Two date entities as a spaCy pipeline would tag them. *)
Definition two_dates : NlpModel :=
  fun _ => Some [mkEntity "January 2020" "DATE"; mkEntity "Acme" "ORG";
                 mkEntity "2021" "DATE"].

(** A one-page PDF, a configured service that answers at once, a database
    that accepts the record. *)
Definition answering_env : Env :=
  {| pdf_reader := fun _ => Returns [Returns "Python, SQL and Docker"];
     docx_document := fun _ => Raises;
     GEMINI_API_KEY := Some "key-1";
     genai_configure := fun _ => Returns tt;
     generate_content :=
       fun _ _ => Returns {| resp_text := Returns "Add Kubernetes.";
                             resp_candidates := Returns [Returns "STOP"] |};
     insert_one := fun _ _ => Returns tt;
     clock := fun tr => Z.of_nat (length tr) |}.
(** * Further reference definitions *)

(** ** What a pattern can match

    [re_matches r c c']: reading from the position [c], the pattern [r] can
    stop at the position [c'].  This is the set of candidates among which
    the backtracking matcher [Re.run] picks the first one its continuation
    accepts. *)
Inductive re_matches : Re.re -> Re.cursor -> Re.cursor -> Prop :=
| matches_Eps c : re_matches Re.Eps c c
| matches_Chr p b n a s :
    p a = true ->
    re_matches (Re.Chr p) (Re.Cursor b n (a :: s)) (Re.Cursor (Some a) (S n) s)
| matches_Seq r1 r2 c c1 c2 :
    re_matches r1 c c1 -> re_matches r2 c1 c2 ->
    re_matches (Re.Seq r1 r2) c c2
| matches_Alt_l r1 r2 c c' :
    re_matches r1 c c' -> re_matches (Re.Alt r1 r2) c c'
| matches_Alt_r r1 r2 c c' :
    re_matches r2 c c' -> re_matches (Re.Alt r1 r2) c c'
| matches_Star_stop p c : re_matches (Re.Star p) c c
| matches_Star_more p b n a s c' :
    p a = true ->
    re_matches (Re.Star p) (Re.Cursor (Some a) (S n) s) c' ->
    re_matches (Re.Star p) (Re.Cursor b n (a :: s)) c'
| matches_WordB c : Re.at_boundary c = true -> re_matches Re.WordB c c.

(** From [c], reading the characters of [m] leads to [c']. *)
Definition reads (c : Re.cursor) (m : string) (c' : Re.cursor) : Prop :=
  Re.rest c = (list_ascii_of_string m ++ Re.rest c')%list /\
  Re.pos c' = Re.pos c + String.length m /\
  Re.before c' = before_after (Re.before c) m.

(** The position of a text after its prefix [pre]. *)
Definition cursor_at (pre post : string) : Re.cursor :=
  Re.Cursor (last_char pre) (String.length pre) (list_ascii_of_string post).

(** [\b] between the texts [a] and [b]: exactly one of the two characters
    that meet is a word character. *)
Definition word_boundary (a b : string) : bool :=
  xorb (is_word_opt (last_char a)) (is_word_opt (first_char b)).

(** ** The skill catalog seen from the role catalog *)

(** The finding a catalog entry stands for. *)
Definition entry_skill (e : string * string) : Skill := mkSkill (snd e) (fst e).

(** The names [extract_skills] can report, lowercased. *)
Definition detectable : list string :=
  map (fun e => lower (snd e)) (catalog_entries SKILL_CATEGORIES).

(** The score a role gets when every skill it lists that is a keyword of
    the skill catalog is found. *)
Definition score_ceiling (requirements : RoleRequirements) : float :=
  round2 (role_final_score (list_to_set detectable) requirements).

(** A text that names every skill of the role catalog that the skill
    catalog knows. *)
Definition every_role_skill : string :=
  "python java javascript sql git teamwork docker kubernetes aws ci/cd agile react node.js c++s r pandas scikit-learn matplotlib tensorflow pytorch spark tableau power bi nlp computer vision html css typescript vue angular next.js tailwind sass webpack mongodb postgresql gcp django flask spring boot linux jenkins terraform bash ansible prometheus grafana azure".

(** On every pair of counts of a role: the rounded score is 0 only when
    both counts are 0, and 100 only when both counts are full. *)
Definition extremes_check (requirements : RoleRequirements) : bool :=
  let n := length (required_skills requirements) in
  let m := length (good_to_have requirements) in
  forallb
    (fun c =>
       let x := round2 (weighted (ratio (fst c) n) (ratio (snd c) m)) in
       Bool.eqb (PrimFloat.eqb x 0) ((fst c =? 0)%nat && (snd c =? 0)%nat) &&
       Bool.eqb (PrimFloat.eqb x 100) ((fst c =? n)%nat && (snd c =? m)%nat))
    (count_pairs n m).

(** ** Effects of the feedback generator *)

(** Number of generation calls among the events. *)
Definition generations (evs : list Event) : nat :=
  length (List.filter (fun e => match e with EvGenerate _ => true | _ => false end) evs).

(** Total time slept, in seconds. *)
Fixpoint slept (evs : list Event) : nat :=
  match evs with
  | [] => 0
  | EvSleep delay :: rest => delay + slept rest
  | _ :: rest => slept rest
  end.

(** The calls [get_personalized_feedback] can make for a key and a prompt. *)
Definition feedback_runs (key prompt : string) : list (list Event) :=
  [ [EvConfigure key];
    [EvConfigure key; EvGenerate prompt];
    [EvConfigure key; EvGenerate prompt; EvSleep 1; EvGenerate prompt];
    [EvConfigure key; EvGenerate prompt; EvSleep 1; EvGenerate prompt;
     EvSleep 2; EvGenerate prompt] ].

(** A service whose first call fails and whose later calls answer. *)
Definition flaky_env : Env :=
  {| pdf_reader := fun _ => Raises;
     docx_document := fun _ => Raises;
     GEMINI_API_KEY := Some "key-1";
     genai_configure := fun _ => Returns tt;
     generate_content :=
       fun tr _ =>
         if (length tr <? 3)%nat then Raises
         else Returns {| resp_text := Returns "Learn Terraform.";
                         resp_candidates := Returns [Returns "STOP"] |};
     insert_one := fun _ _ => Returns tt;
     clock := fun tr => Z.of_nat (length tr) |}.

(** ** The words of a pattern *)

Definition not_newline (c : ascii) : bool := negb (Ascii.eqb c "010").

(** [lang r m]: the word [m] is read by some match of [r] (the word
    boundaries, which read nothing, are left to the positions). *)
Fixpoint lang (r : Re.re) (m : string) : Prop :=
  match r with
  | Re.Eps => m = EmptyString
  | Re.Chr p => exists a, m = String a EmptyString /\ p a = true
  | Re.Seq r1 r2 => exists m1 m2, m = m1 ++ m2 /\ lang r1 m1 /\ lang r2 m2
  | Re.Alt r1 r2 => lang r1 m \/ lang r2 m
  | Re.Star p => string_forall p m = true
  | Re.WordB => m = EmptyString
  end.

(** The 256 characters. *)
Definition all_chars : list ascii := map ascii_of_nat (seq 0 256).

Fixpoint star_free (r : Re.re) : bool :=
  match r with
  | Re.Seq r1 r2 | Re.Alt r1 r2 => star_free r1 && star_free r2
  | Re.Star _ => false
  | _ => true
  end.

(** The words of a pattern without repetition, lowercased. *)
Fixpoint lowered_language (r : Re.re) : list string :=
  match r with
  | Re.Eps | Re.WordB => [EmptyString]
  | Re.Chr p =>
      nodup string_dec
        (map (fun a => String (lower_char a) EmptyString) (List.filter p all_chars))
  | Re.Seq r1 r2 =>
      flat_map (fun m1 => map (String.append m1) (lowered_language r2))
               (lowered_language r1)
  | Re.Alt r1 r2 => (lowered_language r1 ++ lowered_language r2)%list
  | Re.Star _ => []
  end.

(** The education keywords in lower case, as the eight patterns admit
    them. *)
Definition education_words : list string :=
  [ "b.s."; "b.s"; "bs."; "bs"; "m.s."; "m.s"; "ms."; "ms";
    "ph.d."; "ph.d"; "phd."; "phd"; "b.a."; "b.a"; "ba."; "ba";
    "m.b.a."; "m.b.a"; "m.ba."; "m.ba"; "mb.a."; "mb.a"; "mba."; "mba";
    "b.tech"; "btech"; "m.tech"; "mtech";
    "b.e."; "b.e"; "be."; "be"; "m.e."; "m.e"; "me."; "me";
    "university"; "college"; "institute of technology"; "degree";
    "bachelor"; "master";
    "cum laude"; "magna cum laude"; "summa cum laude" ].

(** ** Snippets *)

(** The last [n] characters of a string (all of it when it is shorter) and
    its first [n] characters. *)
Definition last_n (n : nat) (s : string) : string :=
  substring (String.length s - n) n s.

Definition first_n (n : nat) (s : string) : string := substring 0 n s.

(** The snippet of [analyze_education] around the occurrence of [word] in
    [pre ++ word ++ post]: up to 30 characters of context on each side,
    newlines turned into blanks, blanks at the two ends removed. *)
Definition snippet_around (pre word post : string) : string :=
  lstrip (replace_newlines (last_n 30 pre)) ++ word
  ++ rstrip (replace_newlines (first_n 30 post)).

(** A lowercase keyword without newline and without blank at either end. *)
Definition keyword_shape (w : string) : bool :=
  string_forall not_newline w
  && match first_char w with Some a => negb (is_space a) | None => false end
  && match last_char w with Some a => negb (is_space a) | None => false end
  && (String.length w <=? 23)%nat.

(** No proper suffix of [w] is a prefix of [w]: two occurrences of [w]
    cannot overlap. *)
Definition borderless (w : string) : bool :=
  forallb
    (fun d =>
       existsb
         (fun k =>
            match String.get (d + k) w, String.get k w with
            | Some a, Some b => negb (Ascii.eqb a b)
            | _, _ => true
            end)
         (seq 0 (String.length w - d)))
    (seq 1 (String.length w - 1)).

(** The keywords of [analyze_education] that are one literal. *)
Definition literal_keywords : list string :=
  ["University"; "College"; "Institute of Technology"; "Degree"; "Bachelor";
   "Master"].

(** ** Year phrases *)

Definition nonempty (s : string) : bool :=
  match s with EmptyString => false | String _ _ => true end.

(** A run of digits that is not empty. *)
Definition is_number (s : string) : bool := nonempty s && string_forall is_digit s.

(** [year] or [years], in any case. *)
Definition is_year_unit (unit : string) : bool :=
  String.eqb (lower unit) "year" || String.eqb (lower unit) "years".

(** Blanks, then possibly a plus sign and blanks. *)
Definition is_plus_gap (gap : string) : bool :=
  match lstrip gap with
  | EmptyString => true
  | String c rest => Ascii.eqb c "+" && string_forall is_space rest
  end.

(** What the first year pattern reads ("5 years", "5+ years"): a number, a
    gap, the unit. *)
Definition year_phrase (amount gap unit : string) : bool :=
  is_number amount && is_plus_gap gap && is_year_unit unit.

(** What the second year pattern reads ("5-7 years"): two numbers joined
    by a hyphen, blanks, the unit. *)
Definition range_phrase (low high gap unit : string) : bool :=
  is_number low && is_number high && string_forall is_space gap
  && is_year_unit unit.

(** [accepts r m rest]: on a text that goes on with [m] and then [rest],
    the matcher's first choice for [r] that the continuation accepts is to
    read [m], whenever the continuation accepts that. *)
Definition accepts {A : Type} (r : Re.re) (m : string) (rest : list ascii) : Prop :=
  forall (b : option ascii) (n : nat) (k : Re.cursor -> option A) (e : A),
    k (Re.Cursor (before_after b m) (n + String.length m) rest) = Some e ->
    Re.run r (Re.Cursor b n (list_ascii_of_string m ++ rest)%list) k = Some e.

(** The text [rest] does not start with a character of the class [p]. *)
Definition stops (p : ascii -> bool) (rest : list ascii) : Prop :=
  match rest with
  | x :: _ => p x = false
  | [] => True
  end.

Definition not_digit (c : ascii) : bool := negb (is_digit c).

(** * The HTTP layer and the metrics

    [app/main.py] and the rest of [app/db_service.py]. *)

(** ** Values the database driver returns *)

(** A decoded BSON value as Python sees it: [None], a number, a string, a
    list, or a dictionary with string keys (an association list without
    repeated keys). *)
#[local] Set Warnings "-register-all".
Inductive value : Type :=
| VNone
| VBool (b : bool)
| VInt (z : Z)
| VFloat (f : float)
| VStr (s : string)
| VList (l : list value)
| VDict (d : list (string * value)).

(** Truth value of an object in a condition. *)
Definition truthy (x : value) : bool :=
  match x with
  | VNone => false
  | VBool b => b
  | VInt z => negb (z =? 0)%Z
  | VFloat f => negb (PrimFloat.eqb f 0)
  | VStr s => negb (String.eqb s EmptyString)
  | VList l => match l with [] => false | _ :: _ => true end
  | VDict d => match d with [] => false | _ :: _ => true end
  end.

Fixpoint dict_lookup (d : list (string * value)) (key : string) : option value :=
  match d with
  | [] => None
  | (k, v) :: rest => if String.eqb key k then Some v else dict_lookup rest key
  end.

(** [x[key]] for a string [key]: the entry of a dictionary; anything else
    raises ([KeyError] or [TypeError]). *)
Definition subscript (x : value) (key : string) : option value :=
  match x with
  | VDict d => dict_lookup d key
  | _ => None
  end.

(** [x[0]]: the first element of a list, the first character of a string;
    anything else raises ([IndexError], [KeyError] or [TypeError]). *)
Definition first_item (x : value) : option value :=
  match x with
  | VList (y :: _) => Some y
  | VStr (String c _) => Some (VStr (String c EmptyString))
  | _ => None
  end.

(** [x.get(key, default)]: defined on dictionaries; anything else raises
    [AttributeError]. *)
Definition get_or (x : value) (key : string) (default : value) : option value :=
  match x with
  | VDict d =>
      Some match dict_lookup d key with
           | Some v => v
           | None => default
           end
  | _ => None
  end.

(** ** The metrics ([db_service.get_analysis_metrics]) *)

(** The dictionary [metrics]. *)
Record Metrics : Type := mkMetrics {
  total_analyses : value;
  avg_duration_ms : value;
  avg_score : value;
  role_breakdown : value
}.

Definition default_metrics : Metrics :=
  {| total_analyses := VInt 0;
     avg_duration_ms := VInt 0;
     avg_score := VInt 0;
     role_breakdown := VList [] |}.

(** The body of the [try]: a computation on the dictionary [metrics] that
    may stop with an exception, leaving the assignments made so far. *)
Definition Try (A : Type) : Type := Metrics -> option A * Metrics.

Definition try_ret {A} (a : A) : Try A := fun m => (Some a, m).

Definition try_bind {A B} (t : Try A) (f : A -> Try B) : Try B :=
  fun m =>
    match t m with
    | (Some a, m') => f a m'
    | (None, m') => (None, m')
    end.

(** An expression that may raise. *)
Definition try_eval {A} (o : option A) : Try A := fun m => (o, m).

(** An assignment [metrics[...] = v]. *)
Definition try_assign (update : Metrics -> Metrics) : Try unit :=
  fun m => (Some tt, update m).

Declare Scope try_scope.
Delimit Scope try_scope with try.
Notation "x <- t ;; k" := (try_bind t (fun x => k))
  (at level 100, t at next level, right associativity) : try_scope.
Notation "t ;;; k" := (try_bind t (fun _ => k))
  (at level 100, right associativity) : try_scope.

(** The statements after the aggregation call, on the list [result] that
    [to_list(1)] returned. *)
Definition read_result (result : list value) : Try unit :=
  match result with
  | [] => try_ret tt
  | result_0 :: _ =>
      (overview <- try_eval (subscript result_0 "overview") ;;
       (if truthy overview then
          (overview_data <- try_eval (first_item overview) ;;
           total <- try_eval (get_or overview_data "total_analyses" (VInt 0)) ;;
           try_assign (fun m => {| total_analyses := total;
                                   avg_duration_ms := avg_duration_ms m;
                                   avg_score := avg_score m;
                                   role_breakdown := role_breakdown m |}) ;;;
           duration <- try_eval (get_or overview_data "avg_duration_ms" (VInt 0)) ;;
           try_assign (fun m => {| total_analyses := total_analyses m;
                                   avg_duration_ms := duration;
                                   avg_score := avg_score m;
                                   role_breakdown := role_breakdown m |}) ;;;
           mean <- try_eval (get_or overview_data "avg_score" (VInt 0)) ;;
           try_assign (fun m => {| total_analyses := total_analyses m;
                                   avg_duration_ms := avg_duration_ms m;
                                   avg_score := mean;
                                   role_breakdown := role_breakdown m |}))
        else try_ret tt) ;;;
       breakdown <- try_eval (subscript result_0 "role_breakdown") ;;
       if truthy breakdown then
         try_assign (fun m => {| total_analyses := total_analyses m;
                                 avg_duration_ms := avg_duration_ms m;
                                 avg_score := avg_score m;
                                 role_breakdown := breakdown |})
       else try_ret tt)%try
  end.

(** [get_analysis_metrics], given what
    [await collection.aggregate(pipeline).to_list(1)] does: the handler
    only logs, and [metrics] is returned as the [try] left it. *)
Definition get_analysis_metrics (aggregate : Fallible (list value)) : Metrics :=
  let metrics := default_metrics in
  match aggregate with
  | Raises => metrics
  | Returns result => snd (read_result result metrics)
  end.

(** ** The connection ([db_service.connect_to_mongo]) *)

(** How a call to the driver ends: normally, with an exception the
    [except] clause of [connect_to_mongo] names ([ConnectionFailure],
    [ServerSelectionTimeoutError] and their subclasses), or with another
    exception. *)
Inductive DriverOutcome : Type :=
| Succeeds
| FailsToConnect
| FailsOtherwise.

(** The three calls of [connect_to_mongo]. *)
Record Driver : Type := mkDriver {
  new_client : DriverOutcome;
  ping : DriverOutcome;
  create_index : DriverOutcome
}.

(** The client handle. *)
Inductive AsyncIOMotorClient : Type := MotorClient.

Inductive DriverCall : Type :=
| CallNewClient
| CallPing
| CallCreateIndex (field : string).

(** [connect_to_mongo]: the client, [None] after a connection failure, or
    the exception that escapes; with the calls made. *)
Definition connect_to_mongo (driver : Driver)
  : Fallible (option AsyncIOMotorClient) * list DriverCall :=
  match new_client driver with
  | Succeeds =>
      match ping driver with
      | Succeeds =>
          match create_index driver with
          | Succeeds =>
              (Returns (Some MotorClient),
               [CallNewClient; CallPing; CallCreateIndex "target_role"])
          | FailsToConnect =>
              (Returns None,
               [CallNewClient; CallPing; CallCreateIndex "target_role"])
          | FailsOtherwise =>
              (Raises, [CallNewClient; CallPing; CallCreateIndex "target_role"])
          end
      | FailsToConnect => (Returns None, [CallNewClient; CallPing])
      | FailsOtherwise => (Raises, [CallNewClient; CallPing])
      end
  | FailsToConnect => (Returns None, [CallNewClient])
  | FailsOtherwise => (Raises, [CallNewClient])
  end.

(** ** The application ([app/main.py]) *)

(** The module-level [nlp] and [app.state.db_client]. *)
Record App : Type := mkApp {
  nlp : option NlpModel;
  db_client : option AsyncIOMotorClient
}.

(** [startup_event]: the state it leaves, unless [connect_to_mongo] lets
    an exception escape. *)
Definition startup_event (nlp : option NlpModel) (driver : Driver)
  : Fallible App :=
  match fst (connect_to_mongo driver) with
  | Returns client => Returns {| nlp := nlp; db_client := client |}
  | Raises => Raises
  end.

(** [HTTPException(status_code, detail)] *)
Record HTTPException : Type := mkHTTP {
  status_code : nat;
  detail : string
}.

(** What a request handler gives FastAPI: the body of the response
    (status 200) or the [HTTPException] it raised. *)
Inductive Reply (A : Type) : Type :=
| Body (a : A)
| Rejected (e : HTTPException).
Arguments Body {A} a.
Arguments Rejected {A} e.

(** How [await resume_file.read()] ends: the contents, or an exception
    with its message. *)
Inductive ReadOutcome : Type :=
| ReadReturns (file_contents : list Byte.byte)
| ReadRaises (message : string).

(** The uploaded file. *)
Record UploadFile : Type := mkUpload {
  filename : string;
  read : ReadOutcome
}.

(** [str(e)] for the exceptions of the service layer. *)
Definition exn_str (e : exn) : string :=
  match e with
  | ValueError msg => msg
  | IndexError => "list index out of range"
  end.

(** [analyze_resume], the handler of [POST /analyze/].  The client handle
    is passed on to [analyze_resume_file], whose insertion is the
    environment's [insert_one]. *)
Definition analyze_resume `{HashOrder} (env : Env) (app : App)
           (resume_file : UploadFile) (target_role : string)
  : World -> Reply AnalysisResponse * World :=
  fun w =>
    match nlp app with
    | None =>
        (Rejected (mkHTTP 500 "NLP model is not loaded on the server."), w)
    | Some nlp_model =>
        match db_client app with
        | None =>
            (Rejected (mkHTTP 500 "Database connection is not available."), w)
        | Some client =>
            match read resume_file with
            | ReadRaises message =>
                (Rejected (mkHTTP 400 ("Error reading file: " ++ message)), w)
            | ReadReturns file_contents =>
                if negb (endswith (filename resume_file) ".pdf"
                         || endswith (filename resume_file) ".docx")
                then
                  (Rejected
                     (mkHTTP 400
                        "Invalid file type. Please upload a .pdf or .docx file."),
                   w)
                else
                  match analyze_resume_file env file_contents
                          (filename resume_file) target_role nlp_model w with
                  | (Ok analysis_result, w') => (Body analysis_result, w')
                  | (Raise (ValueError msg), w') =>
                      (Rejected (mkHTTP 400 msg), w')
                  | (Raise e, w') =>
                      (Rejected
                         (mkHTTP 500
                            ("An unexpected error occurred: " ++ exn_str e)),
                       w')
                  end
            end
        end
    end.

(** [get_metrics], the handler of [GET /metrics/], given what the
    aggregation call does.  [get_analysis_metrics] catches every exception
    itself, so the handler's own [except] clause ("Could not retrieve
    metrics.") has nothing to catch. *)
Definition get_metrics (app : App) (aggregate : Fallible (list value))
  : Reply Metrics :=
  match db_client app with
  | None => Rejected (mkHTTP 500 "Database connection is not available.")
  | Some client => Body (get_analysis_metrics aggregate)
  end.

(** The detail of the empty-document error. *)
Definition empty_document_detail : string :=
  "Could not extract text from the document. It might be empty or image-based.".

(** A running application and two uploads. *)
Definition running_app : App :=
  {| nlp := Some no_entities; db_client := Some MotorClient |}.

Definition pdf_upload : UploadFile :=
  {| filename := "cv.pdf"; read := ReadReturns [] |}.

Definition text_upload : UploadFile :=
  {| filename := "cv.txt"; read := ReadReturns [] |}.

(** An answer of the aggregation for a collection of three analyses. *)
Definition three_analyses : list value :=
  [ VDict
      [ ("overview",
         VList [ VDict [ ("_id", VNone);
                         ("total_analyses", VInt 3);
                         ("avg_duration_ms", VFloat 1250.5);
                         ("avg_score", VFloat 42.5) ] ]);
        ("role_breakdown",
         VList [ VDict [("_id", VStr "Data Scientist"); ("count", VInt 2)];
                 VDict [("_id", VStr "DevOps Engineer"); ("count", VInt 1)] ]) ] ].

(** ** Dependence on the iteration order of sets *)

(** The distinct DATE texts the entity finder gives for a text. *)
Definition distinct_dates (text : string) (nlp_model : NlpModel) : list string :=
  match nlp_model text with
  | Some ents => nodup string_dec (date_entities_of ents)
  | None => []
  end.

(** Eleven dates of the same length. *)
Definition eleven_dates : NlpModel :=
  fun _ =>
    Some (map (fun d => mkEntity d "DATE")
              ["2010"; "2011"; "2012"; "2013"; "2014"; "2015"; "2016"; "2017";
               "2018"; "2019"; "2020"]).

(** ** Documents without text *)

(** A page or paragraph that gives no text: reading it fails, or what it
    gives is blank. *)
Definition blank_part (part : Fallible string) : bool :=
  match part with
  | Returns t => string_forall is_space t
  | Raises => true
  end.

(** A scanned document: two pages without text, the second one holding a
    no-break space U+00A0 and a space. *)
Definition scanned_env : Env :=
  {| pdf_reader :=
       fun _ => Returns [Returns EmptyString; Returns (String (chr 160) " ")];
     docx_document := fun _ => Raises;
     GEMINI_API_KEY := Some "key-1";
     genai_configure := fun _ => Returns tt;
     generate_content := fun _ _ => Raises;
     insert_one := fun _ _ => Returns tt;
     clock := fun tr => Z.of_nat (length tr) |}.

(** ** The fixtures of [tests/test_services.py] *)

Definition sample_text_swe : string :=
  "
    Skills:
    Python, Java, Git, Docker, Kubernetes, AWS, SQL, JavaScript, React
    ".

Definition sample_text_ds : string :=
  "
    Skills:
    Python, R, SQL, Pandas, Scikit-learn, TensorFlow, Matplotlib, Tableau
    ".
(** * Properties *)

(** ** Strings *)

Lemma substring_all (s : string) : substring 0 (String.length s) s = s.
Proof. induction s as [|c s IH]; simpl; [reflexivity | now rewrite IH]. Qed.

Lemma substring_split (s : string) (i : nat) :
  i <= String.length s ->
  s = substring 0 i s ++ substring i (String.length s - i) s.
Proof.
  revert i. induction s as [|c s IH]; intros i Hi; simpl in *.
  - destruct i; [reflexivity | lia].
  - destruct i as [|i]; simpl.
    + now rewrite substring_all.
    + f_equal. apply IH. lia.
Qed.

Lemma endswith_true (s suffix : string) :
  endswith s suffix = true -> exists p, s = p ++ suffix.
Proof.
  unfold endswith. intros H.
  apply andb_true_iff in H as [Hle Heq].
  apply Nat.leb_le in Hle. apply String.eqb_eq in Heq.
  exists (substring 0 (String.length s - String.length suffix) s).
  pose proof (substring_split s (String.length s - String.length suffix)) as Hs.
  replace (String.length s - (String.length s - String.length suffix))
    with (String.length suffix) in Hs by lia.
  rewrite Heq in Hs. apply Hs. lia.
Qed.

Lemma not_suffix_endswith (s suffix : string) :
  (forall p, s <> p ++ suffix) -> endswith s suffix = false.
Proof.
  intros H. destruct (endswith s suffix) eqn:E; [|reflexivity].
  apply endswith_true in E as [p Hp]. now destruct (H p).
Qed.

(** ** The service monad *)

Lemma bind_ok {A B} (m : M A) (f : A -> M B) (w w' : World) (a : A) :
  m w = (Ok a, w') -> bind m f w = f a w'.
Proof. unfold bind. now intros ->. Qed.

Lemma bind_raise {A B} (m : M A) (f : A -> M B) (w w' : World) (e : exn) :
  m w = (Raise e, w') -> bind m f w = (Raise e, w').
Proof. unfold bind. now intros ->. Qed.

(** ** Text extraction never raises (C9) *)

Lemma extract_text_from_pdf_run (env : Env) (fs : list Byte.byte) (w : World) :
  extract_text_from_pdf env fs w =
  (Ok (match pdf_reader env fs with
       | Returns pages => pdf_pages_loop pages EmptyString
       | Raises => EmptyString
       end),
   {| trace := (trace w ++ [EvPdfReader fs])%list; collection := collection w |}).
Proof.
  unfold extract_text_from_pdf, bind, emit. simpl.
  destruct (pdf_reader env fs); reflexivity.
Qed.

Lemma extract_text_from_docx_run (env : Env) (fs : list Byte.byte) (w : World) :
  extract_text_from_docx env fs w =
  (Ok (match docx_document env fs with
       | Returns paragraphs => docx_paragraphs_loop paragraphs EmptyString
       | Raises => EmptyString
       end),
   {| trace := (trace w ++ [EvDocxDocument fs])%list; collection := collection w |}).
Proof.
  unfold extract_text_from_docx, bind, emit. simpl.
  destruct (docx_document env fs); reflexivity.
Qed.

Lemma append_assoc (a b c : string) : (a ++ b) ++ c = a ++ (b ++ c).
Proof. induction a as [|x a IH]; simpl; [reflexivity | now rewrite IH]. Qed.

Lemma append_empty_r (a : string) : a ++ EmptyString = a.
Proof. induction a as [|x a IH]; simpl; [reflexivity | now rewrite IH]. Qed.

Lemma pdf_pages_loop_stops (good : list string) (rest : list (Fallible string))
      (text : string) :
  pdf_pages_loop (map Returns good ++ Raises :: rest)%list text
  = text ++ pages_text good.
Proof.
  revert text. induction good as [|t good IH]; intros text; simpl.
  - now rewrite append_empty_r.
  - rewrite IH. destruct (String.eqb t EmptyString); simpl.
    + reflexivity.
    + now rewrite !append_assoc.
Qed.

Lemma pdf_pages_loop_all (good : list string) (text : string) :
  pdf_pages_loop (map Returns good) text = text ++ pages_text good.
Proof.
  revert text. induction good as [|t good IH]; intros text; simpl.
  - now rewrite append_empty_r.
  - rewrite IH. destruct (String.eqb t EmptyString); simpl.
    + reflexivity.
    + now rewrite !append_assoc.
Qed.

Lemma docx_paragraphs_loop_stops (good : list string)
      (rest : list (Fallible string)) (text : string) :
  docx_paragraphs_loop (map Returns good ++ Raises :: rest)%list text
  = text ++ paragraphs_text good.
Proof.
  revert text. induction good as [|t good IH]; intros text; simpl.
  - now rewrite append_empty_r.
  - rewrite IH. now rewrite !append_assoc.
Qed.

Lemma docx_paragraphs_loop_all (good : list string) (text : string) :
  docx_paragraphs_loop (map Returns good) text = text ++ paragraphs_text good.
Proof.
  revert text. induction good as [|t good IH]; intros text; simpl.
  - now rewrite append_empty_r.
  - rewrite IH. now rewrite !append_assoc.
Qed.

Lemma length_append (a b : string) :
  String.length (a ++ b) = String.length a + String.length b.
Proof. induction a as [|x a IH]; simpl; [reflexivity | now rewrite IH]. Qed.

Lemma substring_skip (p t : string) (k : nat) :
  substring (String.length p) k (p ++ t) = substring 0 k t.
Proof. induction p as [|x p IH]; simpl; [reflexivity | exact IH]. Qed.

Lemma endswith_suffix (p suffix : string) : endswith (p ++ suffix) suffix = true.
Proof.
  unfold endswith. rewrite length_append.
  apply andb_true_iff. split.
  - apply Nat.leb_le. lia.
  - replace (String.length p + String.length suffix - String.length suffix)
      with (String.length p) by lia.
    rewrite substring_skip, substring_all. apply String.eqb_refl.
Qed.

Lemma endswith_false (s suffix : string) :
  endswith s suffix = false -> forall p, s <> p ++ suffix.
Proof.
  intros H p ->. rewrite endswith_suffix in H. discriminate.
Qed.

(** ** The orchestrator's early exits (C6, C10) *)

Lemma extract_text_trace (env : Env) (fs : list Byte.byte) (filename : string)
      (w w1 : World) (text : string) :
  extract_text env fs filename w = (Ok text, w1) ->
  collection w1 = collection w /\
  (trace w1 = (trace w ++ [EvPdfReader fs])%list \/
   trace w1 = (trace w ++ [EvDocxDocument fs])%list).
Proof.
  unfold extract_text.
  destruct (endswith filename ".pdf").
  - rewrite extract_text_from_pdf_run. intros [= _ <-]. simpl. auto.
  - destruct (endswith filename ".docx").
    + rewrite extract_text_from_docx_run. intros [= _ <-]. simpl. auto.
    + discriminate.
Qed.

Lemma analyze_resume_file_blank `{HashOrder} (env : Env) (fs : list Byte.byte)
      (filename target_role : string) (nlp_model : NlpModel)
      (w w1 : World) (text : string) :
  extract_text env fs filename w = (Ok text, w1) ->
  strip text = EmptyString ->
  analyze_resume_file env fs filename target_role nlp_model w
  = (Raise empty_document, w1).
Proof.
  intros Hx Hs. unfold analyze_resume_file, bind at 1, time_time.
  rewrite (bind_ok _ _ _ _ _ Hx). rewrite Hs. reflexivity.
Qed.

(** A text of white space only is empty once stripped. *)
Lemma strip_blank (s : string) :
  string_forall is_space s = true -> strip s = EmptyString.
Proof.
  intros H. unfold strip. replace (lstrip s) with EmptyString; [reflexivity|].
  induction s as [|c s IH]; [reflexivity|].
  cbn [string_forall] in H. apply andb_true_iff in H as [Hc Hs].
  cbn [lstrip]. rewrite Hc. now apply IH.
Qed.

(** C6.  When the text obtained by step 1 is empty or holds white space
    only (every character of it is one [str.strip] removes: a blank, TAB,
    LF, VT, FF, CR, FS, GS, RS, US, NEL U+0085 or the no-break space
    U+00A0), [analyze_resume_file] raises the "empty or image-based
    document" [ValueError]; the world it leaves is the one step 1 left: the
    collection of audit records is the initial one, and the only call
    recorded since the start is the parser's (nothing was configured,
    generated, slept on or inserted). *)
Theorem blank_text_raises_and_logs_nothing `{HashOrder} (env : Env)
        (fs : list Byte.byte) (filename target_role : string)
        (nlp_model : NlpModel) (w w1 : World) (text : string) :
  extract_text env fs filename w = (Ok text, w1) ->
  string_forall is_space text = true ->
  analyze_resume_file env fs filename target_role nlp_model w
  = (Raise
       (ValueError
          "Could not extract text from the document. It might be empty or image-based."),
     w1)
  /\ collection w1 = collection w
  /\ (trace w1 = (trace w ++ [EvPdfReader fs])%list \/
      trace w1 = (trace w ++ [EvDocxDocument fs])%list).
Proof.
  intros Hx Hs. apply strip_blank in Hs. split.
  - now apply analyze_resume_file_blank with (text := text).
  - eapply extract_text_trace; eauto.
Qed.

Lemma blank_text_raises_and_logs_nothing_witness :
  analyze_resume_file (H := insertion_order) blank_env [] "scan.pdf"
    "Data Scientist" no_entities empty_world
  = (Raise
       (ValueError
          "Could not extract text from the document. It might be empty or image-based."),
     {| trace := [EvPdfReader []]; collection := [] |})
  /\ collection {| trace := [EvPdfReader []]; collection := [] |}
     = collection empty_world
  /\ (trace {| trace := [EvPdfReader []]; collection := [] |}
      = (trace empty_world ++ [EvPdfReader []])%list \/
      trace {| trace := [EvPdfReader []]; collection := [] |}
      = (trace empty_world ++ [EvDocxDocument []])%list).
Proof.
  apply (blank_text_raises_and_logs_nothing (H := insertion_order) blank_env []
           "scan.pdf" "Data Scientist" no_entities empty_world
           {| trace := [EvPdfReader []]; collection := [] |}
           (String " " (String (chr 160) (String " " (String "010" EmptyString))))).
  - reflexivity.
  - reflexivity.
Defined.

(** C10.  The dispatch looks at the suffix of the file name only and
    compares it as written: for a file name that is neither some prefix
    followed by ".pdf" nor some prefix followed by ".docx" (so "resume.PDF"
    is refused), [analyze_resume_file] raises the [ValueError]
    "Unsupported file type" and leaves the world as it found it: no parser
    was called and nothing else ran. *)
Theorem unsupported_suffix_raises `{HashOrder} (env : Env)
        (fs : list Byte.byte) (filename target_role : string)
        (nlp_model : NlpModel) (w : World) :
  (forall p, filename <> p ++ ".pdf") ->
  (forall p, filename <> p ++ ".docx") ->
  analyze_resume_file env fs filename target_role nlp_model w
  = (Raise (ValueError "Unsupported file type"), w).
Proof.
  intros Hpdf Hdocx.
  apply not_suffix_endswith in Hpdf. apply not_suffix_endswith in Hdocx.
  unfold analyze_resume_file, bind at 1, time_time.
  unfold extract_text. rewrite Hpdf, Hdocx. reflexivity.
Qed.

Lemma unsupported_suffix_raises_witness :
  analyze_resume_file (H := insertion_order) blank_env [] "resume.PDF"
    "Data Scientist" no_entities empty_world
  = (Raise (ValueError "Unsupported file type"), empty_world).
Proof.
  apply (unsupported_suffix_raises (H := insertion_order) blank_env []
           "resume.PDF" "Data Scientist" no_entities empty_world).
  - apply endswith_false. vm_compute. reflexivity.
  - apply endswith_false. vm_compute. reflexivity.
Defined.

(** C9.  Both extraction functions return a text for every stream and every
    behaviour of the parser, and never raise: when the parser fails on
    opening the document the text is empty; when reading fails after some
    pages (paragraphs) the text is what those gave.  A document the parser
    cannot open therefore reaches the caller of [analyze_resume_file] as the
    empty-document [ValueError]. *)
Theorem extraction_is_total `{HashOrder} (env : Env) (fs : list Byte.byte)
        (w : World) :
  (exists text,
      extract_text_from_pdf env fs w
      = (Ok text, {| trace := (trace w ++ [EvPdfReader fs])%list;
                     collection := collection w |}))
  /\ (exists text,
         extract_text_from_docx env fs w
         = (Ok text, {| trace := (trace w ++ [EvDocxDocument fs])%list;
                        collection := collection w |}))
  /\ (pdf_reader env fs = Raises ->
      fst (extract_text_from_pdf env fs w) = Ok EmptyString)
  /\ (docx_document env fs = Raises ->
      fst (extract_text_from_docx env fs w) = Ok EmptyString)
  /\ (forall good rest,
         pdf_reader env fs = Returns (map Returns good ++ Raises :: rest)%list ->
         fst (extract_text_from_pdf env fs w) = Ok (pages_text good))
  /\ (forall good rest,
         docx_document env fs
         = Returns (map Returns good ++ Raises :: rest)%list ->
         fst (extract_text_from_docx env fs w) = Ok (paragraphs_text good))
  /\ (forall filename target_role nlp_model,
         endswith filename ".pdf" = true ->
         pdf_reader env fs = Raises ->
         fst (analyze_resume_file env fs filename target_role nlp_model w)
         = Raise empty_document)
  /\ (forall filename target_role nlp_model,
         endswith filename ".pdf" = false ->
         endswith filename ".docx" = true ->
         docx_document env fs = Raises ->
         fst (analyze_resume_file env fs filename target_role nlp_model w)
         = Raise empty_document).
Proof.
  repeat split.
  - eexists. apply extract_text_from_pdf_run.
  - eexists. apply extract_text_from_docx_run.
  - intros E. rewrite extract_text_from_pdf_run, E. reflexivity.
  - intros E. rewrite extract_text_from_docx_run, E. reflexivity.
  - intros good rest E. rewrite extract_text_from_pdf_run, E. simpl.
    now rewrite pdf_pages_loop_stops.
  - intros good rest E. rewrite extract_text_from_docx_run, E. simpl.
    now rewrite docx_paragraphs_loop_stops.
  - intros filename target_role nlp_model Hs E.
    erewrite analyze_resume_file_blank with (text := EmptyString);
      [reflexivity | | reflexivity].
    unfold extract_text. rewrite Hs, extract_text_from_pdf_run, E. reflexivity.
  - intros filename target_role nlp_model Hp Hs E.
    erewrite analyze_resume_file_blank with (text := EmptyString);
      [reflexivity | | reflexivity].
    unfold extract_text. rewrite Hp, Hs, extract_text_from_docx_run, E.
    reflexivity.
Qed.

(** ** The feedback generator (C4, C7) *)

(** C7.  When the credential is unset (absent or empty) or is the
    placeholder, [get_personalized_feedback] returns the fixed
    "not configured" string for every [analysis_data] and leaves the world
    untouched: the trace gains no event, so no call to the generation
    service (nor any other) was made. *)
Theorem unconfigured_credential_short_circuits (env : Env)
        (analysis_data : FeedbackData) (w : World) :
  GEMINI_API_KEY env = None \/
  GEMINI_API_KEY env = Some EmptyString \/
  GEMINI_API_KEY env = Some "YOUR_GEMINI_API_KEY_GOES_HERE" ->
  get_personalized_feedback env analysis_data w
  = (Ok "Error: AI feedback service is not configured.", w).
Proof.
  unfold get_personalized_feedback.
  intros [-> | [-> | ->]]; reflexivity.
Qed.

Lemma unconfigured_credential_short_circuits_witness :
  get_personalized_feedback blank_env EmptyData empty_world
  = (Ok "Error: AI feedback service is not configured.", empty_world).
Proof.
  apply (unconfigured_credential_short_circuits blank_env EmptyData empty_world).
  left. reflexivity.
Defined.

Lemma retry_loop_retry (env : Env) (prompt : string)
      (max_retries attempt : nat) (later : list nat) (delay : nat)
      (response : option Response) (w : World) :
  attempt_fails (generate_content env (trace w) prompt) ->
  (attempt <? max_retries - 1)%nat = true ->
  retry_loop env prompt max_retries (attempt :: later) delay response w
  = retry_loop env prompt max_retries later (delay * 2)
      (record_response (generate_content env (trace w) prompt) response)
      {| trace := (trace w ++ [EvGenerate prompt; EvSleep delay])%list;
         collection := collection w |}.
Proof.
  intros Hf Hlt. simpl. unfold bind at 1, generate at 1. rewrite Hlt.
  destruct (generate_content env (trace w) prompt) as [r|]; simpl in *.
  - rewrite Hf. unfold bind, sleep, emit. simpl.
    now rewrite <- app_assoc.
  - unfold bind, sleep, emit. simpl. now rewrite <- app_assoc.
Qed.

Lemma retry_loop_give_up (env : Env) (prompt : string)
      (max_retries attempt : nat) (later : list nat) (delay : nat)
      (response : option Response) (w : World) :
  attempt_fails (generate_content env (trace w) prompt) ->
  (attempt <? max_retries - 1)%nat = false ->
  retry_loop env prompt max_retries (attempt :: later) delay response w
  = (Ok (failure_message
           (record_response (generate_content env (trace w) prompt) response)),
     {| trace := (trace w ++ [EvGenerate prompt])%list;
        collection := collection w |}).
Proof.
  intros Hf Hlt. simpl. unfold bind at 1, generate at 1. rewrite Hlt.
  destruct (generate_content env (trace w) prompt) as [r|]; simpl in *.
  - now rewrite Hf.
  - reflexivity.
Qed.

Lemma failure_message_error (response : option Response) :
  String.prefix "Error: " (failure_message response) = true.
Proof.
  unfold failure_message.
  destruct response as [r|]; [|reflexivity].
  destruct (resp_candidates r) as [[|[reason|] others]|]; reflexivity.
Qed.

Lemma get_personalized_feedback_configured (env : Env)
      (analysis_data : FeedbackData) (key prompt : string) (w : World) :
  GEMINI_API_KEY env = Some key ->
  key <> EmptyString ->
  key <> "YOUR_GEMINI_API_KEY_GOES_HERE" ->
  genai_configure env key = Returns tt ->
  prompt_template analysis_data = Ok prompt ->
  get_personalized_feedback env analysis_data w
  = retry_loop env prompt 3 [0; 1; 2] 1 None
      {| trace := (trace w ++ [EvConfigure key])%list;
         collection := collection w |}.
Proof.
  intros Hkey Hne Hph Hconf Hprompt.
  unfold get_personalized_feedback. rewrite Hkey. unfold not_configured.
  apply String.eqb_neq in Hne. apply String.eqb_neq in Hph.
  rewrite Hne, Hph. cbn [orb].
  unfold bind at 1, emit at 1. rewrite Hconf, Hprompt. reflexivity.
Qed.

(** C4.  With a configured credential, a client that configures and a
    prompt that is built, if every generation attempt fails, whatever the
    calls made before it, then [get_personalized_feedback] returns (it does
    not raise) after the calls: configure, attempt, sleep 1, attempt,
    sleep 2, attempt.  That is three attempts and a total delay of 1 + 2.
    The string returned starts with "Error: "; it is the "No response from
    model" message when no attempt produced a completion, and the
    "Reason: <name>" message when the last completion received names the
    finish reason of its first candidate. *)
Theorem all_attempts_fail_three_tries (env : Env) (analysis_data : FeedbackData)
        (key prompt : string) (w : World) :
  GEMINI_API_KEY env = Some key ->
  key <> EmptyString ->
  key <> "YOUR_GEMINI_API_KEY_GOES_HERE" ->
  genai_configure env key = Returns tt ->
  prompt_template analysis_data = Ok prompt ->
  (forall tr p, attempt_fails (generate_content env tr p)) ->
  let t0 := (trace w ++ [EvConfigure key])%list in
  let o1 := generate_content env t0 prompt in
  let t1 := (t0 ++ [EvGenerate prompt; EvSleep 1])%list in
  let o2 := generate_content env t1 prompt in
  let t2 := (t1 ++ [EvGenerate prompt; EvSleep 2])%list in
  let o3 := generate_content env t2 prompt in
  exists msg,
    get_personalized_feedback env analysis_data w
    = (Ok msg, {| trace := (t2 ++ [EvGenerate prompt])%list;
                  collection := collection w |})
    /\ String.prefix "Error: " msg = true
    /\ (last_received [o1; o2; o3] = None ->
        msg = "Error: Unable to generate AI feedback (No response from model).")
    /\ (forall r reason others,
           last_received [o1; o2; o3] = Some r ->
           resp_candidates r = Returns (Returns reason :: others) ->
           msg = "Error: AI feedback generation failed (Reason: " ++ reason ++ ").").
Proof.
  intros Hkey Hne Hph Hconf Hprompt Hfail t0 o1 t1 o2 t2 o3.
  exists (failure_message (last_received [o1; o2; o3])).
  split; [|split; [apply failure_message_error|split]].
  - rewrite (get_personalized_feedback_configured env analysis_data key prompt)
      by assumption.
    rewrite retry_loop_retry by (apply Hfail || reflexivity). simpl trace.
    rewrite retry_loop_retry by (apply Hfail || reflexivity). simpl trace.
    rewrite retry_loop_give_up by (apply Hfail || reflexivity).
    simpl trace. simpl collection. fold t0. fold o1. fold t1. fold o2.
    fold t2. fold o3.
    repeat f_equal.
    simpl. destruct o3, o2, o1; reflexivity.
  - intros ->. reflexivity.
  - intros r reason others -> Hc. simpl. now rewrite Hc.
Qed.

Lemma all_attempts_fail_three_tries_witness :
  exists msg,
    get_personalized_feedback blocked_env EmptyData empty_world
    = (Ok msg,
       {| trace := [EvConfigure "key-1"; EvGenerate default_prompt; EvSleep 1;
                    EvGenerate default_prompt; EvSleep 2;
                    EvGenerate default_prompt];
          collection := [] |})
    /\ String.prefix "Error: " msg = true
    /\ (last_received [Returns blocked_response; Returns blocked_response;
                       Returns blocked_response] = None ->
        msg = "Error: Unable to generate AI feedback (No response from model).")
    /\ (forall r reason others,
           last_received [Returns blocked_response; Returns blocked_response;
                          Returns blocked_response] = Some r ->
           resp_candidates r = Returns (Returns reason :: others) ->
           msg = "Error: AI feedback generation failed (Reason: " ++ reason ++ ").").
Proof.
  apply (all_attempts_fail_three_tries blocked_env EmptyData "key-1"
           default_prompt empty_world).
  - reflexivity.
  - discriminate.
  - discriminate.
  - reflexivity.
  - reflexivity.
  - intros tr p. reflexivity.
Defined.

(** ** Skill extraction: the loop invariant (C2, C5) *)

Lemma extract_category_entries (text_lower cat : string) (skills : list string)
      (st : extract_state) :
  fold_left (extract_step text_lower cat) skills st
  = fold_left (extract_entry text_lower)
      (map (fun skill => (cat, skill)) skills) st.
Proof.
  revert st. induction skills as [|k skills IH]; intros st; simpl.
  - reflexivity.
  - apply IH.
Qed.

Lemma extract_fold_entries (text_lower : string)
      (catalog : list (string * list string)) (st : extract_state) :
  fold_left (extract_category text_lower) catalog st
  = fold_left (extract_entry text_lower) (catalog_entries catalog) st.
Proof.
  revert st. induction catalog as [|[cat skills] catalog IH]; intros st; simpl.
  - reflexivity.
  - rewrite fold_left_app, IH. unfold extract_category at 1. simpl.
    now rewrite extract_category_entries.
Qed.

Lemma first_seen_snoc (seen : list (string * string)) (e : string * string)
      (s : Skill) :
  first_seen seen s -> first_seen (seen ++ [e]) s.
Proof.
  intros (pre & post & -> & Hpre).
  exists pre, (post ++ [e])%list. split; [|exact Hpre].
  now rewrite <- app_assoc.
Qed.

Lemma extract_inv_init (text_lower : string) :
  extract_inv text_lower [] ([], ∅).
Proof.
  split; simpl.
  - intros x. split; [set_solver | tauto].
  - constructor.
  - tauto.
  - tauto.
Qed.

Lemma extract_inv_step (text_lower : string) (seen : list (string * string))
      (st : extract_state) (e : string * string) :
  extract_inv text_lower seen st ->
  extract_inv text_lower (seen ++ [e]) (extract_entry text_lower st e).
Proof.
  intros [Hn Hd Hf Hm]. destruct st as [found names], e as [cat k].
  unfold extract_entry, extract_step. simpl in *.
  destruct (decide (lower k ∈ names)) as [Hin|Hnin].
  - split; simpl.
    + exact Hn.
    + exact Hd.
    + intros s Hs. destruct (Hf s Hs). split; [now apply first_seen_snoc|easy].
    + intros e' He' Hmatch. apply in_app_or in He' as [He'|[<-|[]]].
      * now apply Hm.
      * simpl. now apply Hn.
  - fold (keyword_matches text_lower k).
    destruct (keyword_matches text_lower k) eqn:Hk.
    + split; simpl.
      * intros x. rewrite map_app, in_app_iff. simpl.
        rewrite elem_of_union, elem_of_singleton, Hn.
        change (lname (mkSkill k cat)) with (lower k).
        intuition congruence.
      * rewrite map_app. simpl. apply List.NoDup_app.
        -- exact Hd.
        -- constructor; [tauto | constructor].
        -- intros x Hx [<-|[]]. apply Hnin, Hn, Hx.
      * intros s Hs. apply in_app_or in Hs as [Hs|[<-|[]]].
        -- destruct (Hf s Hs). split; [now apply first_seen_snoc|easy].
        -- split; [|exact Hk].
           exists seen, []. split; [reflexivity|].
           intros e' He' Heq. apply Hnin, Hn.
           unfold lname in Heq. simpl in Heq. rewrite <- Heq.
           apply Hm; [exact He'|].
           unfold keyword_matches in *. now rewrite Heq.
      * intros e' He' Hmatch. rewrite map_app, in_app_iff.
        apply in_app_or in He' as [He'|[<-|[]]].
        -- left. now apply Hm.
        -- right. now left.
    + split; simpl.
      * exact Hn.
      * exact Hd.
      * intros s Hs. destruct (Hf s Hs). split; [now apply first_seen_snoc|easy].
      * intros e' He' Hmatch. apply in_app_or in He' as [He'|[<-|[]]].
        -- now apply Hm.
        -- simpl in Hmatch. congruence.
Qed.

Lemma extract_inv_fold (text_lower : string) (entries seen : list (string * string))
      (st : extract_state) :
  extract_inv text_lower seen st ->
  extract_inv text_lower (seen ++ entries)
              (fold_left (extract_entry text_lower) entries st).
Proof.
  revert seen st. induction entries as [|e entries IH]; intros seen st Hinv; simpl.
  - now rewrite app_nil_r.
  - replace (seen ++ e :: entries)%list with ((seen ++ [e]) ++ entries)%list
      by now rewrite <- app_assoc.
    apply IH. now apply extract_inv_step.
Qed.

Lemma extract_skills_from_inv (catalog : list (string * list string))
      (text : string) :
  List.NoDup (map lname (extract_skills_from catalog text))
  /\ (forall s, In s (extract_skills_from catalog text) ->
                first_seen (catalog_entries catalog) s /\
                keyword_matches (lower text) (name s) = true)
  /\ (forall e, In e (catalog_entries catalog) ->
                keyword_matches (lower text) (snd e) = true ->
                In (lower (snd e)) (map lname (extract_skills_from catalog text))).
Proof.
  unfold extract_skills_from. rewrite extract_fold_entries.
  pose proof (extract_inv_fold (lower text) (catalog_entries catalog) []
                ([], ∅) (extract_inv_init _)) as Hinv.
  rewrite app_nil_l in Hinv.
  destruct Hinv as [_ Hd Hf Hm]. auto.
Qed.

(** C5.  For every catalog and every text, the findings of
    [extract_skills_from] carry pairwise distinct lowercased names, and each
    finding stands for the first entry of the catalog, in iteration order,
    with that lowercased name: its category is the first-seen one.  The
    same holds of [extract_skills], which reads [SKILL_CATEGORIES]. *)
Theorem one_finding_per_skill_name (catalog : list (string * list string))
        (text : string) :
  (List.NoDup (map lname (extract_skills_from catalog text)) /\
   forall s, In s (extract_skills_from catalog text) ->
             first_seen (catalog_entries catalog) s)
  /\
  (List.NoDup (map lname (extract_skills text)) /\
   forall s, In s (extract_skills text) ->
             first_seen (catalog_entries SKILL_CATEGORIES) s).
Proof.
  split.
  - destruct (extract_skills_from_inv catalog text) as (Hd & Hf & _).
    split; [exact Hd|]. intros s Hs. now destruct (Hf s Hs).
  - unfold extract_skills.
    generalize SKILL_CATEGORIES. intros skill_categories.
    destruct (extract_skills_from_inv skill_categories text) as (Hd & Hf & _).
    split; [exact Hd|]. intros s Hs. now destruct (Hf s Hs).
Qed.

(** A keyword listed under two categories is reported once, under the
    first. *)
Example first_category_wins :
  extract_skills_from
    [("Languages", ["Go"; "rust"]); ("Games", ["chess"; "go"])]
    "Go and chess"
  = [mkSkill "Go" "Languages"; mkSkill "chess" "Games"].
Proof. vm_compute. reflexivity. Qed.

(** ** Stable sorting *)

Section StableSortFacts.
Context {A : Type} (lt : A -> A -> bool).

Lemma insert_sorted_In (x b : A) (l : list A) :
  In b (insert_sorted lt x l) <-> b = x \/ In b l.
Proof.
  induction l as [|y l IH]; simpl.
  - intuition.
  - destruct (lt y x); simpl; rewrite ?IH; intuition.
Qed.

Lemma insert_sorted_perm (x : A) (l : list A) :
  Permutation (insert_sorted lt x l) (x :: l).
Proof.
  induction l as [|y l IH]; simpl.
  - reflexivity.
  - destruct (lt y x).
    + rewrite IH. apply perm_swap.
    + reflexivity.
Qed.

Lemma stable_sort_perm (l : list A) : Permutation (stable_sort lt l) l.
Proof.
  induction l as [|x l IH]; simpl.
  - reflexivity.
  - rewrite insert_sorted_perm. now constructor.
Qed.

Lemma stable_sort_In (l : list A) (a : A) : In a (stable_sort lt l) <-> In a l.
Proof.
  split; apply Permutation_in; [|symmetry]; apply stable_sort_perm.
Qed.

Lemma precedes_cons (l : list A) (x a b : A) :
  precedes l a b -> precedes (x :: l) a b.
Proof. intros (l1 & l2 & l3 & ->). now exists (x :: l1), l2, l3. Qed.

Lemma precedes_head (l : list A) (a b : A) : In b l -> precedes (a :: l) a b.
Proof.
  intros Hb. apply in_split in Hb as (l2 & l3 & ->). now exists [], l2, l3.
Qed.

Lemma precedes_inv (l : list A) (x a b : A) :
  precedes (x :: l) a b -> (a = x /\ In b l) \/ precedes l a b.
Proof.
  intros (l1 & l2 & l3 & E). destruct l1 as [|y l1]; simpl in E.
  - injection E as -> ->. left. split; [reflexivity|].
    apply in_or_app. right. now left.
  - injection E as -> ->. right. now exists l1, l2, l3.
Qed.

Lemma precedes_In (l : list A) (a b : A) : precedes l a b -> In a l /\ In b l.
Proof.
  intros (l1 & l2 & l3 & ->). split.
  - apply in_or_app. right. now left.
  - apply in_or_app. right. right. apply in_or_app. right. now left.
Qed.

(** Whoever ends up before the inserted element was made to pass it. *)
Lemma insert_sorted_precedes (x a b : A) (l : list A) :
  precedes (insert_sorted lt x l) a b ->
  (a = x /\ In b l) \/ (b = x /\ lt a x = true) \/ precedes l a b.
Proof.
  induction l as [|y l IH]; simpl.
  - intros (l1 & l2 & l3 & E). exfalso.
    destruct l1 as [|? [|? ?]]; simpl in E; try discriminate.
    injection E as _ E. destruct l2; discriminate.
  - destruct (lt y x) eqn:Hyx; intros Hp.
    + apply precedes_inv in Hp as [[-> Hb]|Hp].
      * apply insert_sorted_In in Hb as [->|Hb].
        -- right. left. now split.
        -- right. right. now apply precedes_head.
      * apply IH in Hp as [[-> Hb]|[[-> Hlt]|Hp]].
        -- left. split; [reflexivity | now right].
        -- right. left. now split.
        -- right. right. now apply precedes_cons.
    + apply precedes_inv in Hp as [[-> Hb]|Hp].
      * left. now split.
      * right. right. exact Hp.
Qed.

(** Stability: two elements change their relative order only when the
    comparison asks for it. *)
Lemma stable_sort_precedes (l : list A) (a b : A) :
  precedes (stable_sort lt l) a b -> precedes l a b \/ lt a b = true.
Proof.
  induction l as [|x l IH]; simpl.
  - intros (l1 & l2 & l3 & E). destruct l1; discriminate.
  - intros Hp. apply insert_sorted_precedes in Hp as [[-> Hb]|[[-> Hlt]|Hp]].
    + left. apply precedes_head. now apply (proj1 (stable_sort_In _ _)).
    + now right.
    + apply IH in Hp as [Hp|Hlt]; [left; now apply precedes_cons | now right].
Qed.

(** Sortedness, when the comparison is the strict order of an integer key
    (larger key first) on the elements at hand. *)
Context (key : A -> Z).

Lemma insert_sorted_sorted (x : A) (l : list A) :
  key_order lt key (x :: l) ->
  StronglySorted (fun a b => (key b <= key a)%Z) l ->
  StronglySorted (fun a b => (key b <= key a)%Z) (insert_sorted lt x l).
Proof.
  intros Hk Hs. induction Hs as [|y l Hs IH Hy]; simpl.
  - repeat constructor.
  - rewrite (Hk y x) by (simpl; auto).
    destruct (Z.ltb_spec (key x) (key y)) as [Hlt|Hge].
    + constructor.
      * apply IH. intros a b Ha Hb. apply Hk; simpl in *; intuition.
      * apply List.Forall_forall. intros b Hb.
        apply insert_sorted_In in Hb as [->|Hb]; [lia|].
        rewrite List.Forall_forall in Hy. now apply Hy.
    + constructor.
      * now constructor.
      * constructor; [exact Hge|].
        rewrite List.Forall_forall in Hy |- *. intros b Hb.
        specialize (Hy b Hb). lia.
Qed.

Lemma stable_sort_sorted (l : list A) :
  key_order lt key l ->
  StronglySorted (fun a b => (key b <= key a)%Z) (stable_sort lt l).
Proof.
  induction l as [|x l IH]; intros Hk; simpl.
  - constructor.
  - apply insert_sorted_sorted.
    + intros a b Ha Hb. apply Hk; simpl in *.
      * destruct Ha as [->|Ha]; [now left | right].
        now apply (proj1 (stable_sort_In _ _)).
      * destruct Hb as [->|Hb]; [now left | right].
        now apply (proj1 (stable_sort_In _ _)).
    + apply IH. intros a b Ha Hb. apply Hk; now right.
Qed.

End StableSortFacts.

Lemma in_in_precedes {A : Type} (l : list A) (a b : A) :
  In a l -> In b l -> a = b \/ precedes l a b \/ precedes l b a.
Proof.
  induction l as [|x l IH]; simpl; [tauto|].
  intros [->|Ha] [->|Hb].
  - now left.
  - right. left. now apply precedes_head.
  - right. right. now apply precedes_head.
  - destruct (IH Ha Hb) as [->|[Hp|Hp]]; [now left | |];
      [right; left | right; right]; now apply precedes_cons.
Qed.

Lemma precedes_map {A B : Type} (f : A -> B) (l : list A) (a b : A) :
  precedes l a b -> precedes (map f l) (f a) (f b).
Proof.
  intros (l1 & l2 & l3 & ->). exists (map f l1), (map f l2), (map f l3).
  now rewrite !map_app, !map_cons, !map_app, !map_cons.
Qed.

Lemma precedes_map_inv {A B : Type} (f : A -> B) (l : list A) (x y : B) :
  precedes (map f l) x y ->
  exists a b, precedes l a b /\ f a = x /\ f b = y.
Proof.
  intros (l1 & l2 & l3 & E).
  apply map_eq_app in E as (m1 & m2 & -> & <- & E).
  apply map_eq_cons in E as (a & m3 & -> & <- & E).
  apply map_eq_app in E as (m4 & m5 & -> & <- & E).
  apply map_eq_cons in E as (b & m6 & -> & <- & <-).
  exists a, b. split; [|now split]. now exists m1, m4, m6.
Qed.

Lemma NoDup_map_same {A B : Type} (f : A -> B) (l : list A) (a b : A) :
  List.NoDup (map f l) -> In a l -> In b l -> f a = f b -> a = b.
Proof.
  induction l as [|x l IH]; simpl; [tauto|].
  intros Hd Ha Hb Hf. inversion Hd as [|? ? Hnin Hd']; subst.
  destruct Ha as [->|Ha], Hb as [->|Hb].
  - reflexivity.
  - exfalso. apply Hnin. rewrite Hf. now apply in_map.
  - exfalso. apply Hnin. rewrite <- Hf. now apply in_map.
  - now apply IH.
Qed.

(** ** Role scoring: the scores a role can get *)

Lemma size_list_to_set_le (l : list string) :
  size (list_to_set l : gset string) <= length l.
Proof.
  induction l as [|x l IH].
  - change (size (∅ : gset string) <= 0). now rewrite size_empty.
  - change (size ({[x]} ∪ list_to_set l : gset string) <= S (length l)).
    rewrite size_union_alt, size_singleton.
    assert (Hsub : list_to_set l ∖ {[x]} ⊆ (list_to_set l : gset string)).
    { intros y Hy. now apply elem_of_difference in Hy as [Hy _]. }
    apply subseteq_size in Hsub. lia.
Qed.

Lemma size_found_le (found : gset string) (l : list string) :
  size (found ∩ list_to_set l) <= length l.
Proof.
  assert (Hsub : found ∩ list_to_set l ⊆ (list_to_set l : gset string)).
  { intros y Hy. now apply elem_of_intersection in Hy as [_ Hy]. }
  apply subseteq_size in Hsub.
  pose proof (size_list_to_set_le l). lia.
Qed.

Lemma count_pairs_In (n m a b : nat) :
  a <= n -> b <= m -> In (a, b) (count_pairs n m).
Proof.
  intros Ha Hb. unfold count_pairs. apply in_prod; apply in_seq; lia.
Qed.

Lemma role_final_score_possible (found : gset string)
      (requirements : RoleRequirements) :
  In (role_final_score found requirements) (possible_scores requirements).
Proof.
  unfold possible_scores, role_final_score.
  apply in_map_iff.
  exists (size (found ∩ list_to_set (required_skills requirements)),
          size (found ∩ list_to_set (good_to_have requirements))).
  split; [reflexivity|].
  apply count_pairs_In; apply size_found_le.
Qed.

Lemma role_final_score_all (catalog : list (string * RoleRequirements))
      (found : gset string) (entry : string * RoleRequirements) :
  In entry catalog ->
  In (role_final_score found (snd entry)) (all_scores catalog).
Proof.
  intros He. unfold all_scores. apply in_flat_map.
  exists entry. split; [exact He | apply role_final_score_possible].
Qed.

Lemma order_check_spec (V : list float) :
  order_check V = true ->
  forall x, In x V ->
    PrimFloat.leb 0 (round2 x) = true /\
    PrimFloat.leb (round2 x) 100 = true /\
    forall y, In y V ->
      PrimFloat.ltb y x = (fkey y <? fkey x)%Z /\
      ((fkey y <= fkey x)%Z -> PrimFloat.leb (round2 y) (round2 x) = true).
Proof.
  unfold order_check. intros Hc x Hx.
  rewrite forallb_forall in Hc.
  specialize (Hc (keyed x) (in_map keyed V x Hx)). unfold keyed at 1 in Hc.
  apply andb_true_iff in Hc as [Hr Hc]. apply andb_true_iff in Hr as [H0 H100].
  split; [exact H0 | split; [exact H100 |]].
  intros y Hy. rewrite forallb_forall in Hc.
  specialize (Hc (keyed y) (in_map keyed V y Hy)). unfold keyed in Hc.
  apply andb_true_iff in Hc as [He Hm]. split.
  - now apply Bool.eqb_prop in He.
  - intros Hle. apply Z.leb_le in Hle. now rewrite Hle in Hm.
Qed.

Lemma tie_pair_check_spec (earlier later : RoleRequirements) :
  tie_pair_check earlier later = true ->
  forall x y, In x (possible_scores earlier) -> In y (possible_scores later) ->
    PrimFloat.eqb (round2 y) (round2 x) = true -> PrimFloat.ltb x y = false.
Proof.
  unfold tie_pair_check. intros Hc x y Hx Hy He.
  rewrite forallb_forall in Hc.
  specialize (Hc (keyed x) (in_map keyed _ x Hx)). unfold keyed at 1 in Hc.
  rewrite forallb_forall in Hc.
  specialize (Hc (keyed y) (in_map keyed _ y Hy)). unfold keyed in Hc.
  rewrite He in Hc. now apply negb_true_iff in Hc.
Qed.

Lemma ties_check_spec (catalog : list (string * RoleRequirements)) :
  ties_check catalog = true ->
  forall earlier later, precedes catalog earlier later ->
    tie_pair_check (snd earlier) (snd later) = true.
Proof.
  induction catalog as [|entry catalog IH]; simpl; intros Hc earlier later Hp.
  - destruct Hp as (l1 & l2 & l3 & E). destruct l1; discriminate.
  - apply andb_true_iff in Hc as [Hhere Hlater].
    apply precedes_inv in Hp as [[-> Hin]|Hp].
    + rewrite forallb_forall in Hhere. now apply Hhere.
    + now apply IH.
Qed.

Lemma StronglySorted_map_in {A B : Type} (R : A -> A -> Prop)
      (R' : B -> B -> Prop) (f : A -> B) (l : list A) :
  (forall a b, In a l -> In b l -> R a b -> R' (f a) (f b)) ->
  StronglySorted R l -> StronglySorted R' (map f l).
Proof.
  intros Hf Hs. induction Hs as [|x l Hs IH Hx]; simpl.
  - constructor.
  - constructor.
    + apply IH. intros a b Ha Hb. apply Hf; now right.
    + apply List.Forall_forall. intros y Hy.
      apply in_map_iff in Hy as (b & <- & Hb).
      rewrite List.Forall_forall in Hx.
      apply Hf; [now left | now right | now apply Hx].
Qed.

(** ** Role scoring over a catalog whose score table passes the checks *)

Section RoleScoring.
Context (catalog : list (string * RoleRequirements)) (skills : list Skill).

Let found : gset string := skill_names_found skills.

Let scored (entry : string * RoleRequirements) : string * float :=
  (fst entry, role_final_score found (snd entry)).

Let rounded (item : string * float) : RoleMatch :=
  mkRoleMatch (fst item) (round2 (snd item)).

Let sorted_roles : list (string * float) :=
  sort_by_score_desc (map scored catalog).

Lemma suggest_role_matches_from_unfold :
  suggest_role_matches_from catalog skills = map rounded sorted_roles.
Proof. reflexivity. Qed.

Lemma sorted_roles_In (item : string * float) :
  In item sorted_roles <-> exists entry, In entry catalog /\ scored entry = item.
Proof.
  unfold sorted_roles, sort_by_score_desc. rewrite stable_sort_In, in_map_iff.
  split; intros (e & H1 & H2); exists e; tauto.
Qed.

Lemma sorted_roles_score (item : string * float) :
  In item sorted_roles -> In (snd item) (all_scores catalog).
Proof.
  intros Hi. apply sorted_roles_In in Hi as (e & He & <-).
  now apply role_final_score_all.
Qed.

Lemma suggest_roles_perm :
  Permutation (map role (suggest_role_matches_from catalog skills))
              (map fst catalog).
Proof.
  rewrite suggest_role_matches_from_unfold, map_map. simpl.
  replace (map fst catalog) with (map fst (map scored catalog))
    by (rewrite map_map; reflexivity).
  apply Permutation_map. apply stable_sort_perm.
Qed.

Lemma suggest_roles_member (m : RoleMatch) :
  In m (suggest_role_matches_from catalog skills) ->
  exists entry,
    In entry catalog /\ role m = fst entry /\
    score m = round2 (role_final_score found (snd entry)).
Proof.
  rewrite suggest_role_matches_from_unfold. intros Hm.
  apply in_map_iff in Hm as (item & <- & Hi).
  apply sorted_roles_In in Hi as (e & He & <-).
  exists e. now repeat split.
Qed.

Lemma suggest_roles_has (entry : string * RoleRequirements) :
  In entry catalog ->
  In (mkRoleMatch (fst entry) (round2 (role_final_score found (snd entry))))
     (suggest_role_matches_from catalog skills).
Proof.
  intros He. rewrite suggest_role_matches_from_unfold.
  apply in_map_iff. exists (scored entry). split; [reflexivity|].
  apply sorted_roles_In. now exists entry.
Qed.

Context (Horder : order_check (all_scores catalog) = true).

Lemma suggest_roles_range (m : RoleMatch) :
  In m (suggest_role_matches_from catalog skills) ->
  PrimFloat.leb 0 (score m) = true /\ PrimFloat.leb (score m) 100 = true.
Proof.
  intros Hm. apply suggest_roles_member in Hm as (e & He & _ & ->).
  pose proof (order_check_spec _ Horder _ (role_final_score_all _ found _ He))
    as (H0 & H100 & _).
  now split.
Qed.

Lemma suggest_roles_sorted :
  StronglySorted (fun a b => PrimFloat.leb (score b) (score a) = true)
                 (suggest_role_matches_from catalog skills).
Proof.
  rewrite suggest_role_matches_from_unfold.
  apply StronglySorted_map_in
    with (R := fun a b => (fkey (snd b) <= fkey (snd a))%Z).
  - intros a b Ha Hb Hle. simpl.
    pose proof (order_check_spec _ Horder _ (sorted_roles_score _ Ha))
      as (_ & _ & Hy).
    now apply (Hy (snd b) (sorted_roles_score _ Hb)).
  - apply (stable_sort_sorted _ (fun item => fkey (snd item))).
    intros a b Ha Hb.
    apply in_map_iff in Ha as (ea & <- & Hea).
    apply in_map_iff in Hb as (eb & <- & Heb).
    simpl.
    pose proof (order_check_spec _ Horder _ (role_final_score_all _ found _ Hea))
      as (_ & _ & Hy).
    now apply (Hy _ (role_final_score_all _ found _ Heb)).
Qed.

Context (Hties : ties_check catalog = true).

Lemma suggest_roles_ties (a b : RoleMatch) :
  precedes (suggest_role_matches_from catalog skills) a b ->
  PrimFloat.eqb (score a) (score b) = true ->
  precedes (map fst catalog) (role a) (role b).
Proof.
  rewrite suggest_role_matches_from_unfold. intros Hp Heq.
  apply precedes_map_inv in Hp as (ia & ib & Hp & <- & <-).
  simpl in Heq.
  assert (Hia : In ia sorted_roles) by now apply precedes_In in Hp.
  assert (Hib : In ib sorted_roles) by now apply precedes_In in Hp.
  apply stable_sort_precedes in Hp as [Hp|Hlt].
  - apply precedes_map_inv in Hp as (ea & eb & Hp & <- & <-).
    simpl. now apply precedes_map.
  - apply sorted_roles_In in Hia as (ea & Hea & <-).
    apply sorted_roles_In in Hib as (eb & Heb & <-).
    simpl in *.
    destruct (in_in_precedes catalog ea eb Hea Heb) as [->|[Hp|Hp]].
    + exfalso.
      pose proof (order_check_spec _ Horder _
                    (role_final_score_all _ found _ Heb)) as (_ & _ & Hy).
      destruct (Hy _ (role_final_score_all _ found _ Heb)) as [Hk _].
      rewrite Hk, Z.ltb_irrefl in Hlt. discriminate.
    + now apply precedes_map.
    + exfalso.
      pose proof (tie_pair_check_spec _ _ (ties_check_spec _ Hties _ _ Hp)
                    _ _ (role_final_score_possible found (snd eb))
                    (role_final_score_possible found (snd ea)) Heq) as Hno.
      rewrite Hno in Hlt. discriminate.
Qed.

End RoleScoring.

(** ** The role catalog of the program *)

Lemma JOB_ROLES_regular : Forall (fun entry => role_regular (snd entry)) JOB_ROLES.
Proof.
  unfold JOB_ROLES.
  repeat (apply List.Forall_cons;
          [unfold role_regular; cbn [snd required_skills good_to_have];
           split; vm_compute; reflexivity |]).
  apply List.Forall_nil.
Qed.

Lemma JOB_ROLES_order_check : order_check (all_scores JOB_ROLES) = true.
Proof. vm_compute. reflexivity. Qed.

Lemma JOB_ROLES_ties_check : ties_check JOB_ROLES = true.
Proof. vm_compute. reflexivity. Qed.

Lemma JOB_ROLES_distinct : List.NoDup (map fst JOB_ROLES).
Proof.
  apply NoDup_ListNoDup. apply (bool_decide_unpack _). vm_compute. reflexivity.
Qed.

Lemma JOB_ROLES_exact : Forall (fun entry => role_exact (snd entry)) JOB_ROLES.
Proof.
  unfold JOB_ROLES.
  repeat (apply List.Forall_cons;
          [unfold role_exact; cbn [snd required_skills good_to_have length];
           cbv [count_pairs seq list_prod map app];
           repeat (apply List.Forall_cons; [vm_compute; reflexivity|]);
           apply List.Forall_nil |]).
  apply List.Forall_nil.
Qed.

(** [round_half_even num den] is an integer nearest to [num / den], and
    the even one of the two when [num / den] lies half-way. *)
Lemma round_half_even_near (num den : Z) :
  (0 < den)%Z ->
  let k := round_half_even num den in
  (2 * k * den - den <= 2 * num)%Z /\ (2 * num <= 2 * k * den + den)%Z /\
  ((2 * num = 2 * k * den - den)%Z \/ (2 * num = 2 * k * den + den)%Z ->
   Z.even k = true).
Proof.
  intros Hden k. subst k. unfold round_half_even.
  pose proof (Z.div_mod num den ltac:(lia)) as Hdm.
  pose proof (Z.mod_pos_bound num den Hden) as Hr.
  set (q := (num / den)%Z) in *. set (r := (num mod den)%Z) in *.
  destruct (Z.compare_spec (2 * r) den) as [He|Hl|Hg].
  - destruct (Z.even q) eqn:Hq.
    + split; [nia|]. split; [nia|]. intros _. exact Hq.
    + split; [nia|]. split; [nia|]. intros _.
      rewrite Z.add_1_r, Z.even_succ, <- Z.negb_even, Hq. reflexivity.
  - split; [nia|]. split; [nia|]. intros [E|E]; exfalso; nia.
  - split; [nia|]. split; [nia|]. intros [E|E]; exfalso; nia.
Qed.

Lemma hundredths_rounds (q : Q) : rounds_to_hundredths q (hundredths q).
Proof.
  unfold rounds_to_hundredths, hundredths. cbv zeta.
  destruct (Qmult q (Qmake 100 1)) as [n d]. cbn [Qnum Qden].
  pose proof (round_half_even_near n (Z.pos d) ltac:(lia)) as (H1 & H2 & H3).
  cbv zeta in *. set (k := round_half_even n (Z.pos d)) in *.
  unfold Qle, Qeq, Qminus, Qplus, Qopp, inject_Z. cbn [Qnum Qden].
  repeat split.
  - nia.
  - nia.
  - intros [E|E]; apply H3; [left|right]; nia.
Qed.

Lemma elem_of_skill_names_found (skills : list Skill) (k : string) :
  k ∈ skill_names_found skills <-> In k (map (fun s => lower (name s)) skills).
Proof.
  unfold skill_names_found. now rewrite elem_of_list_to_set, list_elem_of_In.
Qed.

(** The rounded score of a role of the catalog, in exact arithmetic. *)
Lemma role_exact_rounds (found : gset string) (requirements : RoleRequirements) :
  role_regular requirements -> role_exact requirements ->
  let R : gset string := list_to_set (required_skills requirements) in
  let G : gset string := list_to_set (good_to_have requirements) in
  round2 (role_final_score found requirements)
  = float_of_hundredths
      (hundredths (exact_score (size (found ∩ R)) (size R)
                               (size (found ∩ G)) (size G))).
Proof.
  intros (HR & HG) Hexact. cbv zeta. rewrite HR, HG.
  unfold role_exact in Hexact. rewrite List.Forall_forall in Hexact.
  unfold role_final_score.
  specialize (Hexact (size (found ∩ list_to_set (required_skills requirements)),
                      size (found ∩ list_to_set (good_to_have requirements)))).
  cbn [fst snd] in Hexact. apply Hexact.
  apply count_pairs_In; apply size_found_le.
Qed.

(** C1.  For every list of found skills with names of ASCII characters,
    [F] being the set of the lowercased names [s.name.lower()]: the roles
    of the result are those of the catalog, each once; the score of each
    role is the double nearest to [k / 100], where [k] hundredths is the
    value of [(7/10 * |F∩R|/|R| + 3/10 * |F∩G|/|G|) * 100], computed in the
    rationals on the role's two sets, rounded to two decimals; every score
    lies in [0, 100]; the scores are in descending order; and of two
    results with equal scores the one the catalog lists first comes
    first. *)
Theorem suggest_role_matches_contract (skills : list Skill) :
  Forall (fun s => ascii_only (name s) = true) skills ->
  let F : gset string := list_to_set (map (fun s => lower (name s)) skills) in
  let out := suggest_role_matches skills in
  Permutation (map role out) (map fst JOB_ROLES)
  /\ List.NoDup (map role out)
  /\ (forall m, In m out ->
        exists requirements k,
          In (role m, requirements) JOB_ROLES /\
          let R : gset string := list_to_set (required_skills requirements) in
          let G : gset string := list_to_set (good_to_have requirements) in
          rounds_to_hundredths
            (exact_score (size (F ∩ R)) (size R) (size (F ∩ G)) (size G)) k /\
          score m = float_of_hundredths k)
  /\ (forall m, In m out ->
        PrimFloat.leb 0 (score m) = true /\ PrimFloat.leb (score m) 100 = true)
  /\ StronglySorted (fun a b => PrimFloat.leb (score b) (score a) = true) out
  /\ (forall a b, precedes out a b ->
        PrimFloat.eqb (score a) (score b) = true ->
        precedes (map fst JOB_ROLES) (role a) (role b)).
Proof.
  intros _ F out. unfold out, suggest_role_matches.
  change F with (skill_names_found skills). clear F out.
  pose proof JOB_ROLES_regular as Hreg.
  pose proof JOB_ROLES_exact as Hexact.
  pose proof JOB_ROLES_order_check as Horder.
  pose proof JOB_ROLES_ties_check as Hties.
  pose proof JOB_ROLES_distinct as Hdistinct.
  revert Hreg Hexact Horder Hties Hdistinct.
  generalize JOB_ROLES. intros catalog Hreg Hexact Horder Hties Hdistinct.
  split; [|split; [|split; [|split; [|split]]]].
  - apply suggest_roles_perm.
  - eapply Permutation_NoDup; [|exact Hdistinct].
    symmetry. apply suggest_roles_perm.
  - intros m Hm.
    apply suggest_roles_member in Hm as ([r requirements] & He & Hr & Hs).
    cbn [fst snd] in Hr, Hs. rewrite List.Forall_forall in Hreg, Hexact.
    exists requirements. eexists. split; [now rewrite Hr|]. cbv zeta. split.
    + apply hundredths_rounds.
    + rewrite Hs. apply (role_exact_rounds _ _ (Hreg _ He) (Hexact _ He)).
  - intros m Hm.
    now apply suggest_roles_range with (catalog := catalog) (skills := skills).
  - now apply suggest_roles_sorted.
  - intros a b. now apply suggest_roles_ties.
Qed.

Lemma suggest_role_matches_contract_witness :
  Permutation
    (map role (suggest_role_matches [mkSkill "Python" "Programming Languages";
                                     mkSkill "Docker" "DevOps & Cloud"]))
    (map fst JOB_ROLES).
Proof.
  refine (proj1 (suggest_role_matches_contract
                   [mkSkill "Python" "Programming Languages";
                    mkSkill "Docker" "DevOps & Cloud"] _)).
  repeat constructor.
Defined.

(** X4.  The scores, computed.  For skills with names of ASCII characters,
    each score returned by [suggest_role_matches] is the double nearest to
    [hundredths q / 100], where [q] is the value of the formula
    [(7/10 * |F∩R|/|R| + 3/10 * |F∩G|/|G|) * 100] in the rationals, [F]
    being the set of the lowercased names: on the catalog of the program
    the floating-point evaluation loses nothing. *)
Theorem suggest_role_matches_exact (skills : list Skill) :
  Forall (fun s => ascii_only (name s) = true) skills ->
  Forall
    (fun m =>
       exists requirements,
         In (role m, requirements) JOB_ROLES /\
         let F : gset string :=
           list_to_set (map (fun s => lower (name s)) skills) in
         let R : gset string := list_to_set (required_skills requirements) in
         let G : gset string := list_to_set (good_to_have requirements) in
         score m = float_of_hundredths
                     (hundredths (exact_score (size (F ∩ R)) (size R)
                                              (size (F ∩ G)) (size G))))
    (suggest_role_matches skills).
Proof.
  intros _. apply List.Forall_forall. unfold suggest_role_matches.
  pose proof JOB_ROLES_regular as Hreg.
  pose proof JOB_ROLES_exact as Hexact.
  revert Hreg Hexact. generalize JOB_ROLES. intros catalog Hreg Hexact m Hm.
  apply suggest_roles_member in Hm as ([r requirements] & He & Hr & Hs).
  cbn [fst snd] in Hr, Hs. exists requirements. split; [now rewrite Hr|].
  rewrite List.Forall_forall in Hreg, Hexact.
  cbv zeta. rewrite Hs.
  apply (role_exact_rounds (skill_names_found skills) _
           (Hreg _ He) (Hexact _ He)).
Qed.

Lemma suggest_role_matches_exact_witness :
  Forall
    (fun m =>
       exists requirements,
         In (role m, requirements) JOB_ROLES /\
         let F : gset string :=
           list_to_set (map (fun s => lower (name s))
                            [mkSkill "Python" "Programming Languages"]) in
         let R : gset string := list_to_set (required_skills requirements) in
         let G : gset string := list_to_set (good_to_have requirements) in
         score m = float_of_hundredths
                     (hundredths (exact_score (size (F ∩ R)) (size R)
                                              (size (F ∩ G)) (size G))))
    (suggest_role_matches [mkSkill "Python" "Programming Languages"]).
Proof.
  apply (suggest_role_matches_exact [mkSkill "Python" "Programming Languages"]).
  repeat constructor.
Defined.

Lemma monotone_check_spec (requirements : RoleRequirements) (a a' b b' : nat) :
  monotone_check requirements = true ->
  a <= a' <= length (required_skills requirements) ->
  b <= b' <= length (good_to_have requirements) ->
  PrimFloat.leb
    (round2 (weighted (ratio a (length (required_skills requirements)))
                      (ratio b (length (good_to_have requirements)))))
    (round2 (weighted (ratio a' (length (required_skills requirements)))
                      (ratio b' (length (good_to_have requirements)))))
  = true.
Proof.
  unfold monotone_check. intros Hc Ha Hb.
  set (n := length (required_skills requirements)) in *.
  set (m := length (good_to_have requirements)) in *.
  set (f := fun c : nat * nat =>
              (c, round2 (weighted (ratio (fst c) n) (ratio (snd c) m)))) in *.
  assert (Hin : In (a, b) (count_pairs n m)) by (apply count_pairs_In; lia).
  assert (Hin' : In (a', b') (count_pairs n m)) by (apply count_pairs_In; lia).
  rewrite forallb_forall in Hc.
  specialize (Hc (f (a, b)) (in_map f _ _ Hin)).
  rewrite forallb_forall in Hc.
  specialize (Hc (f (a', b')) (in_map f _ _ Hin')).
  unfold f in Hc. cbn [fst snd] in Hc.
  destruct Ha as [Ha _], Hb as [Hb _].
  apply Nat.leb_le in Ha, Hb. now rewrite Ha, Hb in Hc.
Qed.

Lemma JOB_ROLES_monotone :
  forallb (fun entry => monotone_check (snd entry)) JOB_ROLES = true.
Proof. vm_compute. reflexivity. Qed.

Lemma skill_names_found_incl (skills skills' : list Skill) :
  incl skills skills' -> skill_names_found skills ⊆ skill_names_found skills'.
Proof.
  intros Hi x. unfold skill_names_found. rewrite !elem_of_list_to_set.
  rewrite !list_elem_of_In, !in_map_iff.
  intros (s & <- & Hs). exists s. split; [reflexivity | now apply Hi].
Qed.

Lemma size_found_mono (F F' : gset string) (l : list string) :
  F ⊆ F' -> size (F ∩ list_to_set l) <= size (F' ∩ list_to_set l).
Proof.
  intros HF. apply subseteq_size. intros x Hx.
  apply elem_of_intersection in Hx as [H1 H2].
  apply elem_of_intersection. split; [now apply HF | exact H2].
Qed.

(** X5.  Monotonicity.  When every skill of [skills] is also in [skills'], no
    role gets a smaller score from [skills'] than from [skills]; in
    particular a score does not decrease when one more required skill is
    matched, all else equal. *)
Theorem more_skills_never_lower_a_score (skills skills' : list Skill) :
  incl skills skills' ->
  Forall
    (fun m =>
       Forall (fun m' => role m = role m' ->
                         PrimFloat.leb (score m) (score m') = true)
              (suggest_role_matches skills'))
    (suggest_role_matches skills).
Proof.
  intros Hincl. unfold suggest_role_matches.
  pose proof JOB_ROLES_monotone as Hmono.
  pose proof JOB_ROLES_distinct as Hd.
  revert Hmono Hd. generalize JOB_ROLES. intros catalog Hmono Hd.
  apply List.Forall_forall. intros m Hm.
  apply List.Forall_forall. intros m' Hm' Hrole.
  apply suggest_roles_member in Hm as (e & He & Hr & ->).
  apply suggest_roles_member in Hm' as (e' & He' & Hr' & ->).
  assert (E : e = e').
  { apply (NoDup_map_same fst catalog); [exact Hd | exact He | exact He' |].
    congruence. }
  subst e'. rewrite forallb_forall in Hmono. specialize (Hmono _ He).
  unfold role_final_score.
  pose proof (skill_names_found_incl _ _ Hincl) as HF.
  apply monotone_check_spec; [exact Hmono | |]; split.
  - now apply size_found_mono.
  - apply size_found_le.
  - now apply size_found_mono.
  - apply size_found_le.
Qed.

Lemma more_skills_never_lower_a_score_witness :
  Forall
    (fun m =>
       Forall (fun m' => role m = role m' ->
                         PrimFloat.leb (score m) (score m') = true)
              (suggest_role_matches
                 [mkSkill "python" "Programming Languages";
                  mkSkill "sql" "Programming Languages"]))
    (suggest_role_matches [mkSkill "python" "Programming Languages"]).
Proof.
  apply (more_skills_never_lower_a_score
           [mkSkill "python" "Programming Languages"]
           [mkSkill "python" "Programming Languages";
            mkSkill "sql" "Programming Languages"]).
  intros s [<-|[]]. now left.
Defined.

(** ** Sorting by a strict total order *)

Section TotalOrderSort.
Context {A : Type} (lt : A -> A -> bool).
Context (lt_irrefl : forall a, lt a a = false).
Context (lt_trans : forall a b c, lt a b = true -> lt b c = true -> lt a c = true).
Context (lt_total : forall a b, lt a b = false -> lt b a = true \/ a = b).

Lemma lt_asym (a b : A) : lt a b = true -> lt b a = false.
Proof.
  intros Hab. destruct (lt b a) eqn:Hba; [|reflexivity].
  now rewrite <- (lt_irrefl a), (lt_trans a b a Hab Hba).
Qed.

Lemma not_lt_trans (a b c : A) :
  lt b a = false -> lt c b = false -> lt c a = false.
Proof.
  intros Hba Hcb. destruct (lt c a) eqn:Hca; [|reflexivity].
  destruct (lt_total _ _ Hba) as [Hab| ->]; [|congruence].
  now rewrite (lt_trans c a b Hca Hab) in Hcb.
Qed.

Lemma insert_sorted_ordered (x : A) (l : list A) :
  StronglySorted (fun a b => lt b a = false) l ->
  StronglySorted (fun a b => lt b a = false) (insert_sorted lt x l).
Proof.
  intros Hs. induction Hs as [|y l Hs IH Hy]; simpl.
  - repeat constructor.
  - destruct (lt y x) eqn:Hyx.
    + constructor; [exact IH|].
      apply List.Forall_forall. intros b Hb.
      apply insert_sorted_In in Hb as [->|Hb]; [now apply lt_asym|].
      rewrite List.Forall_forall in Hy. now apply Hy.
    + constructor; [now constructor|].
      constructor; [exact Hyx|].
      rewrite List.Forall_forall in Hy |- *. intros b Hb.
      apply not_lt_trans with (b := y); [exact Hyx | now apply Hy].
Qed.

Lemma stable_sort_ordered (l : list A) :
  StronglySorted (fun a b => lt b a = false) (stable_sort lt l).
Proof.
  induction l as [|x l IH]; simpl.
  - constructor.
  - now apply insert_sorted_ordered.
Qed.

Lemma ordered_strict (l : list A) :
  List.NoDup l ->
  StronglySorted (fun a b => lt b a = false) l ->
  StronglySorted (fun a b => lt a b = true) l.
Proof.
  intros Hd Hs. induction Hs as [|x l Hs IH Hx].
  - constructor.
  - inversion Hd as [|? ? Hnin Hd']; subst.
    constructor; [now apply IH|].
    rewrite List.Forall_forall in Hx |- *. intros b Hb.
    destruct (lt_total _ _ (Hx b Hb)) as [Hlt| ->]; [exact Hlt | contradiction].
Qed.

End TotalOrderSort.

Lemma string_ltb_lt (a b : string) :
  String.ltb a b = true <-> String_as_OT.lt a b.
Proof.
  unfold String.ltb, String_as_OT.lt.
  change String_as_OT.compare with String.compare.
  destruct (String.compare a b); split; congruence.
Qed.

Lemma string_ltb_irrefl (a : string) : String.ltb a a = false.
Proof.
  destruct (String.ltb a a) eqn:E; [|reflexivity].
  apply string_ltb_lt in E.
  now apply (StrictOrder_Irreflexive (R := String_as_OT.lt)) in E.
Qed.

Lemma string_ltb_trans (a b c : string) :
  String.ltb a b = true -> String.ltb b c = true -> String.ltb a c = true.
Proof.
  rewrite !string_ltb_lt.
  apply (StrictOrder_Transitive (R := String_as_OT.lt)).
Qed.

Lemma string_ltb_total (a b : string) :
  String.ltb a b = false -> String.ltb b a = true \/ a = b.
Proof.
  intros Hab. destruct (String_as_OT.compare_spec a b) as [E|Hlt|Hgt].
  - now right.
  - apply string_ltb_lt in Hlt. congruence.
  - left. now apply string_ltb_lt.
Qed.

Lemma sorted_of_set_listing (S : gset string) :
  sorted_listing (sorted_of_set S) S.
Proof.
  unfold sorted_listing, sorted_of_set, sorted_strings. split.
  - apply ordered_strict.
    + exact string_ltb_total.
    + eapply Permutation_NoDup; [symmetry; apply stable_sort_perm|].
      apply NoDup_ListNoDup, NoDup_elements.
    + apply stable_sort_ordered.
      * exact string_ltb_irrefl.
      * exact string_ltb_trans.
      * exact string_ltb_total.
  - intros x. rewrite stable_sort_In, <- list_elem_of_In. apply elem_of_elements.
Qed.

(** ** The target-role analysis (C3) *)

Lemma lookup_role_Some (catalog : list (string * RoleRequirements))
      (r : string) (requirements : RoleRequirements) :
  lookup_role catalog r = Some requirements -> In (r, requirements) catalog.
Proof.
  induction catalog as [|[k v] catalog IH]; simpl; [discriminate|].
  destruct (String.eqb_spec r k) as [->|Hne].
  - intros [= ->]. now left.
  - intros H. right. now apply IH.
Qed.

Lemma lookup_role_None (catalog : list (string * RoleRequirements)) (r : string) :
  lookup_role catalog r = None <-> ~ In r (map fst catalog).
Proof.
  induction catalog as [|[k v] catalog IH]; simpl; [tauto|].
  destruct (String.eqb_spec r k) as [->|Hne].
  - split; [discriminate | tauto].
  - rewrite IH. intuition congruence.
Qed.

Lemma analyze_target_role_from_None (catalog : list (string * RoleRequirements))
      (skills : list Skill) (target_role : string) :
  analyze_target_role_from catalog skills target_role = None
  <-> ~ In target_role (map fst catalog).
Proof.
  rewrite <- lookup_role_None. unfold analyze_target_role_from.
  destruct (lookup_role catalog target_role); split; congruence.
Qed.

Lemma analyze_target_role_from_Some
      (catalog : list (string * RoleRequirements)) (skills : list Skill)
      (target_role : string) (a : TargetRoleAnalysis) :
  Forall (fun entry => role_regular (snd entry)) catalog ->
  analyze_target_role_from catalog skills target_role = Some a ->
  exists requirements,
    In (target_role, requirements) catalog /\
    tra_role a = target_role /\
    tra_score a = role_final_score (skill_names_found skills) requirements /\
    tra_required_found a
    = sorted_of_set (skill_names_found skills
                     ∩ list_to_set (required_skills requirements)) /\
    tra_required_missing a
    = sorted_of_set (list_to_set (required_skills requirements)
                     ∖ skill_names_found skills) /\
    tra_good_to_have_found a
    = sorted_of_set (skill_names_found skills
                     ∩ list_to_set (good_to_have requirements)) /\
    tra_good_to_have_missing a
    = sorted_of_set (list_to_set (good_to_have requirements)
                     ∖ skill_names_found skills).
Proof.
  intros Hreg. unfold analyze_target_role_from.
  destruct (lookup_role catalog target_role) as [requirements|] eqn:Hl;
    [|discriminate].
  intros [= <-]. apply lookup_role_Some in Hl.
  exists requirements. split; [exact Hl|]. cbn [tra_role tra_score
    tra_required_found tra_required_missing tra_good_to_have_found
    tra_good_to_have_missing].
  rewrite List.Forall_forall in Hreg.
  destruct (Hreg _ Hl) as (HR & HG). cbn [snd] in HR, HG.
  rewrite HR, HG. repeat split; reflexivity.
Qed.

(** C3 fails on the code: the score [analyze_target_role] returns is not
    the score [suggest_role_matches] assigns to the same role.

    [analyze_target_role] returns [None] exactly when the target role is
    not a role of the catalog.  For skills with names of ASCII characters,
    [F] being the set of the lowercased names, an analysis it returns names
    the target role; its four lists are the found and missing required and
    good-to-have names, each in strictly ascending order; and its score is
    the value of [(req_score * 0.7 + gth_score * 0.3) * 100] as the
    floating-point operations give it, unrounded, whereas
    [suggest_role_matches] gives the same role the score rounded to two
    decimals.  The two differ: with the single skill "Python" and the
    target role "Software Engineer" the analysis carries
    [11.666666666666666] and the suggestion [11.67]. *)
Theorem analyze_target_role_returns_raw_score
        (skills : list Skill) (target_role : string) :
  let F : gset string := list_to_set (map (fun s => lower (name s)) skills) in
  (analyze_target_role skills target_role = None
   <-> ~ In target_role (map fst JOB_ROLES))
  /\
  (Forall (fun s => ascii_only (name s) = true) skills ->
   forall a, analyze_target_role skills target_role = Some a ->
     tra_role a = target_role /\
     exists requirements,
       In (target_role, requirements) JOB_ROLES /\
       let R : gset string := list_to_set (required_skills requirements) in
       let G : gset string := list_to_set (good_to_have requirements) in
       tra_score a
       = (((if (0 <? size R)%nat
            then float_of_nat (size (F ∩ R)) / float_of_nat (size R)
            else 0) * 0.7
           + (if (0 <? size G)%nat
              then float_of_nat (size (F ∩ G)) / float_of_nat (size G)
              else 0) * 0.3)
          * 100)%float /\
       sorted_listing (tra_required_found a) (F ∩ R) /\
       sorted_listing (tra_required_missing a) (R ∖ F) /\
       sorted_listing (tra_good_to_have_found a) (F ∩ G) /\
       sorted_listing (tra_good_to_have_missing a) (G ∖ F) /\
       exists m k,
         In m (suggest_role_matches skills) /\ role m = target_role /\
         rounds_to_hundredths
           (exact_score (size (F ∩ R)) (size R) (size (F ∩ G)) (size G)) k /\
         score m = float_of_hundredths k)
  /\
  (exists a m,
     analyze_target_role [mkSkill "Python" "Programming Languages"]
                         "Software Engineer" = Some a /\
     In m (suggest_role_matches [mkSkill "Python" "Programming Languages"]) /\
     role m = "Software Engineer" /\
     tra_score a = 11.666666666666666%float /\
     score m = 11.67%float /\
     PrimFloat.eqb (tra_score a) (score m) = false).
Proof.
  intros F. split; [|split].
  - apply analyze_target_role_from_None.
  - intros _ a. unfold analyze_target_role, suggest_role_matches.
    change F with (skill_names_found skills). clear F.
    pose proof JOB_ROLES_regular as Hreg. pose proof JOB_ROLES_exact as Hexact.
    revert Hreg Hexact. generalize JOB_ROLES. intros catalog Hreg Hexact.
    unfold analyze_target_role_from.
    destruct (lookup_role catalog target_role) as [requirements|] eqn:Hl;
      [|discriminate].
    intros [= <-]. apply lookup_role_Some in Hl.
    cbn [tra_role tra_score tra_required_found tra_required_missing
         tra_good_to_have_found tra_good_to_have_missing].
    split; [reflexivity|]. exists requirements. split; [exact Hl|]. cbv zeta.
    split; [reflexivity|].
    repeat (split; [apply sorted_of_set_listing|]).
    rewrite List.Forall_forall in Hreg, Hexact.
    exists (mkRoleMatch target_role
              (round2 (role_final_score (skill_names_found skills) requirements))).
    eexists. split; [|split; [reflexivity|split]].
    + apply (suggest_roles_has catalog skills (target_role, requirements) Hl).
    + apply hundredths_rounds.
    + cbn [score].
      apply (role_exact_rounds _ _ (Hreg _ Hl) (Hexact _ Hl)).
  - eexists. exists (mkRoleMatch "Software Engineer" 11.67%float).
    split; [vm_compute; reflexivity|].
    split; [vm_compute; auto|].
    repeat split; vm_compute; reflexivity.
Qed.

(** ** The matcher on the skill pattern *)

Lemma lower_app (a b : string) : lower (a ++ b) = lower a ++ lower b.
Proof. induction a as [|c a IH]; simpl; [reflexivity | now rewrite IH]. Qed.

Lemma is_word_lower (c : ascii) : is_word (lower_char c) = is_word c.
Proof.
  destruct c as [[] [] [] [] [] [] [] []]; vm_compute; reflexivity.
Qed.

Lemma list_ascii_app (a b : string) :
  list_ascii_of_string (a ++ b)
  = (list_ascii_of_string a ++ list_ascii_of_string b)%list.
Proof. induction a as [|c a IH]; simpl; [reflexivity | now rewrite IH]. Qed.

Lemma last_char_cons (a : ascii) (s : string) :
  last_char (String a s) = before_after (Some a) s.
Proof.
  unfold before_after. revert a. induction s as [|c s IH]; intros a.
  - reflexivity.
  - change (last_char (String a (String c s))) with (last_char (String c s)).
    rewrite IH. destruct (last_char s); reflexivity.
Qed.

Lemma before_after_cons (b : option ascii) (a : ascii) (s : string) :
  before_after b (String a s) = before_after (Some a) s.
Proof.
  unfold before_after at 1. rewrite last_char_cons. unfold before_after.
  destruct (last_char s); reflexivity.
Qed.

Lemma run_Lit {A : Type} (k : string) (b : option ascii) (n : nat)
      (s : list ascii) (cont : Re.cursor -> option A) :
  Re.run (Re.Lit k) (Re.Cursor b n (list_ascii_of_string k ++ s)%list) cont
  = cont (Re.Cursor (before_after b k) (n + String.length k) s).
Proof.
  revert b n. induction k as [|a k IH]; intros b n; simpl.
  - now rewrite Nat.add_0_r.
  - unfold Re.Lit1. rewrite Ascii.eqb_refl. rewrite IH.
    now rewrite before_after_cons, Nat.add_succ_r.
Qed.

Lemma run_Lit_inv {A : Type} (k : string) (c : Re.cursor)
      (cont : Re.cursor -> option A) (e : A) :
  Re.run (Re.Lit k) c cont = Some e ->
  exists s, Re.rest c = (list_ascii_of_string k ++ s)%list.
Proof.
  revert c. induction k as [|a k IH]; intros c; simpl.
  - intros _. now exists (Re.rest c).
  - destruct (Re.rest c) as [|x s] eqn:Hr; [discriminate|].
    unfold Re.Lit1. destruct (Ascii.eqb_spec a x) as [->|]; [|discriminate].
    intros H. apply IH in H as [s' Hs']. simpl in Hs'. subst s.
    now exists s'.
Qed.

Lemma search_from_Some (r : Re.re) (b : option ascii) (n : nat)
      (s : list ascii) (span : nat * nat) :
  Re.search_from r b n s = Some span ->
  exists pre post b' i,
    s = (pre ++ post)%list /\
    Re.match_at r (Re.Cursor b' i post) = Some (snd span).
Proof.
  revert b n. induction s as [|a s IH]; intros b n; simpl.
  - destruct (Re.match_at r (Re.Cursor b n [])) eqn:Hm; [|discriminate].
    intros [= <-]. now exists [], [], b, n.
  - destruct (Re.match_at r (Re.Cursor b n (a :: s))) eqn:Hm.
    + intros [= <-]. now exists [], (a :: s), b, n.
    + intros H. apply IH in H as (pre & post & b' & i & -> & H).
      now exists (a :: pre), post, b', i.
Qed.

Lemma search_from_found (r : Re.re) (pre : string) (post : list ascii)
      (b : option ascii) (n e : nat) :
  Re.match_at r (Re.Cursor (before_after b pre) (n + String.length pre) post)
  = Some e ->
  exists span,
    Re.search_from r b n (list_ascii_of_string pre ++ post)%list = Some span.
Proof.
  revert b n. induction pre as [|a pre IH]; intros b n Hm.
  - simpl in Hm. rewrite Nat.add_0_r in Hm.
    unfold before_after in Hm. simpl in Hm.
    destruct post as [|x post]; simpl; rewrite Hm; eauto.
  - cbn [list_ascii_of_string app Re.search_from].
    destruct (Re.match_at r (Re.Cursor b n _)); [eauto|].
    apply IH. rewrite before_after_cons in Hm. cbn [String.length] in Hm.
    now rewrite Nat.add_succ_r in Hm.
Qed.

Lemma occurs_at_app (part rest : string) : occurs_at part (part ++ rest) = true.
Proof.
  induction part as [|a part IH]; simpl; [reflexivity|].
  now rewrite Ascii.eqb_refl.
Qed.

Lemma occurs_app (pre part rest : string) :
  occurs part (pre ++ part ++ rest) = true.
Proof.
  induction pre as [|a pre IH]; simpl.
  - assert (Hu : forall t, occurs_at part t = true -> occurs part t = true).
    { intros t Ht. destruct t; simpl; now rewrite Ht. }
    apply Hu, occurs_at_app.
  - rewrite IH. apply orb_true_r.
Qed.

(** A keyword whose pattern matches occurs in the text. *)
Lemma keyword_matches_occurs (text_lower skill : string) :
  keyword_matches text_lower skill = true ->
  occurs (lower skill) text_lower = true.
Proof.
  unfold keyword_matches, re_search, Re.search.
  destruct (Re.search_from _ _ _ _) as [span|] eqn:Hs; [|discriminate].
  intros _. apply search_from_Some in Hs as (pre & post & b' & i & Htext & Hm).
  unfold Re.match_at, skill_pattern in Hm. cbn [Re.run] in Hm.
  destruct (Re.at_boundary _); [|discriminate].
  apply run_Lit_inv in Hm as [s Hpost]. cbn [Re.rest] in Hpost. subst post.
  rewrite <- (string_of_list_ascii_of_string text_lower), Htext.
  rewrite <- (list_ascii_of_string_of_list_ascii pre),
          <- (list_ascii_of_string_of_list_ascii s),
          <- !list_ascii_app, string_of_list_ascii_of_string.
  apply occurs_app.
Qed.

Lemma catalog_entries_In (catalog : list (string * list string))
      (cat skill : string) :
  In (cat, skill) (catalog_entries catalog) <->
  exists skills, In (cat, skills) catalog /\ In skill skills.
Proof.
  unfold catalog_entries. rewrite in_flat_map. split.
  - intros ([c skills] & He & Hs). simpl in Hs.
    apply in_map_iff in Hs as (k & [= <- <-] & Hk). now exists skills.
  - intros (skills & He & Hs). exists (cat, skills). split; [exact He|].
    simpl. apply in_map_iff. now exists skill.
Qed.

Lemma first_seen_In (entries : list (string * string)) (s : Skill) :
  first_seen entries s -> In (category s, name s) entries.
Proof.
  intros (pre & post & -> & _). apply in_or_app. right. now left.
Qed.

(** No finding of a category whose keywords do not occur in the text. *)
Lemma no_keyword_no_finding_from (catalog : list (string * list string))
      (text cat : string) (keywords : list string) :
  List.NoDup (map fst catalog) ->
  In (cat, keywords) catalog ->
  Forall (fun k => occurs (lower k) (lower text) = false) keywords ->
  forall s, In s (extract_skills_from catalog text) -> category s <> cat.
Proof.
  intros Hd Hin Hnone s Hs Hcat.
  destruct (extract_skills_from_inv catalog text) as (_ & Hf & _).
  destruct (Hf s Hs) as [Hfirst Hmatch].
  apply first_seen_In, catalog_entries_In in Hfirst as (skills & He & Hk).
  rewrite Hcat in He.
  assert (E : (cat, skills) = (cat, keywords))
    by now apply (NoDup_map_same fst catalog).
  injection E as ->.
  rewrite List.Forall_forall in Hnone.
  apply keyword_matches_occurs in Hmatch.
  now rewrite (Hnone _ Hk) in Hmatch.
Qed.

Lemma first_char_app (a b : string) :
  first_char (a ++ b) = match first_char a with Some c => Some c | None => first_char b end.
Proof. destruct a; reflexivity. Qed.

Lemma first_char_list (s : string) :
  first_char s = hd_error (list_ascii_of_string s).
Proof. destruct s; reflexivity. Qed.

Lemma last_char_lower (s : string) :
  last_char (lower s) = option_map lower_char (last_char s).
Proof.
  induction s as [|a s IH]; [reflexivity|].
  cbn [lower]. rewrite !last_char_cons. unfold before_after.
  rewrite IH. destruct (last_char s); reflexivity.
Qed.

Lemma first_char_lower (s : string) :
  first_char (lower s) = option_map lower_char (first_char s).
Proof. destruct s; reflexivity. Qed.

Lemma is_word_opt_lower (c : option ascii) :
  is_word_opt (option_map lower_char c) = is_word_opt c.
Proof. destruct c; simpl; [apply is_word_lower | reflexivity]. Qed.

Lemma word_after_cursor (b : option ascii) (n : nat) (s : string) :
  Re.word_after (Re.Cursor b n (list_ascii_of_string s))
  = is_word_opt (first_char s).
Proof. destruct s; reflexivity. Qed.

Lemma word_before_cursor (b : option ascii) (n : nat) (s : list ascii) :
  Re.word_before (Re.Cursor b n s) = is_word_opt b.
Proof. reflexivity. Qed.

(** The skill pattern matches a keyword with word edges that stands
    alone, bare or followed by an "s". *)
Lemma skill_pattern_matches (k : string) (plural : bool)
      (b : option ascii) (n : nat) (post : string) :
  word_edged k = true ->
  is_word_opt b = false ->
  is_word_opt (first_char post) = false ->
  exists e,
    Re.match_at (skill_pattern k)
      (Re.Cursor b n
         (list_ascii_of_string (k ++ (if plural then "s" else "") ++ post)))
    = Some e.
Proof.
  intros Hedge Hb Hpost.
  apply andb_true_iff in Hedge as [Hfirst Hlast].
  assert (Hk : before_after b k = last_char k).
  { unfold before_after. destruct (last_char k); [reflexivity | discriminate]. }
  unfold Re.match_at, skill_pattern. cbn [Re.run].
  assert (Hstart : Re.at_boundary
            (Re.Cursor b n
               (list_ascii_of_string (k ++ (if plural then "s" else "") ++ post)))
          = true).
  { unfold Re.at_boundary.
    rewrite word_before_cursor, Hb, word_after_cursor, first_char_app.
    destruct (first_char k); [exact Hfirst | discriminate]. }
  rewrite Hstart, list_ascii_app, run_Lit. cbn [Re.Opt Re.run Re.rest Re.pos].
  destruct plural.
  - cbn [String.append list_ascii_of_string]. unfold Re.Lit1.
    cbn [Re.run Re.rest Re.pos]. rewrite Ascii.eqb_refl. unfold Re.at_boundary.
    rewrite word_before_cursor, word_after_cursor, Hpost. cbn. eauto.
  - cbn [String.append].
    assert (Hend : Re.at_boundary
              (Re.Cursor (before_after b k) (n + String.length k)
                 (list_ascii_of_string post)) = true).
    { unfold Re.at_boundary.
      rewrite word_before_cursor, Hk, Hlast, word_after_cursor, Hpost.
      reflexivity. }
    destruct post as [|x post]; cbn [list_ascii_of_string].
    + cbn [list_ascii_of_string] in Hend. cbn [Re.run Re.rest Re.pos].
      rewrite Hend. eauto.
    + cbn [list_ascii_of_string] in Hend. unfold Re.Lit1.
      cbn [Re.run Re.rest Re.pos].
      destruct (Ascii.eqb_spec "s"%char x) as [<-|Hne].
      * simpl in Hpost. discriminate.
      * rewrite Hend. eauto.
Qed.

Lemma keyword_matches_whole_word (k pre word post : string) :
  lower k = k ->
  word_edged k = true ->
  lower word = k \/ lower word = k ++ "s" ->
  stands_alone pre post = true ->
  keyword_matches (lower (pre ++ word ++ post)) k = true.
Proof.
  intros Hlow Hedge Hword Halone.
  apply andb_true_iff in Halone as [Hpre Hpost].
  apply negb_true_iff in Hpre, Hpost.
  unfold keyword_matches, re_search, Re.search.
  rewrite Hlow, !lower_app, list_ascii_app.
  assert (Hm : exists e,
             Re.match_at (skill_pattern k)
               (Re.Cursor (before_after None (lower pre))
                          (0 + String.length (lower pre))
                          (list_ascii_of_string (lower word ++ lower post)))
             = Some e).
  { assert (Hb : is_word_opt (before_after None (lower pre)) = false).
    { unfold before_after. rewrite last_char_lower.
      destruct (last_char pre) as [c|]; [|reflexivity].
      simpl in *. now rewrite is_word_lower. }
    assert (Hq : is_word_opt (first_char (lower post)) = false)
      by now rewrite first_char_lower, is_word_opt_lower.
    destruct Hword as [-> | ->].
    - apply (skill_pattern_matches k false _ _ (lower post) Hedge Hb Hq).
    - rewrite append_assoc.
      apply (skill_pattern_matches k true _ _ (lower post) Hedge Hb Hq). }
  destruct Hm as [e Hm].
  apply search_from_found in Hm as [span Hs]. now rewrite Hs.
Qed.

Lemma whole_word_keyword_found_from (catalog : list (string * list string))
      (cat keyword pre word post : string) :
  List.NoDup (map (fun e => lower (snd e)) (catalog_entries catalog)) ->
  In (cat, keyword) (catalog_entries catalog) ->
  lower keyword = keyword ->
  word_edged keyword = true ->
  lower word = keyword \/ lower word = keyword ++ "s" ->
  stands_alone pre post = true ->
  In (mkSkill keyword cat) (extract_skills_from catalog (pre ++ word ++ post)).
Proof.
  intros Hd Hin Hlow Hedge Hword Halone.
  destruct (extract_skills_from_inv catalog (pre ++ word ++ post))
    as (_ & Hf & Hm).
  pose proof (keyword_matches_whole_word keyword pre word post
                Hlow Hedge Hword Halone) as Hmatch.
  specialize (Hm (cat, keyword) Hin Hmatch). cbn [snd] in Hm.
  apply in_map_iff in Hm as (s & Hname & Hs).
  destruct (Hf s Hs) as [Hfirst _]. apply first_seen_In in Hfirst.
  assert (E : (category s, name s) = (cat, keyword)).
  { apply (NoDup_map_same (fun e => lower (snd e)) (catalog_entries catalog));
      [exact Hd | exact Hfirst | exact Hin | exact Hname]. }
  injection E as Hc Hn. destruct s as [nm ct]. simpl in *. now subst.
Qed.

(** ** The skill catalog of the program *)

Lemma SKILL_CATEGORIES_names_distinct : List.NoDup (map fst SKILL_CATEGORIES).
Proof.
  apply NoDup_ListNoDup. apply (bool_decide_unpack _). vm_compute. reflexivity.
Qed.

Lemma SKILL_CATEGORIES_keywords_distinct :
  List.NoDup (map (fun e => lower (snd e)) (catalog_entries SKILL_CATEGORIES)).
Proof.
  apply NoDup_ListNoDup. apply (bool_decide_unpack _). vm_compute. reflexivity.
Qed.

Lemma SKILL_CATEGORIES_lowercase :
  forallb (fun e => String.eqb (lower (snd e)) (snd e))
          (catalog_entries SKILL_CATEGORIES) = true.
Proof. vm_compute. reflexivity. Qed.

(** The keywords of the catalog that do not begin and end with a word
    character. *)
Example symbol_keywords :
  filter (fun e => negb (word_edged (snd e))) (catalog_entries SKILL_CATEGORIES)
  = [("Programming Languages", "c++"); ("Programming Languages", "c#");
     ("Web Development (Backend)", ".net")].
Proof. vm_compute. reflexivity. Qed.

(** C2 fails on the code.  "c++", "c#" and ".net" are keywords of the
    catalog, yet a text that consists of one of them, in any case, yields no
    finding, and a sentence that names C++ between blanks yields only the
    other skill: the pattern asks for a word boundary next to the symbol,
    and there is none between a symbol and a blank or the end of the text.
    The same keywords are found when a word character happens to touch the
    symbol ("c++s", "x.net"). *)
Theorem symbol_keywords_are_missed :
  In ("Programming Languages", "c++") (catalog_entries SKILL_CATEGORIES)
  /\ In ("Programming Languages", "c#") (catalog_entries SKILL_CATEGORIES)
  /\ In ("Web Development (Backend)", ".net") (catalog_entries SKILL_CATEGORIES)
  /\ extract_skills "c++" = []
  /\ extract_skills "C++" = []
  /\ extract_skills "c#" = []
  /\ extract_skills ".net" = []
  /\ extract_skills ".NETs" = []
  /\ extract_skills "I know C++ and Java"
     = [mkSkill "java" "Programming Languages"]
  /\ extract_skills "c++s" = [mkSkill "c++" "Programming Languages"]
  /\ extract_skills "x.net" = [mkSkill ".net" "Web Development (Backend)"].
Proof.
  repeat split; vm_compute; tauto.
Qed.

(** X1.  Detection of the keywords of the catalog that begin and end with a
    word character (all but "c++", "c#" and ".net"): when a text of ASCII
    characters holds such a keyword, in any case, bare or with a trailing
    "s", and no word character touches it, [extract_skills] reports the
    keyword under its category. *)
Theorem whole_word_keyword_is_found (cat keyword pre word post : string) :
  ascii_only (pre ++ word ++ post) = true ->
  In (cat, keyword) (catalog_entries SKILL_CATEGORIES) ->
  word_edged keyword = true ->
  lower word = keyword \/ lower word = keyword ++ "s" ->
  stands_alone pre post = true ->
  In (mkSkill keyword cat) (extract_skills (pre ++ word ++ post)).
Proof.
  intros _ Hin Hedge Hword Halone. unfold extract_skills.
  pose proof SKILL_CATEGORIES_keywords_distinct as Hd.
  pose proof SKILL_CATEGORIES_lowercase as Hl.
  revert Hin Hd Hl. generalize SKILL_CATEGORIES. intros catalog Hin Hd Hl.
  apply whole_word_keyword_found_from; try assumption.
  rewrite forallb_forall in Hl. specialize (Hl _ Hin).
  now apply String.eqb_eq in Hl.
Qed.

Lemma whole_word_keyword_is_found_witness :
  In (mkSkill "docker" "DevOps & Cloud")
     (extract_skills ("We ship " ++ "Dockers" ++ ", daily")).
Proof.
  apply (whole_word_keyword_is_found "DevOps & Cloud" "docker" "We ship "
           "Dockers" ", daily").
  - reflexivity.
  - vm_compute. tauto.
  - reflexivity.
  - right. reflexivity.
  - reflexivity.
Defined.

(** X2.  A text of ASCII characters in which none of the keywords of a
    category occurs, whatever the case, yields no finding of that
    category. *)
Theorem no_keyword_no_finding (text cat : string) (keywords : list string) :
  ascii_only text = true ->
  In (cat, keywords) SKILL_CATEGORIES ->
  Forall (fun k => occurs (lower k) (lower text) = false) keywords ->
  Forall (fun s => category s <> cat) (extract_skills text).
Proof.
  intros _ Hin Hnone. apply List.Forall_forall. unfold extract_skills.
  pose proof SKILL_CATEGORIES_names_distinct as Hd.
  revert Hin Hd. generalize SKILL_CATEGORIES. intros catalog Hin Hd.
  now apply no_keyword_no_finding_from with (keywords := keywords).
Qed.

Lemma no_keyword_no_finding_witness :
  Forall (fun s => category s <> "Web Development (Backend)")
         (extract_skills "Python and SQL on Linux").
Proof.
  apply (no_keyword_no_finding "Python and SQL on Linux"
           "Web Development (Backend)"
           ["node.js"; "nodejs"; "express"; "django"; "flask"; "fastapi";
            "ruby on rails"; "spring"; "spring boot"; ".net"; "asp.net";
            "laravel"]).
  - reflexivity.
  - vm_compute. tauto.
  - repeat (apply List.Forall_cons; [vm_compute; reflexivity|]).
    apply List.Forall_nil.
Defined.

(** ** The experience summary *)

Lemma firstn_In_list {A : Type} (n : nat) (l : list A) (x : A) :
  In x (firstn n l) -> In x l.
Proof.
  intros Hx. rewrite <- (firstn_skipn n l). apply in_or_app. now left.
Qed.

Lemma firstn_NoDup {A : Type} (n : nat) (l : list A) :
  List.NoDup l -> List.NoDup (firstn n l).
Proof.
  intros Hd. rewrite <- (firstn_skipn n l) in Hd.
  now apply NoDup_app_remove_r in Hd.
Qed.

Lemma firstn_length_bound {A : Type} (n : nat) (l : list A) :
  length (firstn n l) <= n.
Proof.
  revert l. induction n as [|n IH]; intros [|x l]; simpl; try lia.
  specialize (IH l). lia.
Qed.

Lemma StronglySorted_app_inv {A : Type} (R : A -> A -> Prop) (l1 l2 : list A) :
  StronglySorted R (l1 ++ l2) ->
  StronglySorted R l1 /\ forall a b, In a l1 -> In b l2 -> R a b.
Proof.
  induction l1 as [|x l1 IH]; simpl; intros Hs.
  - split; [constructor | tauto].
  - inversion Hs as [|? ? Hs' Hx]; subst.
    destruct (IH Hs') as [H1 H2]. split.
    + constructor; [exact H1|].
      rewrite List.Forall_forall in Hx |- *. intros b Hb.
      apply Hx, in_or_app. now left.
    + intros a b [<-|Ha] Hb.
      * rewrite List.Forall_forall in Hx. apply Hx, in_or_app. now right.
      * now apply H2.
Qed.

Lemma sorted_by_len_desc_sorted (xs : list string) :
  StronglySorted (fun a b => String.length b <= String.length a)
                 (sorted_by_len_desc xs).
Proof.
  unfold sorted_by_len_desc.
  rewrite <- (map_id (stable_sort _ xs)).
  apply StronglySorted_map_in
    with (R := fun a b => (Z.of_nat (String.length b)
                           <= Z.of_nat (String.length a))%Z).
  - intros a b _ _ Hle. lia.
  - apply (stable_sort_sorted _ (fun x => Z.of_nat (String.length x))).
    intros a b _ _.
    destruct (Nat.ltb_spec (String.length b) (String.length a));
      destruct (Z.ltb_spec (Z.of_nat (String.length b))
                           (Z.of_nat (String.length a))); lia.
Qed.

Lemma replace_newlines_clean (s : string) :
  occurs (String "010" EmptyString) (replace_newlines s) = false.
Proof.
  induction s as [|c s IH]; [reflexivity|].
  cbn [replace_newlines occurs occurs_at]. rewrite IH.
  destruct (Ascii.eqb_spec c "010") as [->|Hne].
  - reflexivity.
  - destruct (Ascii.eqb_spec "010"%char c) as [<-|_]; [contradiction|].
    reflexivity.
Qed.

Lemma date_entities_of_In (ents : list Entity) (d : string) :
  In d (date_entities_of ents) <->
  exists e, In e ents /\ ent_label e = "DATE" /\ d = replace_newlines (ent_text e).
Proof.
  unfold date_entities_of. rewrite in_map_iff. split.
  - intros (e & <- & He). apply filter_In in He as [He Hl].
    apply String.eqb_eq in Hl. now exists e.
  - intros (e & He & Hl & ->). exists e. split; [reflexivity|].
    apply filter_In. split; [exact He | now apply String.eqb_eq].
Qed.

Lemma experience_matches_dates `{HashOrder} (text : string)
      (nlp_model : NlpModel) (ents : list Entity) :
  nlp_model text = Some ents ->
  date_entities_of ents <> [] ->
  experience_matches text nlp_model
  = (year_mentions text ++ "Key Dates Found:"
       :: unique_dates (date_entities_of ents))%list.
Proof.
  intros Hn Hd. unfold experience_matches. rewrite Hn.
  destruct (date_entities_of ents); [contradiction | reflexivity].
Qed.

(** X3.  What the summary holds when the pipeline tags at least one date,
    for a text and entities of ASCII characters: the year mentions, the
    marker, and the dates kept, which are at most ten, distinct, free of
    newlines, taken from the DATE entities, sorted by length (longest
    first) and no shorter than any date left out.  The summary itself has
    no repetition; its order is the set's. *)
Theorem experience_summary_contents `{HashOrder} (text : string)
        (nlp_model : NlpModel) (ents : list Entity) :
  ascii_only text = true ->
  Forall (fun e => ascii_only (ent_text e) = true) ents ->
  nlp_model text = Some ents ->
  date_entities_of ents <> [] ->
  let kept := unique_dates (date_entities_of ents) in
  (forall x, In x (analyze_experience text nlp_model) <->
             In x (year_mentions text) \/ x = "Key Dates Found:" \/ In x kept)
  /\ List.NoDup (analyze_experience text nlp_model)
  /\ length kept <= 10
  /\ List.NoDup kept
  /\ (forall d, In d kept ->
        occurs (String "010" EmptyString) d = false /\
        exists e, In e ents /\ ent_label e = "DATE" /\
                  d = replace_newlines (ent_text e))
  /\ StronglySorted (fun a b => String.length b <= String.length a) kept
  /\ (forall d d', In d (date_entities_of ents) -> ~ In d kept -> In d' kept ->
        String.length d <= String.length d').
Proof.
  intros _ _ Hn Hd kept.
  assert (Hperm : Permutation (sorted_by_len_desc (list_of_set (date_entities_of ents)))
                              (list_of_set (date_entities_of ents)))
    by apply stable_sort_perm.
  assert (Hsorted := sorted_by_len_desc_sorted (list_of_set (date_entities_of ents))).
  rewrite <- (firstn_skipn 10) in Hsorted.
  apply StronglySorted_app_inv in Hsorted as [Hkept Hcut].
  unfold analyze_experience.
  rewrite (experience_matches_dates text nlp_model ents Hn Hd).
  fold kept.
  assert (Hkept_in : forall d, In d kept -> In d (date_entities_of ents)).
  { intros d Hdk. apply firstn_In_list in Hdk.
    apply (Permutation_in _ Hperm) in Hdk.
    now apply (proj1 (list_of_set_In _ _)) in Hdk. }
  split; [|split; [|split; [|split; [|split; [|split]]]]].
  - intros x. rewrite list_of_set_In, in_app_iff. simpl. intuition congruence.
  - apply list_of_set_NoDup.
  - apply firstn_length_bound.
  - apply firstn_NoDup. eapply Permutation_NoDup; [symmetry; exact Hperm|].
    apply list_of_set_NoDup.
  - intros d Hdk. apply Hkept_in, date_entities_of_In in Hdk as (e & He & Hl & ->).
    split; [apply replace_newlines_clean | now exists e].
  - exact Hkept.
  - intros d d' Hdin Hnot Hd'.
    apply (proj2 (list_of_set_In _ _)) in Hdin.
    apply (Permutation_in _ (Permutation_sym Hperm)) in Hdin.
    rewrite <- (firstn_skipn 10) in Hdin.
    apply in_app_or in Hdin as [Hdin|Hdin]; [contradiction|].
    now apply Hcut.
Qed.

Lemma experience_summary_contents_witness :
  let ents := [mkEntity "January 2020" "DATE"; mkEntity "Acme" "ORG";
               mkEntity "2021" "DATE"] in
  let text := "Engineer, January 2020 - 2021" in
  let kept := unique_dates (H := insertion_order) (date_entities_of ents) in
  (forall x, In x (analyze_experience (H := insertion_order) text two_dates) <->
             In x (year_mentions text) \/ x = "Key Dates Found:" \/ In x kept)
  /\ List.NoDup (analyze_experience (H := insertion_order) text two_dates)
  /\ length kept <= 10
  /\ List.NoDup kept
  /\ (forall d, In d kept ->
        occurs (String "010" EmptyString) d = false /\
        exists e, In e ents /\ ent_label e = "DATE" /\
                  d = replace_newlines (ent_text e))
  /\ StronglySorted (fun a b => String.length b <= String.length a) kept
  /\ (forall d d', In d (date_entities_of ents) -> ~ In d kept -> In d' kept ->
        String.length d <= String.length d').
Proof.
  apply (experience_summary_contents (H := insertion_order)
           "Engineer, January 2020 - 2021" two_dates
           [mkEntity "January 2020" "DATE"; mkEntity "Acme" "ORG";
            mkEntity "2021" "DATE"]).
  - reflexivity.
  - repeat constructor.
  - reflexivity.
  - discriminate.
Defined.

(** C8 fails on the code.  The dates are sorted by length and appended after
    the marker, but the list returned is [list(set(experience_matches))]:
    its order is the iteration order of a set.  With a table that lists
    elements in reverse insertion order the marker comes last and the dates
    come shortest first; only a table that happens to keep insertion order
    gives the order the dates were sorted in. *)
Theorem experience_order_is_lost :
  experience_matches (H := reversed_order) "Engineer, January 2020 - 2021"
                     two_dates
  = ["Key Dates Found:"; "January 2020"; "2021"]
  /\ analyze_experience (H := reversed_order) "Engineer, January 2020 - 2021"
                        two_dates
     = ["2021"; "January 2020"; "Key Dates Found:"]
  /\ analyze_experience (H := insertion_order) "Engineer, January 2020 - 2021"
                        two_dates
     = ["Key Dates Found:"; "January 2020"; "2021"].
Proof.
  repeat split; vm_compute; reflexivity.
Qed.

(** ** A completed analysis *)

Lemma retry_loop_returns (env : Env) (prompt : string) (max_retries : nat)
      (attempts : list nat) (delay : nat) (response : option Response)
      (w : World) :
  exists msg w',
    retry_loop env prompt max_retries attempts delay response w = (Ok msg, w')
    /\ collection w' = collection w.
Proof.
  revert delay response w.
  induction attempts as [|attempt later IH]; intros delay response w.
  - now exists "Error: AI feedback generation failed.", w.
  - cbn [retry_loop]. unfold bind at 1, generate at 1.
    assert (Hexc : forall response' w1,
               collection w1 = collection w ->
               exists msg w',
                 (if (attempt <? max_retries - 1)%nat
                  then bind (sleep delay)
                            (fun _ => retry_loop env prompt max_retries later
                                        (delay * 2) response')
                  else ret (failure_message response')) w1 = (Ok msg, w')
                 /\ collection w' = collection w).
    { intros response' w1 Hw1.
      destruct (attempt <? max_retries - 1)%nat.
      - unfold bind, sleep, emit.
        destruct (IH (delay * 2) response'
                     {| trace := (trace w1 ++ [EvSleep delay])%list;
                        collection := collection w1 |})
          as (msg & w' & -> & Hc).
        exists msg, w'. split; [reflexivity | now rewrite Hc].
      - now exists (failure_message response'), w1. }
    destruct (generate_content env (trace w) prompt) as [resp|].
    + destruct (resp_text resp) as [text_response|].
      * eexists _, _. split; reflexivity.
      * apply Hexc. reflexivity.
    + apply Hexc. reflexivity.
Qed.

Lemma get_personalized_feedback_returns (env : Env)
      (analysis_data : FeedbackData) (prompt : string) (w : World) :
  prompt_template analysis_data = Ok prompt ->
  exists msg w',
    get_personalized_feedback env analysis_data w = (Ok msg, w')
    /\ collection w' = collection w.
Proof.
  intros Hp. unfold get_personalized_feedback.
  destruct (GEMINI_API_KEY env) as [key|]; [|now eexists _, w].
  destruct (not_configured (Some key)); [now eexists _, w|].
  unfold bind at 1, emit at 1.
  destruct (genai_configure env key); [|eexists _, _; split; reflexivity].
  rewrite Hp.
  destruct (retry_loop_returns env prompt 3 (seq 0 3) 1 None
              {| trace := (trace w ++ [EvConfigure key])%list;
                 collection := collection w |}) as (msg & w' & Hr & Hc).
  exists msg, w'. now split.
Qed.

Lemma JOB_ROLES_keywords :
  forallb (fun entry => negb (Nat.eqb (length (experience_keywords (snd entry))) 0))
          JOB_ROLES = true.
Proof. vm_compute. reflexivity. Qed.

(** The [feedback_data] the orchestrator builds always yields a prompt:
    a role of the catalog has a first experience keyword. *)
Lemma orchestrator_prompt (skills : list Skill) (target_role : string) :
  exists prompt,
    prompt_template
      match analyze_target_role skills target_role with
      | Some a => GapData a (length skills) (role_experience_keywords target_role)
      | None => EmptyData
      end = Ok prompt.
Proof.
  unfold analyze_target_role, analyze_target_role_from, role_experience_keywords.
  pose proof JOB_ROLES_keywords as Hk. revert Hk.
  generalize JOB_ROLES. intros catalog Hk.
  destruct (lookup_role catalog target_role) as [requirements|] eqn:Hl.
  - apply lookup_role_Some in Hl. rewrite forallb_forall in Hk.
    specialize (Hk _ Hl). cbn [snd] in Hk.
    cbn [prompt_template].
    destruct (experience_keywords requirements); [discriminate | eauto].
  - cbn [prompt_template]. eauto.
Qed.

(** X6.  Once step 1 has produced a text of ASCII characters that is not
    blank, in which the entity finder, if it answers, tags pieces of ASCII
    characters, [analyze_resume_file] returns a response and does not raise,
    whatever the generation service and the database do: the response
    carries the file name and the results of the analyses of that text;
    the last call made is the insertion of the audit record of this
    analysis; and the collection gains that record when [insert_one]
    returns and is unchanged when [insert_one] raises. *)
Theorem analysis_completes `{HashOrder} (env : Env) (fs : list Byte.byte)
        (filename target_role : string) (nlp_model : NlpModel)
        (w w1 : World) (text : string) :
  extract_text env fs filename w = (Ok text, w1) ->
  ascii_only text = true ->
  (forall ents, nlp_model text = Some ents ->
                Forall (fun e => ascii_only (ent_text e) = true) ents) ->
  strip text <> EmptyString ->
  exists response w2 log_document,
    analyze_resume_file env fs filename target_role nlp_model w
    = (Ok response, w2)
    /\ fileName response = filename
    /\ extractedText response = substring 0 2000 text ++ "..."
    /\ skillsFound response = extract_skills text
    /\ roleMatches response = suggest_role_matches (extract_skills text)
    /\ targetRoleAnalysis response
       = analyze_target_role (extract_skills text) target_role
    /\ experienceSummary response = analyze_experience text nlp_model
    /\ educationSummary response = analyze_education text
    /\ rec_file_name log_document = filename
    /\ rec_target_role log_document = target_role
    /\ rec_skills_found_count log_document = length (extract_skills text)
    /\ rec_match_score log_document
       = match analyze_target_role (extract_skills text) target_role with
         | Some a => tra_score a
         | None => 0%float
         end
    /\ (exists calls, trace w2 = (calls ++ [EvInsertOne log_document])%list)
    /\ match insert_one env (collection w) log_document with
       | Returns _ => collection w2 = (collection w ++ [log_document])%list
       | Raises => collection w2 = collection w
       end.
Proof.
  intros Hx _ _ Hs.
  destruct (extract_text_trace _ _ _ _ _ _ Hx) as [Hc1 _].
  apply String.eqb_neq in Hs.
  destruct (orchestrator_prompt (extract_skills text) target_role) as [prompt Hp].
  destruct (get_personalized_feedback_returns env _ prompt w1 Hp)
    as (msg & wf & Hf & Hcf).
  unfold analyze_resume_file, bind at 1, time_time.
  rewrite (bind_ok _ _ _ _ _ Hx). rewrite Hs.
  rewrite (bind_ok _ _ _ _ _ Hf).
  unfold bind at 1. unfold bind at 1, log_analysis_to_db.
  set (log_document :=
         {| rec_timestamp := clock env (trace wf);
            rec_file_name := filename;
            rec_target_role := target_role;
            rec_match_score :=
              match analyze_target_role (extract_skills text) target_role with
              | Some a => tra_score a
              | None => 0%float
              end;
            rec_skills_found_count := length (extract_skills text);
            rec_analysis_duration_ms :=
              (clock env (trace wf) - clock env (trace w))%Z |}).
  assert (Hcw : collection wf = collection w) by now rewrite Hcf, Hc1.
  rewrite Hcw.
  destruct (insert_one env (collection w) log_document) eqn:Hi.
  - eexists _, _, log_document. split; [reflexivity|].
    repeat (split; [reflexivity|]). split; [now eexists|].
    rewrite Hi. reflexivity.
  - eexists _, _, log_document. split; [reflexivity|].
    repeat (split; [reflexivity|]). split; [now eexists|].
    rewrite Hi. reflexivity.
Qed.

Lemma analysis_completes_witness :
  exists response w2,
    analyze_resume_file (H := insertion_order) answering_env [] "cv.pdf"
      "DevOps Engineer" no_entities empty_world
    = (Ok response, w2)
    /\ personalizedFeedback response = "Add Kubernetes."
    /\ length (collection w2) = 1.
Proof.
  destruct (analysis_completes (H := insertion_order) answering_env []
              "cv.pdf" "DevOps Engineer" no_entities empty_world
              {| trace := [EvPdfReader []]; collection := [] |}
              (String "P" (String "y" (String "t" (String "h" (String "o"
               (String "n" (String "," (String " " (String "S" (String "Q"
               (String "L" (String " " (String "a" (String "n" (String "d"
               (String " " (String "D" (String "o" (String "c" (String "k"
               (String "e" (String "r" (String "010" EmptyString))))))))))))))))))))))))
    as (response & w2 & log_document & Hrun & _).
  - reflexivity.
  - reflexivity.
  - intros ents [= <-]. constructor.
  - discriminate.
  - exists response, w2. split; [exact Hrun|].
    vm_compute in Hrun. injection Hrun as <- <-. split; reflexivity.
Defined.
(** ** The matcher and the matches of a pattern *)

Lemma star_sound {A : Type} (p : ascii -> bool) (k : Re.cursor -> option A)
      (s : list ascii) (b : option ascii) (n : nat) (x : A) :
  Re.star p k b n s = Some x ->
  exists c', re_matches (Re.Star p) (Re.Cursor b n s) c' /\ k c' = Some x.
Proof.
  revert b n. induction s as [|a s IH]; intros b n; cbn [Re.star].
  - intros H. eexists. split; [apply matches_Star_stop | exact H].
  - destruct (p a) eqn:Hp.
    + destruct (Re.star p k (Some a) (S n) s) as [y|] eqn:Hs.
      * intros [= <-]. apply IH in Hs as (c' & Hm & Hk).
        exists c'. split; [now apply matches_Star_more | exact Hk].
      * intros H. eexists. split; [apply matches_Star_stop | exact H].
    + intros H. eexists. split; [apply matches_Star_stop | exact H].
Qed.

(** Whatever the matcher returns was accepted by the continuation at a
    position the pattern can stop at. *)
Lemma run_sound {A : Type} (r : Re.re) (c : Re.cursor)
      (k : Re.cursor -> option A) (x : A) :
  Re.run r c k = Some x ->
  exists c', re_matches r c c' /\ k c' = Some x.
Proof.
  revert c k. induction r as [|p|r1 IH1 r2 IH2|r1 IH1 r2 IH2|p|];
    intros c k; cbn [Re.run].
  - intros H. exists c. split; [constructor | exact H].
  - destruct c as [b n [|a s]]; cbn [Re.rest Re.pos]; [discriminate|].
    destruct (p a) eqn:Hp; [|discriminate].
    intros H. eexists. split; [now apply matches_Chr | exact H].
  - intros H. apply IH1 in H as (c1 & H1 & H).
    apply IH2 in H as (c2 & H2 & H).
    exists c2. split; [now apply matches_Seq with c1 | exact H].
  - destruct (Re.run r1 c k) as [y|] eqn:H1.
    + intros [= <-]. apply IH1 in H1 as (c' & Hm & Hk).
      exists c'. split; [now apply matches_Alt_l | exact Hk].
    + intros H. apply IH2 in H as (c' & Hm & Hk).
      exists c'. split; [now apply matches_Alt_r | exact Hk].
  - destruct c as [b n s]. cbn [Re.before Re.pos Re.rest]. apply star_sound.
  - destruct (Re.at_boundary c) eqn:Hb; [|discriminate].
    intros H. exists c. split; [now constructor | exact H].
Qed.

Lemma star_complete {A : Type} (p : ascii -> bool) (k : Re.cursor -> option A)
      (c c' : Re.cursor) (x : A) :
  re_matches (Re.Star p) c c' -> k c' = Some x ->
  exists y, Re.star p k (Re.before c) (Re.pos c) (Re.rest c) = Some y.
Proof.
  intros Hm. remember (Re.Star p) as r eqn:Hr. revert Hr.
  induction Hm; intros Hr Hk; try discriminate.
  - destruct c as [b n [|a s]]; cbn [Re.before Re.pos Re.rest Re.star].
    + eauto.
    + destruct (p a); [|eauto].
      destruct (Re.star p k (Some a) (S n) s); eauto.
  - injection Hr as ->. cbn [Re.before Re.pos Re.rest Re.star]. rewrite H.
    destruct (IHHm eq_refl Hk) as [y Hy].
    cbn [Re.before Re.pos Re.rest] in Hy. rewrite Hy. eauto.
Qed.

(** When the continuation accepts a position the pattern can stop at, the
    matcher returns a result. *)
Lemma run_complete {A : Type} (r : Re.re) (c c' : Re.cursor)
      (k : Re.cursor -> option A) (x : A) :
  re_matches r c c' -> k c' = Some x -> exists y, Re.run r c k = Some y.
Proof.
  intros Hm. revert k x.
  induction Hm; intros k x Hk; cbn [Re.run Re.rest Re.pos Re.before].
  - eauto.
  - rewrite H. eauto.
  - destruct (IHHm2 k x Hk) as [y Hy].
    apply (IHHm1 (fun c1 => Re.run r2 c1 k) y Hy).
  - destruct (IHHm k x Hk) as [y ->]. eauto.
  - destruct (Re.run r1 c k); [eauto|]. apply (IHHm k x Hk).
  - apply (star_complete p k c c x); [constructor | exact Hk].
  - apply (star_complete p k (Re.Cursor b n (a :: s)) c' x);
      [now apply matches_Star_more | exact Hk].
  - rewrite H. eauto.
Qed.

Lemma match_at_sound (r : Re.re) (c : Re.cursor) (e : nat) :
  Re.match_at r c = Some e -> exists c', re_matches r c c' /\ Re.pos c' = e.
Proof.
  intros H. apply run_sound in H as (c' & Hm & [= <-]). eauto.
Qed.

Lemma match_at_complete (r : Re.re) (c c' : Re.cursor) :
  re_matches r c c' -> exists e, Re.match_at r c = Some e.
Proof. intros Hm. now apply (run_complete r c c' _ (Re.pos c') Hm). Qed.

Lemma before_after_app (b : option ascii) (m1 m2 : string) :
  before_after (before_after b m1) m2 = before_after b (m1 ++ m2).
Proof.
  revert b. induction m1 as [|a m1 IH]; intros b.
  - reflexivity.
  - cbn [String.append]. rewrite !before_after_cons. apply IH.
Qed.

Lemma reads_refl (c : Re.cursor) : reads c EmptyString c.
Proof. repeat split. cbn. lia. Qed.

Lemma reads_trans (c c1 c2 : Re.cursor) (m1 m2 : string) :
  reads c m1 c1 -> reads c1 m2 c2 -> reads c (m1 ++ m2) c2.
Proof.
  intros (Hr1 & Hp1 & Hb1) (Hr2 & Hp2 & Hb2). repeat split.
  - rewrite Hr1, Hr2, list_ascii_app. now rewrite app_assoc.
  - rewrite Hp2, Hp1, length_append. lia.
  - rewrite Hb2, Hb1. apply before_after_app.
Qed.

Lemma reads_char (b : option ascii) (n : nat) (a : ascii) (s : list ascii) :
  reads (Re.Cursor b n (a :: s)) (String a EmptyString) (Re.Cursor (Some a) (S n) s).
Proof. repeat split. cbn. lia. Qed.

(** A match reads a word of the text. *)
Lemma re_matches_reads (r : Re.re) (c c' : Re.cursor) :
  re_matches r c c' -> exists m, reads c m c'.
Proof.
  induction 1.
  - exists EmptyString. apply reads_refl.
  - eexists. apply reads_char.
  - destruct IHre_matches1 as [m1 H1], IHre_matches2 as [m2 H2].
    exists (m1 ++ m2). now apply reads_trans with c1.
  - assumption.
  - assumption.
  - exists EmptyString. apply reads_refl.
  - destruct IHre_matches as [m Hm]. exists (String a m).
    apply (reads_trans _ _ _ (String a EmptyString) m (reads_char b n a s) Hm).
  - exists EmptyString. apply reads_refl.
Qed.

Lemma reads_inj (c c1 c2 : Re.cursor) (m : string) :
  reads c m c1 -> reads c m c2 -> c1 = c2.
Proof.
  intros (Hr1 & Hp1 & Hb1) (Hr2 & Hp2 & Hb2).
  destruct c1 as [b1 n1 s1], c2 as [b2 n2 s2]. cbn in *.
  rewrite Hr1 in Hr2. apply app_inv_head in Hr2. congruence.
Qed.

Lemma matches_Lit (k : string) (c c' : Re.cursor) :
  re_matches (Re.Lit k) c c' -> reads c k c'.
Proof.
  revert c. induction k as [|a k IH]; intros c H; cbn [Re.Lit] in H.
  - inversion H; subst. apply reads_refl.
  - inversion H as [| |r1 r2 c0 c1 c2 H1 H2| | | | |]; subst.
    unfold Re.Lit1 in H1. inversion H1 as [|p b n x s Hp| | | | | |]; subst.
    apply Ascii.eqb_eq in Hp. subst x.
    apply (reads_trans _ _ _ (String a EmptyString) k (reads_char b n a s)).
    now apply IH.
Qed.

Lemma matches_Opt (r : Re.re) (c c' : Re.cursor) :
  re_matches (Re.Opt r) c c' -> re_matches r c c' \/ c' = c.
Proof.
  unfold Re.Opt. intros H. inversion H; subst; [now left|].
  match goal with H : re_matches Re.Eps _ _ |- _ => inversion H end. now right.
Qed.

Lemma matches_WordB_inv (c c' : Re.cursor) :
  re_matches Re.WordB c c' -> c' = c /\ Re.at_boundary c = true.
Proof. intros H. inversion H; subst. now split. Qed.

Lemma matches_Seq_inv (r1 r2 : Re.re) (c c2 : Re.cursor) :
  re_matches (Re.Seq r1 r2) c c2 ->
  exists c1, re_matches r1 c c1 /\ re_matches r2 c1 c2.
Proof. intros H. inversion H; subst. eauto. Qed.

(** The span [Re.search_from] returns starts after a prefix of the text. *)
Lemma search_from_span (r : Re.re) (s : list ascii) (b : option ascii)
      (n : nat) (span : nat * nat) :
  Re.search_from r b n s = Some span ->
  exists pre post,
    s = (list_ascii_of_string pre ++ post)%list /\
    fst span = n + String.length pre /\
    Re.match_at r (Re.Cursor (before_after b pre) (n + String.length pre) post)
    = Some (snd span).
Proof.
  revert b n. induction s as [|a s IH]; intros b n; cbn [Re.search_from].
  - destruct (Re.match_at r (Re.Cursor b n [])) eqn:Hm; [|discriminate].
    intros [= <-]. exists EmptyString, []. cbn. rewrite Nat.add_0_r. auto.
  - destruct (Re.match_at r (Re.Cursor b n (a :: s))) eqn:Hm.
    + intros [= <-]. exists EmptyString, (a :: s). cbn.
      rewrite Nat.add_0_r. auto.
    + intros H. apply IH in H as (pre & post & -> & Hi & H).
      exists (String a pre), post. cbn [list_ascii_of_string String.length].
      rewrite before_after_cons, Nat.add_succ_r. auto.
Qed.

Lemma last_char_app (a b : string) :
  last_char (a ++ b) = before_after (last_char a) b.
Proof.
  induction a as [|x a IH].
  - cbn [String.append]. unfold before_after. now destruct (last_char b).
  - cbn [String.append]. rewrite !last_char_cons.
    apply (eq_sym (before_after_app (Some x) a b)).
Qed.

Lemma before_after_None (m : string) : before_after None m = last_char m.
Proof. unfold before_after. now destruct (last_char m). Qed.

(** A cursor reached by reading [m] after [pre], in a text that goes on
    with [post]. *)
Lemma reads_cursor_at (pre m : string) (post : list ascii) (c' : Re.cursor) :
  reads (Re.Cursor (last_char pre) (String.length pre)
                   (list_ascii_of_string m ++ post)%list) m c' ->
  c' = Re.Cursor (last_char (pre ++ m)) (String.length (pre ++ m)) post.
Proof.
  intros (Hr & Hp & Hb). destruct c' as [b n s]. cbn in *.
  apply app_inv_head in Hr. subst s.
  now rewrite last_char_app, length_append, Hp, Hb.
Qed.

Lemma at_boundary_cursor_at (pre post : string) :
  Re.at_boundary (cursor_at pre post) = word_boundary pre post.
Proof.
  unfold Re.at_boundary, cursor_at, word_boundary.
  now rewrite word_before_cursor, word_after_cursor.
Qed.

(** A match of the skill pattern reads the keyword, bare or followed by an
    "s", between two word boundaries. *)
Lemma skill_pattern_inv (k : string) (c c' : Re.cursor) :
  re_matches (skill_pattern k) c c' ->
  exists word,
    (word = k \/ word = k ++ "s") /\ reads c word c' /\
    Re.at_boundary c = true /\ Re.at_boundary c' = true.
Proof.
  unfold skill_pattern. intros H.
  apply matches_Seq_inv in H as (c1 & H1 & H).
  apply matches_WordB_inv in H1 as [-> Hb].
  apply matches_Seq_inv in H as (c2 & H2 & H).
  apply matches_Lit in H2.
  apply matches_Seq_inv in H as (c3 & H3 & H).
  apply matches_WordB_inv in H as [-> He].
  apply matches_Opt in H3 as [H3 | ->].
  - exists (k ++ "s"). split; [now right|]. split; [|now split].
    apply (reads_trans _ _ _ _ _ H2).
    apply (matches_Lit "s" c2 c3). cbn [Re.Lit].
    apply matches_Seq with c3; [exact H3 | constructor].
  - exists k. split; [now left|]. now split.
Qed.

Lemma search_cursor_at (r : Re.re) (text : string) (span : nat * nat) :
  Re.search r text = Some span ->
  exists pre post c',
    text = pre ++ post /\ fst span = String.length pre /\
    re_matches r (cursor_at pre post) c' /\ Re.pos c' = snd span.
Proof.
  unfold Re.search. intros H.
  apply search_from_span in H as (pre & post & Ht & Hi & Hm).
  rewrite before_after_None in Hm. cbn [Nat.add] in Hm, Hi.
  apply match_at_sound in Hm as (c' & Hm & He).
  exists pre, (string_of_list_ascii post), c'.
  unfold cursor_at. rewrite list_ascii_of_string_of_list_ascii.
  repeat split; try assumption.
  rewrite <- (string_of_list_ascii_of_string text), Ht.
  rewrite <- (list_ascii_of_string_of_list_ascii post) at 1.
  now rewrite <- list_ascii_app, string_of_list_ascii_of_string.
Qed.

Lemma keyword_matches_inv (text_lower k : string) :
  lower k = k ->
  keyword_matches text_lower k = true ->
  exists pre word post,
    text_lower = pre ++ word ++ post /\
    (word = k \/ word = k ++ "s") /\
    word_boundary pre (word ++ post) = true /\
    word_boundary (pre ++ word) post = true.
Proof.
  intros Hlow. unfold keyword_matches, re_search. rewrite Hlow.
  destruct (Re.search _ _) as [span|] eqn:Hs; [|discriminate]. intros _.
  apply search_cursor_at in Hs as (pre & rest & c' & Ht & _ & Hm & _).
  apply skill_pattern_inv in Hm as (word & Hw & Hr & Hb & He).
  pose proof Hr as (Hrest & _ & _). cbn [cursor_at Re.rest] in Hrest.
  assert (Erest : rest = word ++ string_of_list_ascii (Re.rest c')).
  { rewrite <- (string_of_list_ascii_of_string rest), Hrest.
    rewrite <- (list_ascii_of_string_of_list_ascii (Re.rest c')) at 1.
    now rewrite <- list_ascii_app, string_of_list_ascii_of_string. }
  exists pre, word, (string_of_list_ascii (Re.rest c')).
  rewrite Erest in Ht, Hb, Hr. repeat split; try assumption.
  - now rewrite <- at_boundary_cursor_at.
  - unfold cursor_at in Hr. rewrite list_ascii_app in Hr.
    apply reads_cursor_at in Hr. rewrite Hr in He.
    rewrite <- at_boundary_cursor_at. unfold cursor_at.
    now rewrite !list_ascii_of_string_of_list_ascii in *.
Qed.

Lemma word_edged_stands_alone (k word pre post : string) :
  word = k \/ word = k ++ "s" ->
  word_edged k = true ->
  word_boundary pre (word ++ post) = true ->
  word_boundary (pre ++ word) post = true ->
  stands_alone pre post = true.
Proof.
  intros Hw Hedge Hb He. apply andb_true_iff in Hedge as [Hf Hl].
  unfold word_boundary in *. unfold stands_alone.
  assert (Hfw : is_word_opt (first_char (word ++ post)) = true).
  { rewrite first_char_app. destruct Hw as [-> | ->].
    - destruct (first_char k); [exact Hf | discriminate].
    - rewrite first_char_app. destruct (first_char k); [exact Hf | discriminate]. }
  assert (Hlw : is_word_opt (last_char (pre ++ word)) = true).
  { rewrite last_char_app. destruct Hw as [-> | ->].
    - unfold before_after. destruct (last_char k); [exact Hl | discriminate].
    - rewrite <- before_after_app. reflexivity. }
  rewrite Hfw in Hb. rewrite Hlw in He.
  destruct (is_word_opt (last_char pre)), (is_word_opt (first_char post));
    simpl in *; congruence.
Qed.

Lemma finding_is_whole_word_from (catalog : list (string * list string))
      (text : string) (s : Skill) :
  forallb (fun e => String.eqb (lower (snd e)) (snd e))
          (catalog_entries catalog) = true ->
  In s (extract_skills_from catalog text) ->
  exists pre word post,
    lower text = pre ++ word ++ post /\
    (word = name s \/ word = name s ++ "s") /\
    word_boundary pre (word ++ post) = true /\
    word_boundary (pre ++ word) post = true /\
    (word_edged (name s) = true -> stands_alone pre post = true).
Proof.
  intros Hl Hs.
  destruct (extract_skills_from_inv catalog text) as (_ & Hf & _).
  destruct (Hf s Hs) as [Hfirst Hmatch].
  apply first_seen_In in Hfirst.
  rewrite forallb_forall in Hl. specialize (Hl _ Hfirst).
  cbn [snd] in Hl. apply String.eqb_eq in Hl.
  apply keyword_matches_inv in Hmatch as (pre & word & post & Ht & Hw & Hb & He);
    [|exact Hl].
  exists pre, word, post. repeat split; try assumption.
  intros Hedge. now apply (word_edged_stands_alone (name s) word).
Qed.

(** X7.  Every finding of [extract_skills] in a text of ASCII characters
    is a whole word of the text: the lowercased text holds the keyword,
    bare or followed by an "s", between two word boundaries.  For a keyword
    that begins and ends with a word character this means that no word
    character touches the occurrence. *)
Theorem finding_is_whole_word (text : string) (s : Skill) :
  ascii_only text = true ->
  In s (extract_skills text) ->
  exists pre word post,
    lower text = pre ++ word ++ post /\
    (word = name s \/ word = name s ++ "s") /\
    word_boundary pre (word ++ post) = true /\
    word_boundary (pre ++ word) post = true /\
    (word_edged (name s) = true -> stands_alone pre post = true).
Proof.
  intros _. unfold extract_skills. pose proof SKILL_CATEGORIES_lowercase as Hl.
  revert Hl. generalize SKILL_CATEGORIES. intros catalog Hl.
  now apply finding_is_whole_word_from.
Qed.

Lemma finding_is_whole_word_witness :
  exists pre word post,
    lower "Python and SQL" = pre ++ word ++ post /\
    (word = "sql" \/ word = "sql" ++ "s") /\
    word_boundary pre (word ++ post) = true /\
    word_boundary (pre ++ word) post = true /\
    (word_edged "sql" = true -> stands_alone pre post = true).
Proof.
  apply (finding_is_whole_word "Python and SQL"
           (mkSkill "sql" "Programming Languages")).
  - reflexivity.
  - vm_compute. tauto.
Defined.

(** ** Findings follow the catalog *)

Lemma extract_entry_sublist (text_lower : string) (st : extract_state)
      (e : string * string) :
  exists tail,
    fst (extract_entry text_lower st e) = (fst st ++ tail)%list /\
    sublist tail [entry_skill e].
Proof.
  destruct st as [found names], e as [cat k].
  unfold extract_entry, extract_step. cbn [fst snd].
  destruct (decide (lower k ∈ names)).
  - exists []. cbn [fst]. rewrite app_nil_r. split; [reflexivity|].
    apply sublist_nil_l.
  - destruct (re_search _ _).
    + exists [mkSkill k cat]. split; reflexivity.
    + exists []. cbn [fst]. rewrite app_nil_r. split; [reflexivity|].
      apply sublist_nil_l.
Qed.

Lemma extract_fold_sublist (text_lower : string)
      (entries seen : list (string * string)) (st : extract_state) :
  sublist (fst st) (map entry_skill seen) ->
  sublist (fst (fold_left (extract_entry text_lower) entries st))
          (map entry_skill (seen ++ entries)).
Proof.
  revert seen st. induction entries as [|e entries IH]; intros seen st Hs.
  - now rewrite app_nil_r.
  - cbn [fold_left].
    replace (seen ++ e :: entries)%list with ((seen ++ [e]) ++ entries)%list
      by now rewrite <- app_assoc.
    apply IH.
    destruct (extract_entry_sublist text_lower st e) as (tail & -> & Ht).
    rewrite map_app. now apply sublist_app.
Qed.

Lemma extract_skills_from_sublist (catalog : list (string * list string))
      (text : string) :
  sublist (extract_skills_from catalog text)
          (map entry_skill (catalog_entries catalog)).
Proof.
  unfold extract_skills_from. rewrite extract_fold_entries.
  apply (extract_fold_sublist (lower text) (catalog_entries catalog) []).
  apply sublist_nil_l.
Qed.

Lemma lower_char_idem (c : ascii) : lower_char (lower_char c) = lower_char c.
Proof. destruct c as [[] [] [] [] [] [] [] []]; vm_compute; reflexivity. Qed.

Lemma lower_idem (s : string) : lower (lower s) = lower s.
Proof.
  induction s as [|a s IH]; cbn [lower]; [reflexivity|].
  now rewrite lower_char_idem, IH.
Qed.

(** X8.  The findings of [extract_skills] are entries of the skill catalog
    listed in the order of the catalog, category by category (so there are
    at most 122 of them), and they depend on the text only up to case. *)
Theorem findings_follow_the_catalog (text : string) :
  sublist (extract_skills text)
          (map entry_skill (catalog_entries SKILL_CATEGORIES))
  /\ length (extract_skills text) <= 122
  /\ extract_skills (lower text) = extract_skills text.
Proof.
  assert (Hs : sublist (extract_skills text)
                 (map entry_skill (catalog_entries SKILL_CATEGORIES))).
  { unfold extract_skills. generalize SKILL_CATEGORIES. intros catalog.
    apply extract_skills_from_sublist. }
  split; [exact Hs|]. split.
  - apply sublist_length in Hs.
    replace 122 with (length (map entry_skill (catalog_entries SKILL_CATEGORIES)))
      by (vm_compute; reflexivity).
    exact Hs.
  - unfold extract_skills. generalize SKILL_CATEGORIES. intros catalog.
    unfold extract_skills_from. now rewrite lower_idem.
Qed.

(** ** Skills the role catalog lists and the skill catalog lacks *)

Lemma findings_detectable (catalog : list (string * list string))
      (text : string) :
  skill_names_found (extract_skills_from catalog text)
  ⊆ list_to_set (map (fun e => lower (snd e)) (catalog_entries catalog)).
Proof.
  intros x. unfold skill_names_found. rewrite !elem_of_list_to_set.
  rewrite !list_elem_of_In, !in_map_iff.
  intros (s & <- & Hs).
  destruct (extract_skills_from_inv catalog text) as (_ & Hf & _).
  destruct (Hf s Hs) as [Hfirst _]. apply first_seen_In in Hfirst.
  now exists (category s, name s).
Qed.

Lemma missing_when_not_found (F : gset string) (l : list string) (k : string) :
  In k l -> k ∉ F -> In k (sorted_of_set (list_to_set l ∖ F)).
Proof.
  intros Hk Hn. apply (proj2 (sorted_of_set_listing _)).
  apply elem_of_difference. split; [|exact Hn].
  apply elem_of_list_to_set, list_elem_of_In, Hk.
Qed.

(** X9.  Whatever the text, a skill that a role lists and that is no
    keyword of the skill catalog is reported missing by the target-role
    analysis of the extracted skills.  The role catalog has six such
    skills. *)
Theorem undetectable_skills_are_always_missing
        (text target_role : string) (a : TargetRoleAnalysis)
        (requirements : RoleRequirements) :
  analyze_target_role (extract_skills text) target_role = Some a ->
  In (target_role, requirements) JOB_ROLES ->
  (forall k, In k (required_skills requirements) -> ~ In k detectable ->
             In k (tra_required_missing a))
  /\ (forall k, In k (good_to_have requirements) -> ~ In k detectable ->
                In k (tra_good_to_have_missing a))
  /\ map (fun e =>
            (fst e,
             filter (fun k => negb (existsb (String.eqb k) detectable))
                    (required_skills (snd e) ++ good_to_have (snd e))%list))
         JOB_ROLES
     = [("Software Engineer", []);
        ("Data Scientist", []);
        ("Frontend Developer", ["api"; "figma"]);
        ("Backend Developer", ["api"; "rest"; "microservices"; "graphql"]);
        ("DevOps Engineer", ["security"])].
Proof.
  intros Ha Hin.
  split; [|split; [|vm_compute; reflexivity]].
  - revert Ha Hin. unfold analyze_target_role, extract_skills, detectable.
    pose proof JOB_ROLES_regular as Hreg. pose proof JOB_ROLES_distinct as Hd.
    revert Hreg Hd. generalize JOB_ROLES SKILL_CATEGORIES.
    intros roles catalog Hreg Hd Ha Hin k Hk Hn.
    apply analyze_target_role_from_Some in Ha
      as (requirements' & Hin' & _ & _ & _ & -> & _); [|exact Hreg].
    assert (E : (target_role, requirements') = (target_role, requirements))
      by now apply (NoDup_map_same fst roles).
    injection E as ->.
    apply missing_when_not_found; [exact Hk|].
    intros Hf. apply Hn. apply findings_detectable in Hf.
    now apply elem_of_list_to_set, list_elem_of_In in Hf.
  - revert Ha Hin. unfold analyze_target_role, extract_skills, detectable.
    pose proof JOB_ROLES_regular as Hreg. pose proof JOB_ROLES_distinct as Hd.
    revert Hreg Hd. generalize JOB_ROLES SKILL_CATEGORIES.
    intros roles catalog Hreg Hd Ha Hin k Hk Hn.
    apply analyze_target_role_from_Some in Ha
      as (requirements' & Hin' & _ & _ & _ & _ & _ & ->); [|exact Hreg].
    assert (E : (target_role, requirements') = (target_role, requirements))
      by now apply (NoDup_map_same fst roles).
    injection E as ->.
    apply missing_when_not_found; [exact Hk|].
    intros Hf. apply Hn. apply findings_detectable in Hf.
    now apply elem_of_list_to_set, list_elem_of_In in Hf.
Qed.

Lemma undetectable_skills_are_always_missing_witness :
  exists a,
    analyze_target_role (extract_skills "Python and REST APIs")
                        "Backend Developer" = Some a
    /\ In "api" (tra_required_missing a)
    /\ In "rest" (tra_required_missing a).
Proof.
  destruct (analyze_target_role (extract_skills "Python and REST APIs")
                                "Backend Developer") as [a|] eqn:Ha;
    [|vm_compute in Ha; discriminate].
  exists a. split; [reflexivity|].
  destruct (undetectable_skills_are_always_missing
              "Python and REST APIs" "Backend Developer" a
              (mkRole
                 ["node.js"; "python"; "java"; "sql"; "api"; "rest"; "git";
                  "mongodb"; "postgresql"]
                 ["docker"; "kubernetes"; "aws"; "gcp"; "django"; "flask";
                  "spring boot"; "microservices"; "graphql"]
                 ["backend"; "api development"; "database design";
                  "server-side"; "microservices"; "performance"])
              Ha) as (Hr & _ & _).
  - vm_compute. tauto.
  - split; apply Hr;
      solve [vm_compute; tauto
            | vm_compute; intuition discriminate].
Defined.

(** ** The best score a text can give a role *)

Lemma ceiling_from (roles : list (string * RoleRequirements))
      (K : gset string) (skills : list Skill) (m : RoleMatch) :
  forallb (fun entry => monotone_check (snd entry)) roles = true ->
  skill_names_found skills ⊆ K ->
  In m (suggest_role_matches_from roles skills) ->
  exists requirements,
    In (role m, requirements) roles /\
    PrimFloat.leb (score m) (round2 (role_final_score K requirements)) = true.
Proof.
  intros Hmono HF Hm.
  apply suggest_roles_member in Hm as ([r requirements] & He & Hr & ->).
  cbn [fst snd] in *. subst r. exists requirements. split; [exact He|].
  rewrite forallb_forall in Hmono. specialize (Hmono _ He). cbn [snd] in Hmono.
  unfold role_final_score.
  apply monotone_check_spec; [exact Hmono | |]; split.
  - now apply size_found_mono.
  - apply size_found_le.
  - now apply size_found_mono.
  - apply size_found_le.
Qed.

(** X10.  Whatever the text, the score [suggest_role_matches] gives a role
    from the skills extracted from it is at most the role's ceiling, the
    score reached when every listed skill that the skill catalog knows is
    found: 100 for two roles, less for the three roles that list skills the
    catalog lacks.  The ceilings are reached by a text that names every
    such skill. *)
Theorem role_score_ceiling (text : string) :
  Forall (fun m => exists requirements,
            In (role m, requirements) JOB_ROLES /\
            PrimFloat.leb (score m) (score_ceiling requirements) = true)
         (suggest_role_matches (extract_skills text))
  /\ map (fun e => (fst e, score_ceiling (snd e))) JOB_ROLES
     = [("Software Engineer", 100%float);
        ("Data Scientist", 100%float);
        ("Frontend Developer", 84.58%float);
        ("Backend Developer", 77.78%float);
        ("DevOps Engineer", 95.71%float)]
  /\ map (fun m => (role m, score m))
         (suggest_role_matches (extract_skills every_role_skill))
     = [("Software Engineer", 100%float);
        ("Data Scientist", 100%float);
        ("DevOps Engineer", 95.71%float);
        ("Frontend Developer", 84.58%float);
        ("Backend Developer", 77.78%float)].
Proof.
  split; [|split; vm_compute; reflexivity].
  apply List.Forall_forall. intros m.
  unfold suggest_role_matches, extract_skills, score_ceiling, detectable.
  pose proof JOB_ROLES_monotone as Hmono. revert Hmono.
  generalize JOB_ROLES SKILL_CATEGORIES. intros roles catalog Hmono Hm.
  apply (ceiling_from roles _ _ m Hmono (findings_detectable catalog text) Hm).
Qed.

(** ** Scores 0 and 100 *)

Lemma extremes_check_spec (requirements : RoleRequirements) (a b : nat) :
  extremes_check requirements = true ->
  a <= length (required_skills requirements) ->
  b <= length (good_to_have requirements) ->
  let x := round2 (weighted (ratio a (length (required_skills requirements)))
                            (ratio b (length (good_to_have requirements)))) in
  (PrimFloat.eqb x 0 = true <-> a = 0 /\ b = 0) /\
  (PrimFloat.eqb x 100 = true <->
   a = length (required_skills requirements) /\
   b = length (good_to_have requirements)).
Proof.
  unfold extremes_check. intros Hc Ha Hb.
  rewrite forallb_forall in Hc.
  specialize (Hc (a, b) (count_pairs_In _ _ a b Ha Hb)).
  cbn [fst snd] in Hc. apply andb_true_iff in Hc as [H0 H100].
  apply eqb_prop in H0, H100. cbv zeta. rewrite H0, H100.
  rewrite !andb_true_iff, !Nat.eqb_eq. tauto.
Qed.

Lemma JOB_ROLES_extremes :
  forallb (fun entry => extremes_check (snd entry)) JOB_ROLES = true.
Proof. vm_compute. reflexivity. Qed.

Lemma none_found (F : gset string) (l : list string) :
  size (F ∩ list_to_set l) = 0 <-> forall k, In k l -> k ∉ F.
Proof.
  rewrite size_empty_iff. split.
  - intros He k Hk Hf. apply (not_elem_of_empty (C := gset string) k).
    apply He. apply elem_of_intersection. split; [exact Hf|].
    apply elem_of_list_to_set, list_elem_of_In, Hk.
  - intros Hn k. split; [|intros H; now apply not_elem_of_empty in H].
    intros Hk. apply elem_of_intersection in Hk as [Hf Hl].
    apply elem_of_list_to_set, list_elem_of_In in Hl.
    now apply Hn in Hl.
Qed.

Lemma all_found (F : gset string) (l : list string) :
  size (list_to_set l : gset string) = length l ->
  size (F ∩ list_to_set l) = length l <-> forall k, In k l -> k ∈ F.
Proof.
  intros Hsize. split.
  - intros He k Hk.
    assert (Hsub : F ∩ list_to_set l ⊆ (list_to_set l : gset string)).
    { intros y Hy. now apply elem_of_intersection in Hy as [_ Hy]. }
    apply set_subseteq_size_eq in Hsub; [|lia].
    assert (Hin : k ∈ (list_to_set l : gset string))
      by apply elem_of_list_to_set, list_elem_of_In, Hk.
    rewrite <- Hsub in Hin. now apply elem_of_intersection in Hin as [Hin _].
  - intros Hall. rewrite <- Hsize. f_equal. apply set_eq. intros k.
    rewrite elem_of_intersection, elem_of_list_to_set, list_elem_of_In.
    split; [tauto|]. intros Hk. split; [now apply Hall | exact Hk].
Qed.

Lemma extremes_from (roles : list (string * RoleRequirements))
      (skills : list Skill) (m : RoleMatch) :
  Forall (fun entry => role_regular (snd entry)) roles ->
  forallb (fun entry => extremes_check (snd entry)) roles = true ->
  In m (suggest_role_matches_from roles skills) ->
  exists requirements,
    In (role m, requirements) roles /\
    (PrimFloat.eqb (score m) 0 = true <->
     forall k, In k (required_skills requirements ++ good_to_have requirements)%list ->
               k ∉ skill_names_found skills) /\
    (PrimFloat.eqb (score m) 100 = true <->
     forall k, In k (required_skills requirements ++ good_to_have requirements)%list ->
               k ∈ skill_names_found skills).
Proof.
  intros Hreg Hext Hm.
  apply suggest_roles_member in Hm as ([r requirements] & He & Hr & ->).
  cbn [fst snd] in *. subst r. exists requirements. split; [exact He|].
  rewrite forallb_forall in Hext. specialize (Hext _ He). cbn [snd] in Hext.
  rewrite List.Forall_forall in Hreg.
  destruct (Hreg _ He) as (HR & HG). cbn [snd] in HR, HG.
  unfold role_final_score.
  destruct (extremes_check_spec requirements _ _ Hext
              (size_found_le (skill_names_found skills) (required_skills requirements))
              (size_found_le (skill_names_found skills) (good_to_have requirements)))
    as [H0 H100].
  rewrite H0, H100, !none_found, !(all_found _ _ HR), !(all_found _ _ HG).
  split; split.
  - intros [H1 H2] k Hk. apply in_app_or in Hk as [Hk|Hk]; auto.
  - intros H. split; intros k Hk; apply H, in_or_app; auto.
  - intros [H1 H2] k Hk. apply in_app_or in Hk as [Hk|Hk]; auto.
  - intros H. split; intros k Hk; apply H, in_or_app; auto.
Qed.

(** X11.  For skills with names of ASCII characters, a role's score is 0
    exactly when none of the skills the role lists, required or good to
    have, is the lowercased name [s.name.lower()] of a found skill, and 100
    exactly when each of them is. *)
Theorem score_extremes (skills : list Skill) :
  Forall (fun s => ascii_only (name s) = true) skills ->
  Forall (fun m => exists requirements,
            In (role m, requirements) JOB_ROLES /\
            (PrimFloat.eqb (score m) 0 = true <->
             forall k, In k (required_skills requirements
                             ++ good_to_have requirements)%list ->
                       ~ In k (map (fun s => lower (name s)) skills)) /\
            (PrimFloat.eqb (score m) 100 = true <->
             forall k, In k (required_skills requirements
                             ++ good_to_have requirements)%list ->
                       In k (map (fun s => lower (name s)) skills)))
         (suggest_role_matches skills).
Proof.
  intros _. apply List.Forall_forall. intros m. unfold suggest_role_matches.
  pose proof JOB_ROLES_regular as Hreg. pose proof JOB_ROLES_extremes as Hext.
  revert Hreg Hext. generalize JOB_ROLES. intros roles Hreg Hext Hm.
  destruct (extremes_from roles skills m Hreg Hext Hm)
    as (requirements & Hin & H0 & H100).
  exists requirements. split; [exact Hin|].
  rewrite H0, H100. split.
  - split; intros Hk k Hin'; specialize (Hk k Hin');
      now rewrite elem_of_skill_names_found in *.
  - split; intros Hk k Hin'; specialize (Hk k Hin');
      now rewrite elem_of_skill_names_found in *.
Qed.

Lemma score_extremes_witness :
  Forall (fun m => exists requirements,
            In (role m, requirements) JOB_ROLES /\
            (PrimFloat.eqb (score m) 0 = true <->
             forall k, In k (required_skills requirements
                             ++ good_to_have requirements)%list ->
                       ~ In k (map (fun s => lower (name s))
                                   [mkSkill "Docker" "DevOps & Cloud"])) /\
            (PrimFloat.eqb (score m) 100 = true <->
             forall k, In k (required_skills requirements
                             ++ good_to_have requirements)%list ->
                       In k (map (fun s => lower (name s))
                                 [mkSkill "Docker" "DevOps & Cloud"])))
         (suggest_role_matches [mkSkill "Docker" "DevOps & Cloud"]).
Proof.
  apply (score_extremes [mkSkill "Docker" "DevOps & Cloud"]).
  repeat constructor.
Defined.

(** ** The feedback generator: success, effort, failures *)

Lemma retry_loop_success (env : Env) (prompt : string)
      (max_retries attempt : nat) (later : list nat) (delay : nat)
      (response : option Response) (w : World) (r : Response) (text : string) :
  generate_content env (trace w) prompt = Returns r ->
  resp_text r = Returns text ->
  retry_loop env prompt max_retries (attempt :: later) delay response w
  = (Ok text, {| trace := (trace w ++ [EvGenerate prompt])%list;
                 collection := collection w |}).
Proof.
  intros Hg Ht. cbn [retry_loop]. unfold bind at 1, generate at 1.
  now rewrite Hg, Ht.
Qed.

Lemma attempt_outcome (o : Fallible Response) :
  attempt_fails o \/ exists r text, o = Returns r /\ resp_text r = Returns text.
Proof.
  destruct o as [r|]; [|now left].
  destruct (resp_text r) as [text|] eqn:Ht; [right; eauto | now left].
Qed.

(** X12.  With a configured credential, a client that configures and a
    prompt that is built, [get_personalized_feedback] returns the text of
    the first attempt that succeeds, and stops there: at once when the first
    attempt succeeds, after one pause of 1 second when the second does,
    after pauses of 1 and 2 seconds when the third does. *)
Theorem first_success_is_returned (env : Env) (analysis_data : FeedbackData)
        (key prompt : string) (w : World) :
  GEMINI_API_KEY env = Some key ->
  key <> EmptyString ->
  key <> "YOUR_GEMINI_API_KEY_GOES_HERE" ->
  genai_configure env key = Returns tt ->
  prompt_template analysis_data = Ok prompt ->
  let t0 := (trace w ++ [EvConfigure key])%list in
  let o1 := generate_content env t0 prompt in
  let t1 := (t0 ++ [EvGenerate prompt; EvSleep 1])%list in
  let o2 := generate_content env t1 prompt in
  let t2 := (t1 ++ [EvGenerate prompt; EvSleep 2])%list in
  let o3 := generate_content env t2 prompt in
  (forall r text,
      o1 = Returns r -> resp_text r = Returns text ->
      get_personalized_feedback env analysis_data w
      = (Ok text, {| trace := (t0 ++ [EvGenerate prompt])%list;
                     collection := collection w |}))
  /\ (forall r text,
         attempt_fails o1 ->
         o2 = Returns r -> resp_text r = Returns text ->
         get_personalized_feedback env analysis_data w
         = (Ok text, {| trace := (t1 ++ [EvGenerate prompt])%list;
                        collection := collection w |}))
  /\ (forall r text,
         attempt_fails o1 -> attempt_fails o2 ->
         o3 = Returns r -> resp_text r = Returns text ->
         get_personalized_feedback env analysis_data w
         = (Ok text, {| trace := (t2 ++ [EvGenerate prompt])%list;
                        collection := collection w |})).
Proof.
  intros Hkey Hne Hph Hconf Hprompt t0 o1 t1 o2 t2 o3.
  rewrite (get_personalized_feedback_configured env analysis_data key prompt)
    by assumption.
  fold t0. repeat split.
  - intros r text H1 Ht.
    now rewrite (retry_loop_success _ _ _ _ _ _ _ _ r text).
  - intros r text F1 H2 Ht.
    rewrite retry_loop_retry by (exact F1 || reflexivity). cbn [trace collection].
    now rewrite (retry_loop_success _ _ _ _ _ _ _ _ r text).
  - intros r text F1 F2 H3 Ht.
    rewrite retry_loop_retry by (exact F1 || reflexivity). cbn [trace collection].
    rewrite retry_loop_retry by (exact F2 || reflexivity). cbn [trace collection].
    now rewrite (retry_loop_success _ _ _ _ _ _ _ _ r text).
Qed.

Lemma first_success_is_returned_witness :
  get_personalized_feedback flaky_env EmptyData empty_world
  = (Ok "Learn Terraform.",
     {| trace := [EvConfigure "key-1"; EvGenerate default_prompt; EvSleep 1;
                  EvGenerate default_prompt];
        collection := [] |}).
Proof.
  destruct (first_success_is_returned flaky_env EmptyData "key-1"
              default_prompt empty_world) as (_ & H2 & _).
  - reflexivity.
  - discriminate.
  - discriminate.
  - reflexivity.
  - reflexivity.
  - apply (H2 {| resp_text := Returns "Learn Terraform.";
                 resp_candidates := Returns [Returns "STOP"] |}
              "Learn Terraform."); reflexivity.
Defined.

Lemma retry_three (env : Env) (prompt : string) (w : World) :
  exists msg evs,
    retry_loop env prompt 3 [0; 1; 2] 1 None w
    = (Ok msg, {| trace := (trace w ++ evs)%list; collection := collection w |})
    /\ In evs [ [EvGenerate prompt];
                [EvGenerate prompt; EvSleep 1; EvGenerate prompt];
                [EvGenerate prompt; EvSleep 1; EvGenerate prompt;
                 EvSleep 2; EvGenerate prompt] ].
Proof.
  destruct (attempt_outcome (generate_content env (trace w) prompt))
    as [F1 | (r & text & H1 & Ht)].
  2: { rewrite (retry_loop_success _ _ _ _ _ _ _ _ r text H1 Ht).
       eexists _, _. split; [reflexivity|]. now left. }
  rewrite retry_loop_retry by (exact F1 || reflexivity).
  match goal with |- context [retry_loop _ _ _ _ _ ?resp ?wx] =>
    set (resp1 := resp); set (w1 := wx) end.
  destruct (attempt_outcome (generate_content env (trace w1) prompt))
    as [F2 | (r & text & H2 & Ht)].
  2: { rewrite (retry_loop_success _ _ _ _ _ _ _ _ r text H2 Ht).
       eexists _, _. split.
       - unfold w1. cbn [trace collection]. rewrite <- app_assoc. reflexivity.
       - right. now left. }
  rewrite retry_loop_retry by (exact F2 || reflexivity).
  match goal with |- context [retry_loop _ _ _ _ _ ?resp ?wx] =>
    set (resp2 := resp); set (w2 := wx) end.
  destruct (attempt_outcome (generate_content env (trace w2) prompt))
    as [F3 | (r & text & H3 & Ht)].
  2: { rewrite (retry_loop_success _ _ _ _ _ _ _ _ r text H3 Ht).
       eexists _, _. split.
       - unfold w2, w1. cbn [trace collection]. rewrite <- !app_assoc.
         reflexivity.
       - right. right. now left. }
  rewrite retry_loop_give_up by (exact F3 || reflexivity).
  eexists _, _. split.
  - unfold w2, w1. cbn [trace collection]. rewrite <- !app_assoc. reflexivity.
  - right. right. now left.
Qed.

(** X13.  Whatever the collaborators do, [get_personalized_feedback] only
    adds calls to the trace (it does not touch the collection), and the
    calls it adds are none at all, or the configuration alone, or the
    configuration followed by one, two or three generation attempts on the
    same prompt with pauses of 1 and then 2 seconds between them: never more
    than three attempts, never more than 3 seconds of pause. *)
Theorem feedback_effort_is_bounded (env : Env) (analysis_data : FeedbackData)
        (w : World) :
  exists evs,
    snd (get_personalized_feedback env analysis_data w)
    = {| trace := (trace w ++ evs)%list; collection := collection w |}
    /\ (evs = [] \/ exists key prompt, In evs (feedback_runs key prompt))
    /\ generations evs <= 3
    /\ slept evs <= 3.
Proof.
  assert (Hruns : forall key prompt evs,
             In evs (feedback_runs key prompt) ->
             generations evs <= 3 /\ slept evs <= 3).
  { intros key prompt evs [<-|[<-|[<-|[<-|[]]]]]; cbn; lia. }
  assert (Hw : w = {| trace := (trace w ++ [])%list; collection := collection w |}).
  { destruct w. cbn. now rewrite app_nil_r. }
  unfold get_personalized_feedback.
  destruct (GEMINI_API_KEY env) as [key|].
  2: { exists []. cbn [snd ret]. split; [exact Hw|]. split; [now left|]. cbn. lia. }
  destruct (not_configured (Some key)).
  { exists []. cbn [snd ret]. split; [exact Hw|]. split; [now left|]. cbn. lia. }
  unfold bind at 1, emit at 1.
  destruct (genai_configure env key).
  2: { exists [EvConfigure key]. split; [reflexivity|]. split.
       - right. exists key, EmptyString. now left.
       - cbn. lia. }
  destruct (prompt_template analysis_data) as [prompt|e].
  2: { exists [EvConfigure key]. split; [reflexivity|]. split.
       - right. exists key, EmptyString. now left.
       - cbn. lia. }
  cbn [seq].
  destruct (retry_three env prompt
              {| trace := (trace w ++ [EvConfigure key])%list;
                 collection := collection w |}) as (msg & evs & -> & Hin).
  exists (EvConfigure key :: evs). cbn [snd trace collection].
  rewrite <- app_assoc. split; [reflexivity|].
  assert (Hrun : In (EvConfigure key :: evs) (feedback_runs key prompt)).
  { unfold feedback_runs.
    destruct Hin as [<-|[<-|[<-|[]]]]; cbn; tauto. }
  split; [right; now exists key, prompt|]. now apply (Hruns key prompt).
Qed.

(** X14.  The two ways [get_personalized_feedback] fails without trying a
    generation.  When the client cannot be configured, it returns the fixed
    "could not configure" string after the configuration call alone.  It
    raises exactly when the service is configured and the analysis data
    carries an empty list of experience keywords: the exception is then the
    [IndexError] of [experience_keywords[0]], raised after the configuration
    call and before any generation call. *)
Theorem feedback_failure_modes (env : Env) (analysis_data : FeedbackData)
        (w : World) :
  (forall key,
      GEMINI_API_KEY env = Some key ->
      not_configured (Some key) = false ->
      genai_configure env key = Raises ->
      get_personalized_feedback env analysis_data w
      = (Ok "Error: Could not configure AI feedback service.",
         {| trace := (trace w ++ [EvConfigure key])%list;
            collection := collection w |}))
  /\ (forall e,
         fst (get_personalized_feedback env analysis_data w) = Raise e <->
         e = IndexError
         /\ (exists key,
                GEMINI_API_KEY env = Some key /\
                not_configured (Some key) = false /\
                genai_configure env key = Returns tt /\
                snd (get_personalized_feedback env analysis_data w)
                = {| trace := (trace w ++ [EvConfigure key])%list;
                     collection := collection w |})
         /\ (exists a total_skills, analysis_data = GapData a total_skills [])).
Proof.
  split.
  - intros key Hkey Hnc Hconf. unfold get_personalized_feedback.
    rewrite Hkey, Hnc. unfold bind at 1, emit at 1. now rewrite Hconf.
  - intros e. unfold get_personalized_feedback.
    destruct (GEMINI_API_KEY env) as [key|].
    2: { cbn [fst snd ret]. split; [discriminate|]. now intros (_ & (k & Hk & _) & _). }
    destruct (not_configured (Some key)) eqn:Hnc.
    { cbn [fst snd ret]. split; [discriminate|].
      intros (_ & (k & [= <-] & Hk & _) & _). congruence. }
    unfold bind at 1 2, emit.
    destruct (genai_configure env key) as [[]|] eqn:Hconf.
    2: { cbn [fst snd ret]. split; [discriminate|].
         intros (_ & (k & [= <-] & _ & Hk & _) & _). congruence. }
    destruct analysis_data as [|a total_skills [|keyword keywords]];
      cbn [prompt_template].
    + destruct (retry_loop_returns env
                  (prompt_text "N/A" (join_or_none []) (join_or_none [])
                     (join_or_none []) (string_of_nat 0) "...")
                  3 (seq 0 3) 1 None
                  {| trace := (trace w ++ [EvConfigure key])%list;
                     collection := collection w |}) as (msg & w' & -> & _).
      cbn [fst snd]. split; [discriminate|]. now intros (_ & _ & (a & n & Hd)).
    + cbn [fst snd raise]. split.
      * intros [= <-]. split; [reflexivity|]. split; [|eauto].
        exists key. auto.
      * now intros (-> & _).
    + destruct (retry_loop_returns env
                  (prompt_text (tra_role a)
                     (join_or_none (tra_required_found a))
                     (join_or_none (tra_required_missing a))
                     (join_or_none (tra_good_to_have_missing a))
                     (string_of_nat total_skills) keyword)
                  3 (seq 0 3) 1 None
                  {| trace := (trace w ++ [EvConfigure key])%list;
                     collection := collection w |}) as (msg & w' & -> & _).
      cbn [fst snd]. split; [discriminate|]. now intros (_ & _ & (a' & n & Hd)).
Qed.

(** ** Stripping and reversing *)

Lemma string_forall_app (p : ascii -> bool) (a b : string) :
  string_forall p (a ++ b) = string_forall p a && string_forall p b.
Proof.
  induction a as [|x a IH]; cbn [String.append string_forall]; [reflexivity|].
  now rewrite IH, andb_assoc.
Qed.

Lemma string_rev_onto_app (s acc : string) :
  string_rev_onto s acc = string_rev s ++ acc.
Proof.
  unfold string_rev. revert acc.
  induction s as [|x s IH]; intros acc; cbn [string_rev_onto]; [reflexivity|].
  rewrite IH, (IH (String x EmptyString)), append_assoc. reflexivity.
Qed.

Lemma string_rev_cons (x : ascii) (s : string) :
  string_rev (String x s) = string_rev s ++ String x EmptyString.
Proof. unfold string_rev at 1. cbn [string_rev_onto]. apply string_rev_onto_app. Qed.

Lemma string_rev_app (a b : string) :
  string_rev (a ++ b) = string_rev b ++ string_rev a.
Proof.
  induction a as [|x a IH]; cbn [String.append].
  - now rewrite append_empty_r.
  - now rewrite !string_rev_cons, IH, append_assoc.
Qed.

Lemma string_rev_involutive (s : string) : string_rev (string_rev s) = s.
Proof.
  induction s as [|x s IH]; [reflexivity|].
  now rewrite string_rev_cons, string_rev_app, IH.
Qed.

Lemma string_rev_length (s : string) :
  String.length (string_rev s) = String.length s.
Proof.
  induction s as [|x s IH]; [reflexivity|].
  rewrite string_rev_cons, length_append, IH. cbn. lia.
Qed.

Lemma string_forall_rev (p : ascii -> bool) (s : string) :
  string_forall p (string_rev s) = string_forall p s.
Proof.
  induction s as [|x s IH]; [reflexivity|].
  rewrite string_rev_cons, string_forall_app, IH. cbn [string_forall].
  now rewrite andb_true_r, andb_comm.
Qed.

Lemma first_char_rev (s : string) : first_char (string_rev s) = last_char s.
Proof.
  induction s as [|x s IH]; [reflexivity|].
  rewrite string_rev_cons, first_char_app, IH, last_char_cons.
  unfold before_after. now destruct (last_char s).
Qed.

Lemma last_char_rev (s : string) : last_char (string_rev s) = first_char s.
Proof.
  now rewrite <- first_char_rev, string_rev_involutive.
Qed.

(** [lstrip] removes a run of blanks from the front. *)
Lemma lstrip_split (s : string) :
  exists t, s = t ++ lstrip s /\ string_forall is_space t = true.
Proof.
  induction s as [|x s (t & Hs & Ht)]; cbn [lstrip].
  - now exists EmptyString.
  - destruct (is_space x) eqn:Hx.
    + exists (String x t). cbn [String.append string_forall].
      rewrite Hx, Ht. split; [now f_equal | reflexivity].
    + now exists EmptyString.
Qed.

Lemma lstrip_first (s : string) (a : ascii) :
  first_char (lstrip s) = Some a -> is_space a = false.
Proof.
  induction s as [|x s IH]; cbn [lstrip]; [discriminate|].
  destruct (is_space x) eqn:Hx; [exact IH|].
  cbn. now intros [= <-].
Qed.

Lemma lstrip_fixed (s : string) :
  match first_char s with Some a => is_space a = false | None => True end ->
  lstrip s = s.
Proof. destruct s as [|x s]; cbn; [reflexivity|]. now intros ->. Qed.

(** Before a text that does not start with a blank, [lstrip] only sees the
    front. *)
Lemma lstrip_app (a z : string) (c : ascii) :
  first_char z = Some c -> is_space c = false ->
  lstrip (a ++ z) = lstrip a ++ z.
Proof.
  intros Hz Hc. induction a as [|x a IH]; cbn [String.append lstrip].
  - apply lstrip_fixed. now rewrite Hz.
  - destruct (is_space x); [exact IH | reflexivity].
Qed.

Lemma rstrip_app (z b : string) (c : ascii) :
  last_char z = Some c -> is_space c = false ->
  rstrip (z ++ b) = z ++ rstrip b.
Proof.
  intros Hz Hc. unfold rstrip.
  rewrite string_rev_app, (lstrip_app _ _ c), string_rev_app,
          string_rev_involutive; [reflexivity | | exact Hc].
  now rewrite first_char_rev.
Qed.

Lemma rstrip_split (s : string) :
  exists t, s = rstrip s ++ t /\ string_forall is_space t = true.
Proof.
  unfold rstrip. destruct (lstrip_split (string_rev s)) as (t & Hs & Ht).
  exists (string_rev t). split; [|now rewrite string_forall_rev].
  rewrite <- string_rev_app, <- Hs. now rewrite string_rev_involutive.
Qed.

Lemma rstrip_last (s : string) (a : ascii) :
  last_char (rstrip s) = Some a -> is_space a = false.
Proof.
  unfold rstrip. rewrite last_char_rev. apply lstrip_first.
Qed.

Lemma rstrip_fixed (s : string) :
  match last_char s with Some a => is_space a = false | None => True end ->
  rstrip s = s.
Proof.
  intros H. unfold rstrip. rewrite lstrip_fixed, string_rev_involutive;
    [reflexivity|]. now rewrite first_char_rev.
Qed.

Lemma lstrip_length (s : string) : String.length (lstrip s) <= String.length s.
Proof.
  destruct (lstrip_split s) as (t & Hs & _).
  rewrite Hs at 2. rewrite length_append. lia.
Qed.

Lemma rstrip_length (s : string) : String.length (rstrip s) <= String.length s.
Proof.
  destruct (rstrip_split s) as (t & Hs & _).
  rewrite Hs at 2. rewrite length_append. lia.
Qed.

Lemma lstrip_forall (p : ascii -> bool) (s : string) :
  string_forall p s = true -> string_forall p (lstrip s) = true.
Proof.
  destruct (lstrip_split s) as (t & Hs & _). intros H.
  rewrite Hs, string_forall_app in H. now apply andb_true_iff in H as [_ H].
Qed.

Lemma rstrip_forall (p : ascii -> bool) (s : string) :
  string_forall p s = true -> string_forall p (rstrip s) = true.
Proof.
  destruct (rstrip_split s) as (t & Hs & _). intros H.
  rewrite Hs, string_forall_app in H. now apply andb_true_iff in H as [H _].
Qed.

(** The result of [strip] has no blank at either end. *)
Lemma strip_edges (s : string) :
  match first_char (strip s) with Some a => is_space a = false | None => True end
  /\ match last_char (strip s) with Some a => is_space a = false | None => True end.
Proof.
  unfold strip. split.
  - destruct (rstrip_split (lstrip s)) as (t & Hs & _).
    destruct (rstrip (lstrip s)) as [|x r] eqn:Hr; [exact I|].
    cbn [first_char]. apply (lstrip_first s). rewrite Hs. reflexivity.
  - destruct (last_char (rstrip (lstrip s))) as [a|] eqn:Hl; [|exact I].
    now apply rstrip_last in Hl.
Qed.

Lemma strip_fixed (s : string) :
  match first_char s with Some a => is_space a = false | None => True end ->
  match last_char s with Some a => is_space a = false | None => True end ->
  strip s = s.
Proof.
  intros Hf Hl. unfold strip. rewrite (lstrip_fixed s Hf). now apply rstrip_fixed.
Qed.

Lemma strip_idem (s : string) : strip (strip s) = strip s.
Proof. destruct (strip_edges s). now apply strip_fixed. Qed.

(** Around a word that has no blank at either end, [strip] works on the
    two sides. *)
Lemma strip_around (a w b : string) (x y : ascii) :
  first_char w = Some x -> is_space x = false ->
  last_char w = Some y -> is_space y = false ->
  strip (a ++ w ++ b) = lstrip a ++ w ++ rstrip b.
Proof.
  intros Hx Hsx Hy Hsy. unfold strip.
  rewrite (lstrip_app a (w ++ b) x); [|now rewrite first_char_app, Hx | exact Hsx].
  rewrite <- !append_assoc.
  apply (rstrip_app (lstrip a ++ w) b y); [|exact Hsy].
  rewrite last_char_app. unfold before_after. now rewrite Hy.
Qed.

Lemma replace_newlines_app (a b : string) :
  replace_newlines (a ++ b) = replace_newlines a ++ replace_newlines b.
Proof.
  induction a as [|x a IH]; cbn [String.append replace_newlines];
    [reflexivity | now rewrite IH].
Qed.

Lemma replace_newlines_length (s : string) :
  String.length (replace_newlines s) = String.length s.
Proof. induction s as [|x s IH]; cbn; [reflexivity | now rewrite IH]. Qed.

Lemma replace_newlines_forall (s : string) :
  string_forall not_newline (replace_newlines s) = true.
Proof.
  induction s as [|x s IH]; [reflexivity|].
  cbn [replace_newlines string_forall]. rewrite IH, andb_true_r.
  unfold not_newline. destruct (Ascii.eqb_spec x "010"); [reflexivity|].
  now apply negb_true_iff, Ascii.eqb_neq.
Qed.

Lemma replace_newlines_fixed (s : string) :
  string_forall not_newline s = true -> replace_newlines s = s.
Proof.
  induction s as [|x s IH]; [reflexivity|].
  cbn [replace_newlines string_forall]. intros H.
  apply andb_true_iff in H as [Hx Hs]. rewrite (IH Hs).
  unfold not_newline in Hx. apply negb_true_iff in Hx. now rewrite Hx.
Qed.

Lemma substring_prefix (x y : string) :
  substring 0 (String.length x) (x ++ y) = x.
Proof. induction x as [|c x IH]; cbn; [now destruct y | now rewrite IH]. Qed.

(** The slice that covers [x] in [p ++ x ++ y]. *)
Lemma slice_middle (p x y : string) :
  slice (p ++ x ++ y) (String.length p) (String.length p + String.length x) = x.
Proof.
  unfold slice.
  replace (String.length p + String.length x - String.length p)
    with (String.length x) by lia.
  rewrite substring_skip. apply substring_prefix.
Qed.

(** ** The words read by a match *)

Lemma re_matches_lang (r : Re.re) (c c' : Re.cursor) :
  re_matches r c c' -> exists m, reads c m c' /\ lang r m.
Proof.
  induction 1; cbn [lang].
  - exists EmptyString. split; [apply reads_refl | reflexivity].
  - exists (String a EmptyString). split; [apply reads_char | eauto].
  - destruct IHre_matches1 as (m1 & R1 & L1), IHre_matches2 as (m2 & R2 & L2).
    exists (m1 ++ m2). split; [now apply reads_trans with c1 | eauto].
  - destruct IHre_matches as (m & R & L). eauto.
  - destruct IHre_matches as (m & R & L). eauto.
  - exists EmptyString. split; [apply reads_refl | reflexivity].
  - destruct IHre_matches as (m & R & L). exists (String a m). split.
    + apply (reads_trans _ _ _ (String a EmptyString) m (reads_char b n a s) R).
    + cbn [lang] in L. cbn [string_forall]. now rewrite H, L.
  - exists EmptyString. split; [apply reads_refl | reflexivity].
Qed.

Lemma all_chars_In (a : ascii) : In a all_chars.
Proof.
  unfold all_chars. apply in_map_iff. exists (nat_of_ascii a).
  split; [apply ascii_nat_embedding|]. apply in_seq.
  pose proof (nat_ascii_bounded a). lia.
Qed.

(** Lowercased, a word of a pattern without repetition is in the list
    [lowered_language] computes. *)
Lemma lang_lowered (r : Re.re) (m : string) :
  star_free r = true -> lang r m -> In (lower m) (lowered_language r).
Proof.
  revert m. induction r as [|p|r1 IH1 r2 IH2|r1 IH1 r2 IH2|p|];
    intros m Hs; cbn [lang lowered_language star_free] in *.
  - intros ->. now left.
  - intros (a & -> & Hp). apply nodup_In, in_map_iff. exists a.
    split; [reflexivity|]. apply filter_In. split; [apply all_chars_In | exact Hp].
  - apply andb_true_iff in Hs as [Hs1 Hs2].
    intros (m1 & m2 & -> & L1 & L2). apply in_flat_map.
    exists (lower m1). split; [now apply IH1|].
    apply in_map_iff. exists (lower m2). split; [now rewrite lower_app|].
    now apply IH2.
  - apply andb_true_iff in Hs as [Hs1 Hs2].
    intros [L|L]; apply in_or_app; [left; now apply IH1 | right; now apply IH2].
  - discriminate.
  - intros ->. now left.
Qed.

Lemma lang_Liti (w m : string) : lang (Re.Liti w) m -> lower m = lower w.
Proof.
  revert m. induction w as [|x w IH]; intros m; cbn [Re.Liti lang].
  - now intros ->.
  - intros (m1 & m2 & -> & (a & -> & Ha) & L2).
    apply Ascii.eqb_eq in Ha. cbn [String.append lower].
    now rewrite Ha, (IH m2 L2).
Qed.

Lemma lower_length (s : string) : String.length (lower s) = String.length s.
Proof. induction s as [|x s IH]; cbn; [reflexivity | now rewrite IH]. Qed.

(** ** The spans of [re.finditer] *)

(** Every span [Re.finditer_from] returns starts after a prefix of the
    text and ends where [Re.match_at] says. *)
Lemma finditer_from_sound (r : Re.re) (s : list ascii) (b : option ascii)
      (n skip : nat) (span : nat * nat) :
  In span (Re.finditer_from r b n s skip) ->
  exists pre post,
    s = (list_ascii_of_string pre ++ post)%list /\
    fst span = n + String.length pre /\
    Re.match_at r (Re.Cursor (before_after b pre) (n + String.length pre) post)
    = Some (snd span).
Proof.
  revert b n skip. induction s as [|a s IH]; intros b n skip;
    cbn [Re.finditer_from].
  - destruct skip; [|intros []].
    destruct (Re.match_at r (Re.Cursor b n [])) eqn:Hm; [|intros []].
    intros [<-|[]]. exists EmptyString, []. cbn. rewrite Nat.add_0_r. auto.
  - assert (Hnext : forall k,
               In span (Re.finditer_from r (Some a) (S n) s k) ->
               exists pre post,
                 a :: s = (list_ascii_of_string pre ++ post)%list /\
                 fst span = n + String.length pre /\
                 Re.match_at r (Re.Cursor (before_after b pre)
                                          (n + String.length pre) post)
                 = Some (snd span)).
    { intros k H. apply IH in H as (pre & post & -> & Hi & H).
      exists (String a pre), post. cbn [list_ascii_of_string String.length].
      rewrite before_after_cons, Nat.add_succ_r. auto. }
    destruct skip as [|k]; [|apply Hnext].
    destruct (Re.match_at r (Re.Cursor b n (a :: s))) eqn:Hm; [|apply Hnext].
    intros [<-|H]; [|now apply Hnext in H].
    exists EmptyString, (a :: s). cbn. rewrite Nat.add_0_r. auto.
Qed.

(** A position where the pattern matches is the start of a span of
    [Re.finditer_from], unless it lies inside an earlier span. *)
Lemma finditer_from_covers (r : Re.re) (pre : string) (post : list ascii)
      (b : option ascii) (n skip e : nat) :
  skip <= String.length pre ->
  Re.match_at r (Re.Cursor (before_after b pre) (n + String.length pre) post)
  = Some e ->
  let spans := Re.finditer_from r b n (list_ascii_of_string pre ++ post)%list skip in
  In (n + String.length pre, e) spans \/
  exists span, In span spans /\
               fst span < n + String.length pre < snd span.
Proof.
  revert b n skip. induction pre as [|a pre IH]; intros b n skip Hskip Hm.
  - cbn [String.length] in *. assert (skip = 0) as -> by lia.
    rewrite Nat.add_0_r in *. unfold before_after in Hm. cbn [last_char] in Hm.
    left. cbn [list_ascii_of_string app].
    destruct post as [|x post]; cbn [Re.finditer_from]; rewrite Hm; now left.
  - cbn [String.length] in *. rewrite before_after_cons in Hm.
    replace (n + S (String.length pre)) with (S n + String.length pre) in * by lia.
    cbn [list_ascii_of_string app Re.finditer_from]. cbv zeta.
    destruct skip as [|k].
    + destruct (Re.match_at r (Re.Cursor b n _)) as [e0|] eqn:H0.
      * destruct (Nat.le_gt_cases (e0 - n - 1) (String.length pre)) as [Hle|Hgt].
        -- destruct (IH (Some a) (S n) (e0 - n - 1) Hle Hm) as [H|(sp & H & Hsp)].
           ++ left. now right.
           ++ right. exists sp. split; [now right | exact Hsp].
        -- right. exists (n, e0). split; [now left|]. cbn [fst snd]. lia.
      * destruct (IH (Some a) (S n) 0 ltac:(lia) Hm) as [H|(sp & H & Hsp)].
        -- now left.
        -- right. now exists sp.
    + destruct (IH (Some a) (S n) k ltac:(lia) Hm) as [H|(sp & H & Hsp)].
      * now left.
      * right. now exists sp.
Qed.

(** The spans of [Re.finditer] on a text, as positions of the text. *)
Lemma finditer_sound (r : Re.re) (text : string) (span : nat * nat) :
  In span (Re.finditer r text) ->
  exists pre word post,
    text = pre ++ word ++ post /\
    span = (String.length pre, String.length pre + String.length word) /\
    lang r word /\
    re_matches r (cursor_at pre (word ++ post))
                 (cursor_at (pre ++ word) post).
Proof.
  unfold Re.finditer. intros H.
  apply finditer_from_sound in H as (pre & rest & Ht & Hi & Hm).
  rewrite before_after_None in Hm. cbn [Nat.add] in Hm, Hi.
  apply match_at_sound in Hm as (c' & Hm & He).
  destruct (re_matches_lang _ _ _ Hm) as (word & Hr & Hl).
  pose proof Hr as (Hrest & Hpos & _). cbn [Re.rest Re.pos] in Hrest, Hpos.
  exists pre, word, (string_of_list_ascii (Re.rest c')).
  assert (Et : text = pre ++ word ++ string_of_list_ascii (Re.rest c')).
  { rewrite <- (string_of_list_ascii_of_string text), Ht, Hrest.
    rewrite <- (list_ascii_of_string_of_list_ascii (Re.rest c')) at 1.
    now rewrite <- !list_ascii_app, string_of_list_ascii_of_string. }
  split; [exact Et|]. split; [|split; [exact Hl|]].
  - destruct span as [i j]. cbn [fst snd] in *. f_equal; lia.
  - rewrite Hrest in Hm, Hr. apply reads_cursor_at in Hr.
    unfold cursor_at. rewrite list_ascii_app, !list_ascii_of_string_of_list_ascii.
    now rewrite <- Hr.
Qed.

(** ** The snippets of [analyze_education] *)

Lemma substring_length_le (s : string) (k : nat) :
  k <= String.length s -> String.length (substring 0 k s) = k.
Proof.
  revert k. induction s as [|x s IH]; intros k Hk; cbn in *.
  - destruct k; [reflexivity | lia].
  - destruct k as [|k]; [reflexivity|]. cbn. f_equal. apply IH. lia.
Qed.

Lemma substring_over (s : string) (k m : nat) :
  String.length s - k <= m ->
  substring k m s = substring k (String.length s - k) s.
Proof.
  revert k m. induction s as [|x s IH]; intros k m H; cbn in *.
  - now destruct k, m.
  - destruct k as [|k].
    + destruct m as [|m]; [lia|]. cbn. f_equal.
      rewrite (IH 0 m) by lia. rewrite (IH 0 (String.length s)) by lia.
      reflexivity.
    + apply IH. lia.
Qed.

Lemma last_n_split (n : nat) (s : string) :
  s = substring 0 (String.length s - n) s ++ last_n n s.
Proof.
  unfold last_n. rewrite (substring_over s (String.length s - n) n) by lia.
  apply substring_split. lia.
Qed.

Lemma first_n_split (n : nat) (s : string) :
  s = first_n n s ++ substring (Nat.min n (String.length s))
                               (String.length s - Nat.min n (String.length s)) s.
Proof.
  unfold first_n.
  destruct (Nat.le_gt_cases n (String.length s)) as [Hle|Hgt].
  - rewrite Nat.min_l by lia. apply substring_split. lia.
  - rewrite Nat.min_r by lia. rewrite (substring_over s 0 n) by lia.
    rewrite Nat.sub_0_r. apply substring_split. lia.
Qed.

Lemma last_n_length (n : nat) (s : string) :
  String.length (last_n n s) = Nat.min n (String.length s).
Proof.
  pose proof (last_n_split n s) as H. apply (f_equal String.length) in H.
  rewrite length_append, substring_length_le in H by lia. lia.
Qed.

Lemma first_n_length (n : nat) (s : string) :
  String.length (first_n n s) = Nat.min n (String.length s).
Proof.
  unfold first_n.
  destruct (Nat.le_gt_cases n (String.length s)) as [Hle|Hgt].
  - rewrite Nat.min_l by lia. now apply substring_length_le.
  - rewrite Nat.min_r by lia. rewrite (substring_over s 0 n) by lia.
    rewrite Nat.sub_0_r, substring_all. reflexivity.
Qed.

(** The slice [analyze_education] cuts around a span. *)
Lemma context_slice (pre word post : string) :
  slice (pre ++ word ++ post)
        (Nat.max 0 (String.length pre - 30))
        (Nat.min (String.length (pre ++ word ++ post))
                 (String.length pre + String.length word + 30))
  = last_n 30 pre ++ word ++ first_n 30 post.
Proof.
  pose proof (last_n_split 30 pre) as Hpre.
  pose proof (first_n_split 30 post) as Hpost.
  pose proof (last_n_length 30 pre) as La.
  pose proof (first_n_length 30 post) as Lb.
  set (a := last_n 30 pre) in *. set (b := first_n 30 post) in *.
  set (pre0 := substring 0 (String.length pre - 30) pre) in *.
  set (post1 := substring _ _ post) in *.
  assert (L0 : String.length pre0 = String.length pre - 30)
    by (apply substring_length_le; lia).
  assert (Lpre : String.length pre = String.length pre0 + String.length a)
    by (rewrite Hpre at 1; apply length_append).
  assert (Lpost : String.length post = String.length b + String.length post1)
    by (rewrite Hpost at 1; apply length_append).
  rewrite !length_append.
  replace (Nat.max 0 (String.length pre - 30)) with (String.length pre0) by lia.
  replace (Nat.min _ _)
    with (String.length pre0 + String.length (a ++ word ++ b))
    by (rewrite !length_append; lia).
  rewrite Hpre at 1. rewrite Hpost at 1.
  replace ((pre0 ++ a) ++ word ++ b ++ post1)
    with (pre0 ++ (a ++ word ++ b) ++ post1)
    by (now rewrite !append_assoc).
  apply slice_middle.
Qed.

Lemma is_space_lower (c : ascii) : is_space (lower_char c) = is_space c.
Proof. destruct c as [[] [] [] [] [] [] [] []]; vm_compute; reflexivity. Qed.

Lemma not_newline_lower (c : ascii) : not_newline (lower_char c) = not_newline c.
Proof. destruct c as [[] [] [] [] [] [] [] []]; vm_compute; reflexivity. Qed.

Lemma string_forall_lower (s : string) :
  string_forall not_newline (lower s) = string_forall not_newline s.
Proof.
  induction s as [|x s IH]; [reflexivity|].
  cbn [lower string_forall]. now rewrite not_newline_lower, IH.
Qed.

(** What [keyword_shape] of the lowercased word says of the word. *)
Lemma keyword_shape_spec (word : string) :
  keyword_shape (lower word) = true ->
  string_forall not_newline word = true
  /\ (exists x, first_char word = Some x /\ is_space x = false)
  /\ (exists y, last_char word = Some y /\ is_space y = false)
  /\ String.length word <= 23.
Proof.
  unfold keyword_shape. rewrite !andb_true_iff.
  rewrite string_forall_lower, first_char_lower, last_char_lower, lower_length.
  intros [[[Hn Hf] Hl] Hlen]. split; [exact Hn|]. repeat split.
  - destruct (first_char word) as [x|]; [|discriminate]. exists x.
    cbn in Hf. rewrite is_space_lower in Hf. now apply negb_true_iff in Hf.
  - destruct (last_char word) as [y|]; [|discriminate]. exists y.
    cbn in Hl. rewrite is_space_lower in Hl. now apply negb_true_iff in Hl.
  - now apply Nat.leb_le.
Qed.

Lemma context_snippet_around (pre word post : string) :
  keyword_shape (lower word) = true ->
  context_snippet (pre ++ word ++ post)
                  (String.length pre, String.length pre + String.length word)
  = snippet_around pre word post.
Proof.
  intros Hk.
  apply keyword_shape_spec in Hk as (Hn & (x & Hx & Hsx) & (y & Hy & Hsy) & _).
  unfold context_snippet, snippet_around. cbn [fst snd].
  rewrite context_slice, !replace_newlines_app, (replace_newlines_fixed word Hn).
  now apply (strip_around _ _ _ x y).
Qed.

Lemma snippet_around_length (pre word post : string) :
  String.length (snippet_around pre word post) <= 30 + String.length word + 30.
Proof.
  unfold snippet_around. rewrite !length_append.
  pose proof (lstrip_length (replace_newlines (last_n 30 pre))) as H1.
  pose proof (rstrip_length (replace_newlines (first_n 30 post))) as H2.
  rewrite replace_newlines_length, last_n_length in H1.
  rewrite replace_newlines_length, first_n_length in H2. lia.
Qed.

Lemma strip_forall (p : ascii -> bool) (s : string) :
  string_forall p s = true -> string_forall p (strip s) = true.
Proof. intros H. unfold strip. now apply rstrip_forall, lstrip_forall. Qed.

Lemma matches_whole_word (r : Re.re) (c c' : Re.cursor) :
  re_matches (whole_word r) c c' ->
  Re.at_boundary c = true /\ Re.at_boundary c' = true.
Proof.
  unfold whole_word. intros H.
  apply matches_Seq_inv in H as (c1 & H1 & H).
  apply matches_WordB_inv in H1 as [-> Hb].
  apply matches_Seq_inv in H as (c2 & _ & H).
  apply matches_WordB_inv in H as [-> He]. now split.
Qed.

Lemma education_keywords_whole (pattern : Re.re) :
  In pattern education_keywords -> exists r, pattern = whole_word r.
Proof.
  unfold education_keywords.
  intros [<-|[<-|[<-|[<-|[<-|[<-|[<-|[<-|[]]]]]]]]]; eexists; reflexivity.
Qed.

Lemma education_keywords_words (pattern : Re.re) (word : string) :
  In pattern education_keywords -> lang pattern word ->
  In (lower word) education_words /\ keyword_shape (lower word) = true.
Proof.
  intros Hp Hl.
  assert (Hfree : forallb star_free education_keywords = true)
    by (vm_compute; reflexivity).
  assert (Hwords : forallb (fun w => existsb (String.eqb w) education_words
                                     && keyword_shape w)
                           (flat_map lowered_language education_keywords) = true)
    by (vm_compute; reflexivity).
  rewrite forallb_forall in Hfree, Hwords.
  specialize (Hwords (lower word)).
  assert (Hin : In (lower word) (flat_map lowered_language education_keywords)).
  { apply in_flat_map. exists pattern. split; [exact Hp|].
    apply lang_lowered; [now apply Hfree | exact Hl]. }
  apply Hwords, andb_true_iff in Hin as [Hw Hs]. split; [|exact Hs].
  apply existsb_exists in Hw as (w & Hw & E). apply String.eqb_eq in E.
  now subst.
Qed.

(** X15.  Every snippet [analyze_education] returns for a text of ASCII
    characters is cut around an
    education keyword of the text: the text holds, between two word
    boundaries, a word that is, in lower case, one of the 45 keywords the
    patterns admit, and the snippet is that word with up to 30 characters of
    context on each side, newlines turned into blanks and the blanks at the
    two ends removed.  So a snippet has at most 83 characters, no newline,
    no blank at either end; and no snippet is listed twice. *)
Theorem education_snippets_hold_a_keyword `{HashOrder} (text : string) :
  ascii_only text = true ->
  Forall (fun s => exists pre word post,
            text = pre ++ word ++ post /\
            In (lower word) education_words /\
            word_boundary pre (word ++ post) = true /\
            word_boundary (pre ++ word) post = true /\
            s = snippet_around pre word post)
         (analyze_education text)
  /\ Forall (fun s => String.length s <= 83 /\
                      strip s = s /\
                      string_forall not_newline s = true)
            (analyze_education text)
  /\ List.NoDup (analyze_education text).
Proof.
  intros _.
  assert (Hshape : forall s, In s (analyze_education text) ->
            exists pre word post,
              text = pre ++ word ++ post /\
              In (lower word) education_words /\
              keyword_shape (lower word) = true /\
              word_boundary pre (word ++ post) = true /\
              word_boundary (pre ++ word) post = true /\
              s = snippet_around pre word post).
  { intros s Hs. unfold analyze_education in Hs.
    apply (proj1 (list_of_set_In _ _)) in Hs.
    apply in_flat_map in Hs as (pattern & Hp & Hs).
    apply in_map_iff in Hs as (span & <- & Hspan).
    apply finditer_sound in Hspan as (pre & word & post & Ht & -> & Hl & Hm).
    destruct (education_keywords_words pattern word Hp Hl) as [Hw Hk].
    destruct (education_keywords_whole pattern Hp) as [r ->].
    apply matches_whole_word in Hm as [Hb He].
    rewrite at_boundary_cursor_at in Hb, He.
    exists pre, word, post. repeat split; try assumption.
    rewrite Ht. now apply context_snippet_around. }
  split; [|split].
  - apply List.Forall_forall. intros s Hs.
    destruct (Hshape s Hs) as (pre & word & post & Ht & Hw & _ & Hb & He & E).
    now exists pre, word, post.
  - apply List.Forall_forall. intros s Hs.
    destruct (Hshape s Hs) as (pre & word & post & _ & _ & Hk & _ & _ & E).
    apply keyword_shape_spec in Hk as (_ & _ & _ & Hlen).
    split; [|split].
    + pose proof (snippet_around_length pre word post). subst s. lia.
    + unfold analyze_education in Hs.
      apply (proj1 (list_of_set_In _ _)) in Hs.
      apply in_flat_map in Hs as (pattern & _ & Hs).
      apply in_map_iff in Hs as (span & <- & _).
      unfold context_snippet. apply strip_idem.
    + unfold analyze_education in Hs.
      apply (proj1 (list_of_set_In _ _)) in Hs.
      apply in_flat_map in Hs as (pattern & _ & Hs).
      apply in_map_iff in Hs as (span & <- & _).
      unfold context_snippet. apply strip_forall, replace_newlines_forall.
  - apply list_of_set_NoDup.
Qed.

Lemma education_snippets_hold_a_keyword_witness :
  List.NoDup
    (analyze_education (H := insertion_order)
       "B.Sc, Stanford University (2019); M.S., Boston College").
Proof.
  apply (education_snippets_hold_a_keyword (H := insertion_order)
           "B.Sc, Stanford University (2019); M.S., Boston College").
  reflexivity.
Defined.

(** ** An education keyword that stands alone is reported *)

Lemma lower_empty (m : string) : lower m = EmptyString -> m = EmptyString.
Proof. destruct m; [reflexivity | discriminate]. Qed.

Lemma matches_Liti_intro (w m : string) (b : option ascii) (n : nat)
      (rest : list ascii) :
  lower m = lower w ->
  re_matches (Re.Liti w)
             (Re.Cursor b n (list_ascii_of_string m ++ rest)%list)
             (Re.Cursor (before_after b m) (n + String.length m) rest).
Proof.
  revert m b n. induction w as [|x w IH]; intros m b n Hm; cbn [Re.Liti].
  - apply lower_empty in Hm. subst m. cbn. rewrite Nat.add_0_r. constructor.
  - destruct m as [|a m]; [discriminate|]. cbn [lower] in Hm.
    injection Hm as Ha Hm.
    cbn [list_ascii_of_string app String.length].
    rewrite before_after_cons, Nat.add_succ_r.
    apply matches_Seq with (Re.Cursor (Some a) (S n) (list_ascii_of_string m ++ rest)%list).
    + unfold Re.Lit1i. apply matches_Chr. now apply Ascii.eqb_eq.
    + now apply IH.
Qed.

Lemma get_lower (s : string) (k : nat) :
  String.get k (lower s) = option_map lower_char (String.get k s).
Proof.
  revert k. induction s as [|x s IH]; intros k; [reflexivity|].
  destruct k; cbn; [reflexivity | apply IH].
Qed.

Lemma get_middle (p w q : string) (k : nat) :
  k < String.length w ->
  String.get (String.length p + k) (p ++ w ++ q) = String.get k w.
Proof.
  intros Hk. rewrite Nat.add_comm, <- append_correct2.
  symmetry. now apply append_correct1.
Qed.



Lemma get_in_range (s : string) (k : nat) :
  k < String.length s -> exists a, String.get k s = Some a.
Proof.
  revert k. induction s as [|x s IH]; intros k Hk; cbn in *; [lia|].
  destruct k; [eauto|]. apply IH. lia.
Qed.

(** Two occurrences of a borderless word, read without regard to case,
    do not overlap. *)
Lemma borderless_no_overlap (W text : string) (i p : nat) :
  borderless W = true ->
  (forall k, k < String.length W ->
             String.get (i + k) (lower text) = String.get k W) ->
  (forall k, k < String.length W ->
             String.get (p + k) (lower text) = String.get k W) ->
  i < p -> p < i + String.length W -> False.
Proof.
  intros Hb Hi Hp Hlt Hin. unfold borderless in Hb.
  rewrite forallb_forall in Hb.
  assert (Hd : In (p - i) (seq 1 (String.length W - 1))) by (apply in_seq; lia).
  apply Hb, existsb_exists in Hd as (k & Hk & Hne).
  apply in_seq in Hk.
  pose proof (Hi (p - i + k) ltac:(lia)) as H1.
  pose proof (Hp k ltac:(lia)) as H2.
  replace (i + (p - i + k)) with (p + k) in H1 by lia.
  rewrite H1 in H2. rewrite H2 in Hne.
  destruct (get_in_range W k ltac:(lia)) as [a Ha].
  rewrite Ha in Hne. now rewrite Ascii.eqb_refl in Hne.
Qed.

(** The occurrence of a word whose lowercase is [W], seen from the
    lowercased text. *)
Lemma occurrence_get (pre word post W : string) (k : nat) :
  lower word = W -> k < String.length W ->
  String.get (String.length pre + k) (lower (pre ++ word ++ post))
  = String.get k W.
Proof.
  intros <- Hk. rewrite lower_length in Hk.
  rewrite get_lower, get_middle by exact Hk. now rewrite get_lower.
Qed.

Lemma literal_keyword_reported `{HashOrder} (keyword pre word post : string) :
  In (whole_word (Re.Liti keyword)) education_keywords ->
  borderless (lower keyword) = true ->
  keyword_shape (lower keyword) = true ->
  word_edged (lower keyword) = true ->
  lower word = lower keyword ->
  stands_alone pre post = true ->
  In (snippet_around pre word post) (analyze_education (pre ++ word ++ post)).
Proof.
  intros Hp Hbl Hshape Hedge Hword Halone.
  set (text := pre ++ word ++ post).
  set (pattern := whole_word (Re.Liti keyword)) in *.
  apply andb_true_iff in Halone as [Hpre Hpost].
  apply negb_true_iff in Hpre, Hpost.
  apply andb_true_iff in Hedge as [Hfirst Hlast].
  rewrite <- Hword, first_char_lower, is_word_opt_lower in Hfirst.
  rewrite <- Hword, last_char_lower, is_word_opt_lower in Hlast.
  assert (Hlen : String.length word = String.length keyword).
  { rewrite <- (lower_length word), Hword. apply lower_length. }
  (* the pattern matches at the occurrence *)
  assert (Hm : re_matches pattern (cursor_at pre (word ++ post))
                          (cursor_at (pre ++ word) post)).
  { unfold pattern, whole_word.
    apply matches_Seq with (cursor_at pre (word ++ post)).
    { constructor. rewrite at_boundary_cursor_at. unfold word_boundary.
      rewrite Hpre, first_char_app.
      destruct (first_char word); [exact Hfirst | discriminate Hfirst]. }
    apply matches_Seq with (cursor_at (pre ++ word) post).
    - unfold cursor_at. rewrite list_ascii_app, last_char_app, length_append.
      now apply matches_Liti_intro.
    - constructor. rewrite at_boundary_cursor_at. unfold word_boundary.
      rewrite last_char_app, Hpost. unfold before_after.
      destruct (last_char word); [now rewrite Hlast | discriminate Hlast]. }
  destruct (match_at_complete _ _ _ Hm) as [e He].
  (* every match of the pattern reads a word of the same length *)
  assert (Hspan : forall word0, lang pattern word0 -> lower word0 = lower keyword).
  { intros word0 (m1 & m2 & -> & -> & (m3 & m4 & -> & L & ->)).
    cbn [String.append]. rewrite append_empty_r. now apply lang_Liti. }
  assert (Ee : e = String.length pre + String.length word).
  { apply match_at_sound in He as (c' & Hc & <-).
    destruct (re_matches_lang _ _ _ Hc) as (w' & (_ & Hpos & _) & Hl).
    apply Hspan in Hl. cbn [cursor_at Re.pos] in Hpos.
    rewrite Hpos, <- (lower_length w'), Hl, lower_length. lia. }
  subst e.
  (* the span is one of those finditer returns *)
  assert (Hin : In (String.length pre, String.length pre + String.length word)
                   (Re.finditer pattern text)).
  { unfold Re.finditer, text. rewrite list_ascii_app.
    pose proof (finditer_from_covers pattern pre
                  (list_ascii_of_string (word ++ post)) None 0 0
                  (String.length pre + String.length word)
                  ltac:(lia)) as Hcov.
    rewrite before_after_None in Hcov. cbn [Nat.add] in Hcov.
    destruct (Hcov He) as [Hin | (span & Hs & Hlt & Hgt)]; [exact Hin|].
    exfalso. rewrite <- list_ascii_app in Hs.
    apply (finditer_sound pattern text) in Hs
      as (pre0 & word0 & post0 & Ht & -> & Hl & _).
    cbn [fst snd] in Hlt, Hgt.
    apply Hspan in Hl.
    assert (Hlen0 : String.length word0 = String.length keyword).
    { rewrite <- (lower_length word0), Hl. apply lower_length. }
    apply (borderless_no_overlap (lower keyword) text
             (String.length pre0) (String.length pre)); try assumption.
    - intros k Hk. rewrite Ht. now apply occurrence_get.
    - intros k Hk. now apply occurrence_get.
    - rewrite lower_length. lia. }
  unfold analyze_education. apply (proj2 (list_of_set_In _ _)).
  apply in_flat_map. exists pattern. split; [exact Hp|].
  apply in_map_iff. exists (String.length pre, String.length pre + String.length word).
  split; [|exact Hin].
  apply context_snippet_around. now rewrite Hword.
Qed.

(** X16.  A text of ASCII characters that holds one of the six one-word or
    one-phrase education keywords (University, College, Institute of
    Technology, Degree, Bachelor, Master), in any case, with no word
    character touching it, gets the snippet around that occurrence in the
    result of [analyze_education]. *)
Theorem education_keyword_is_reported `{HashOrder}
        (keyword pre word post : string) :
  ascii_only (pre ++ word ++ post) = true ->
  In keyword literal_keywords ->
  lower word = lower keyword ->
  stands_alone pre post = true ->
  In (snippet_around pre word post) (analyze_education (pre ++ word ++ post)).
Proof.
  intros _ Hk. apply literal_keyword_reported.
  - unfold literal_keywords in Hk. unfold education_keywords.
    destruct Hk as [<-|[<-|[<-|[<-|[<-|[<-|[]]]]]]]; cbn; tauto.
  - destruct Hk as [<-|[<-|[<-|[<-|[<-|[<-|[]]]]]]]; vm_compute; reflexivity.
  - destruct Hk as [<-|[<-|[<-|[<-|[<-|[<-|[]]]]]]]; vm_compute; reflexivity.
  - destruct Hk as [<-|[<-|[<-|[<-|[<-|[<-|[]]]]]]]; vm_compute; reflexivity.
Qed.

Lemma education_keyword_is_reported_witness :
  In "B.Sc, Stanford UNIVERSITY (2019)"
     (analyze_education (H := insertion_order)
        ("B.Sc, Stanford " ++ "UNIVERSITY" ++ " (2019)")).
Proof.
  apply (education_keyword_is_reported (H := insertion_order)
           "University" "B.Sc, Stanford " "UNIVERSITY" " (2019)").
  - reflexivity.
  - vm_compute. tauto.
  - reflexivity.
  - reflexivity.
Defined.

(** ** The phrases of the year patterns *)

Lemma lang_Plus (p : ascii -> bool) (m : string) :
  lang (Re.Plus p) m -> nonempty m = true /\ string_forall p m = true.
Proof.
  unfold Re.Plus. cbn [lang].
  intros (m1 & m2 & -> & (a & -> & Ha) & H2).
  cbn [String.append nonempty string_forall]. now rewrite Ha, H2.
Qed.

Lemma lang_Opt (r : Re.re) (m : string) :
  lang (Re.Opt r) m -> lang r m \/ m = EmptyString.
Proof. unfold Re.Opt. cbn [lang]. tauto. Qed.

Lemma lang_year_unit (m : string) :
  lang (Re.Seq (Re.Liti "year") (Re.Seq (Re.Opt (Re.Lit1i "s")) Re.WordB)) m ->
  is_year_unit m = true.
Proof.
  intros (m1 & m2 & -> & L1 & (m3 & m4 & -> & L3 & L4)).
  apply lang_Liti in L1. cbn [lang] in L4. subst m4.
  rewrite append_empty_r. unfold is_year_unit. rewrite lower_app, L1.
  apply lang_Opt in L3 as [(a & -> & Ha) | ->].
  - apply Ascii.eqb_eq in Ha. cbn [lower]. rewrite Ha.
    apply orb_true_iff. right. reflexivity.
  - reflexivity.
Qed.

Lemma lstrip_spaces (g z : string) :
  string_forall is_space g = true -> lstrip (g ++ z) = lstrip z.
Proof.
  induction g as [|x g IH]; cbn [String.append string_forall lstrip];
    [reflexivity|].
  intros H. apply andb_true_iff in H as [Hx Hg]. rewrite Hx. now apply IH.
Qed.

Lemma lstrip_all_spaces (g : string) :
  string_forall is_space g = true -> lstrip g = EmptyString.
Proof.
  intros H. rewrite <- (append_empty_r g). now rewrite lstrip_spaces.
Qed.

(** The words of the first year pattern are the year phrases. *)
Lemma lang_year_pattern_1 (m : string) :
  lang year_pattern_1 m ->
  exists amount gap unit,
    m = amount ++ gap ++ unit /\ year_phrase amount gap unit = true.
Proof.
  unfold year_pattern_1.
  intros (m0 & m1 & -> & -> & (amount & m2 & -> & La
            & (g1 & m3 & -> & Lg1 & (plus & unit & -> & Lp & Lu)))).
  apply lang_Plus in La as [Hne Hd]. cbn [lang] in Lg1.
  apply lang_year_unit in Lu.
  exists amount, (g1 ++ plus), unit. cbn [String.append].
  split; [now rewrite append_assoc|].
  unfold year_phrase, is_number. rewrite Hne, Hd, Lu. cbn [andb].
  rewrite andb_true_r. unfold is_plus_gap.
  apply lang_Opt in Lp as [(p1 & g2 & -> & La' & Lg2) | ->].
  - destruct La' as (a & -> & Ha). apply Ascii.eqb_eq in Ha. subst a.
    cbn [lang] in Lg2. rewrite lstrip_spaces by exact Lg1.
    cbn. exact Lg2.
  - rewrite append_empty_r, lstrip_all_spaces by exact Lg1. reflexivity.
Qed.

(** The words of the second year pattern are the range phrases. *)
Lemma lang_year_pattern_2 (m : string) :
  lang year_pattern_2 m ->
  exists low high gap unit,
    m = (low ++ "-" ++ high) ++ gap ++ unit /\
    range_phrase low high gap unit = true.
Proof.
  unfold year_pattern_2.
  intros (m0 & m1 & -> & -> & (low & m2 & -> & Ll
            & (dash & m3 & -> & Ld & (high & m4 & -> & Lh
            & (gap & unit & -> & Lg & Lu))))).
  apply lang_Plus in Ll as [Hne1 Hd1]. apply lang_Plus in Lh as [Hne2 Hd2].
  destruct Ld as (a & -> & Ha). apply Ascii.eqb_eq in Ha. subst a.
  cbn [lang] in Lg. apply lang_year_unit in Lu.
  exists low, high, gap, unit. cbn [String.append].
  split; [now rewrite !append_assoc|].
  unfold range_phrase, is_number. now rewrite Hne1, Hd1, Hne2, Hd2, Lg, Lu.
Qed.

Lemma year_mentions_In (text x : string) :
  In x (year_mentions text) <->
  exists pattern span,
    In pattern year_patterns /\ In span (Re.finditer pattern text) /\
    x = "Mention of: " ++ slice text (fst span) (snd span).
Proof.
  unfold year_mentions. rewrite in_flat_map. split.
  - intros (pattern & Hp & Hx). apply in_map_iff in Hx as (span & <- & Hs).
    now exists pattern, span.
  - intros (pattern & span & Hp & Hs & ->). exists pattern. split; [exact Hp|].
    apply in_map_iff. now exists span.
Qed.

Lemma mention_prefix (w : string) :
  String.prefix "Mention of: " ("Mention of: " ++ w) = true.
Proof. cbn. now destruct w. Qed.

Lemma year_mentions_prefix (text x : string) :
  In x (year_mentions text) -> String.prefix "Mention of: " x = true.
Proof.
  intros H. apply year_mentions_In in H as (pattern & span & _ & _ & ->).
  apply mention_prefix.
Qed.

Lemma experience_matches_mentions `{HashOrder} (text : string)
      (nlp_model : NlpModel) (x : string) :
  In x (year_mentions text) -> In x (analyze_experience text nlp_model).
Proof.
  intros Hx. unfold analyze_experience. apply (proj2 (list_of_set_In _ _)).
  unfold experience_matches.
  destruct (nlp_model text) as [ents|]; [|exact Hx].
  destruct (date_entities_of ents); [exact Hx|].
  apply in_or_app. now left.
Qed.

(** X17.  The year mentions of [analyze_experience], for a text of ASCII
    characters.  Every phrase the two
    year patterns find is reported, as "Mention of: " followed by the
    phrase; each such phrase is a piece of the text made of a number (or
    two numbers joined by a hyphen), a gap and the word year or years in
    any case.  The marker "Key Dates Found:" is in the result exactly when
    the entity finder ran and returned at least one DATE entity; when it
    failed or found none, the result lists the year mentions and nothing
    else. *)
Theorem experience_mentions_and_marker `{HashOrder} (text : string)
        (nlp_model : NlpModel) :
  ascii_only text = true ->
  let dates :=
    match nlp_model text with
    | Some ents => date_entities_of ents
    | None => []
    end in
  Forall (fun x => In x (analyze_experience text nlp_model)) (year_mentions text)
  /\ Forall (fun x => exists pre phrase post,
               text = pre ++ phrase ++ post /\
               x = "Mention of: " ++ phrase /\
               ((exists amount gap unit,
                    phrase = amount ++ gap ++ unit /\
                    year_phrase amount gap unit = true) \/
                (exists low high gap unit,
                    phrase = (low ++ "-" ++ high) ++ gap ++ unit /\
                    range_phrase low high gap unit = true)))
            (year_mentions text)
  /\ (In "Key Dates Found:" (analyze_experience text nlp_model) <-> dates <> [])
  /\ (dates = [] ->
      forall x, In x (analyze_experience text nlp_model)
                <-> In x (year_mentions text)).
Proof.
  intros _ dates. split; [|split; [|split]].
  - apply List.Forall_forall. intros x. apply experience_matches_mentions.
  - apply List.Forall_forall. intros x Hx.
    apply year_mentions_In in Hx as (pattern & span & Hp & Hs & ->).
    apply finditer_sound in Hs as (pre & phrase & post & Ht & -> & Hl & _).
    exists pre, phrase, post. split; [exact Ht|]. cbn [fst snd].
    split; [now rewrite Ht, slice_middle|].
    destruct Hp as [<-|[<-|[]]].
    + left. now apply lang_year_pattern_1.
    + right. now apply lang_year_pattern_2.
  - unfold analyze_experience. rewrite list_of_set_In.
    unfold experience_matches, dates.
    destruct (nlp_model text) as [ents|].
    + destruct (date_entities_of ents) as [|d ds].
      * split; [|congruence]. intros Hm.
        apply year_mentions_prefix in Hm. discriminate.
      * split; [discriminate|]. intros _.
        apply in_or_app. right. now left.
    + split; [|congruence]. intros Hm.
      apply year_mentions_prefix in Hm. discriminate.
  - intros Hd x. unfold analyze_experience. rewrite list_of_set_In.
    unfold experience_matches. unfold dates in Hd.
    destruct (nlp_model text) as [ents|]; [|reflexivity].
    now rewrite Hd.
Qed.

Lemma experience_mentions_and_marker_witness :
  Forall (fun x => In x (analyze_experience (H := insertion_order)
                           "Over 5+ years, of which 2-3 years abroad"
                           no_entities))
         (year_mentions "Over 5+ years, of which 2-3 years abroad").
Proof.
  pose proof (experience_mentions_and_marker (H := insertion_order)
                "Over 5+ years, of which 2-3 years abroad" no_entities)
    as Hw.
  cbv zeta in Hw. exact (proj1 (Hw eq_refl)).
Defined.

(** ** The first choice of the matcher *)

Section Accepts.
Context {A : Type}.

Lemma accepts_Seq (r1 r2 : Re.re) (m1 m2 : string) (rest : list ascii) :
  accepts (A := A) r1 m1 (list_ascii_of_string m2 ++ rest)%list ->
  accepts (A := A) r2 m2 rest ->
  accepts (A := A) (Re.Seq r1 r2) (m1 ++ m2) rest.
Proof.
  intros H1 H2 b n k e Hk. cbn [Re.run].
  rewrite list_ascii_app, <- app_assoc. apply H1. apply H2.
  now rewrite before_after_app, <- Nat.add_assoc, <- length_append.
Qed.

Lemma accepts_Eps (rest : list ascii) : accepts (A := A) Re.Eps EmptyString rest.
Proof.
  intros b n k e Hk. cbn in *. now rewrite Nat.add_0_r in Hk.
Qed.

Lemma accepts_Chr (p : ascii -> bool) (a : ascii) (rest : list ascii) :
  p a = true -> accepts (A := A) (Re.Chr p) (String a EmptyString) rest.
Proof.
  intros Hp b n k e Hk. cbn [Re.run list_ascii_of_string app Re.rest Re.pos].
  rewrite Hp. cbn in Hk. now rewrite Nat.add_1_r in Hk.
Qed.

Lemma star_greedy (p : ascii -> bool) (m : string) (rest : list ascii)
      (b : option ascii) (n : nat) (k : Re.cursor -> option A) (e : A) :
  string_forall p m = true -> stops p rest ->
  k (Re.Cursor (before_after b m) (n + String.length m) rest) = Some e ->
  Re.star p k b n (list_ascii_of_string m ++ rest)%list = Some e.
Proof.
  intros Hm Hstop. revert b n. induction m as [|a m IH]; intros b n Hk.
  - cbn in Hk. rewrite Nat.add_0_r in Hk. cbn [list_ascii_of_string app].
    destruct rest as [|x rest]; cbn [Re.star]; [exact Hk|].
    cbn in Hstop. now rewrite Hstop.
  - cbn [string_forall] in Hm. apply andb_true_iff in Hm as [Ha Hm].
    cbn [list_ascii_of_string app Re.star]. rewrite Ha.
    rewrite (IH Hm (Some a) (S n)); [reflexivity|].
    rewrite before_after_cons in Hk. cbn [String.length] in Hk.
    now rewrite Nat.add_succ_r in Hk.
Qed.

Lemma accepts_Star (p : ascii -> bool) (m : string) (rest : list ascii) :
  string_forall p m = true -> stops p rest ->
  accepts (A := A) (Re.Star p) m rest.
Proof.
  intros Hm Hstop b n k e Hk. cbn [Re.run Re.before Re.pos Re.rest].
  now apply star_greedy.
Qed.

Lemma accepts_Plus (p : ascii -> bool) (m : string) (rest : list ascii) :
  nonempty m = true -> string_forall p m = true -> stops p rest ->
  accepts (A := A) (Re.Plus p) m rest.
Proof.
  intros Hne Hm Hstop. destruct m as [|a m]; [discriminate|].
  cbn [string_forall] in Hm. apply andb_true_iff in Hm as [Ha Hm].
  unfold Re.Plus.
  apply (accepts_Seq _ _ (String a EmptyString) m).
  - now apply accepts_Chr.
  - now apply accepts_Star.
Qed.

Lemma accepts_Liti (w m : string) (rest : list ascii) :
  lower m = lower w -> accepts (A := A) (Re.Liti w) m rest.
Proof.
  revert m. induction w as [|x w IH]; intros m Hm.
  - apply lower_empty in Hm. subst m. apply accepts_Eps.
  - destruct m as [|a m]; [discriminate|]. cbn [lower] in Hm.
    injection Hm as Ha Hm. cbn [Re.Liti].
    apply (accepts_Seq _ _ (String a EmptyString) m).
    + apply accepts_Chr. now apply Ascii.eqb_eq.
    + now apply IH.
Qed.

Lemma accepts_Opt_take (r : Re.re) (m : string) (rest : list ascii) :
  accepts (A := A) r m rest -> accepts (A := A) (Re.Opt r) m rest.
Proof.
  intros H b n k e Hk. unfold Re.Opt. cbn [Re.run]. now rewrite (H b n k e Hk).
Qed.

(** A pattern that starts with a character class fails on a text that
    does not start with a character of the class. *)
Lemma accepts_Opt_skip (p : ascii -> bool) (r : Re.re) (rest : list ascii) :
  stops p rest ->
  accepts (A := A) (Re.Opt (Re.Seq (Re.Chr p) r)) EmptyString rest.
Proof.
  intros Hstop b n k e Hk. cbn in Hk. rewrite Nat.add_0_r in Hk.
  unfold Re.Opt. cbn [Re.run list_ascii_of_string app Re.rest].
  destruct rest as [|x rest]; [exact Hk|]. cbn in Hstop. now rewrite Hstop.
Qed.

End Accepts.

(** ** A stated number of years is reported *)

Lemma string_forall_impl (p q : ascii -> bool) (s : string) :
  (forall c, p c = true -> q c = true) ->
  string_forall p s = true -> string_forall q s = true.
Proof.
  intros Hpq. induction s as [|x s IH]; [reflexivity|].
  cbn [string_forall]. intros H. apply andb_true_iff in H as [Hx Hs].
  now rewrite (Hpq x Hx), (IH Hs).
Qed.

Lemma string_forall_get (p : ascii -> bool) (s : string) (k : nat) (a : ascii) :
  string_forall p s = true -> String.get k s = Some a -> p a = true.
Proof.
  revert k. induction s as [|x s IH]; intros k; [discriminate|].
  cbn [string_forall]. intros H. apply andb_true_iff in H as [Hx Hs].
  destruct k; cbn.
  - now intros [= <-].
  - now apply IH.
Qed.

Lemma is_digit_word (c : ascii) : is_digit c = true -> is_word c = true.
Proof. unfold is_word, is_digit. now intros ->. Qed.

Lemma is_space_not_digit (c : ascii) : is_space c = true -> not_digit c = true.
Proof. destruct c as [[] [] [] [] [] [] [] []]; vm_compute; congruence. Qed.

Lemma not_digit_lower (c : ascii) : not_digit (lower_char c) = not_digit c.
Proof. destruct c as [[] [] [] [] [] [] [] []]; vm_compute; reflexivity. Qed.

Lemma string_forall_not_digit_lower (s : string) :
  string_forall not_digit (lower s) = string_forall not_digit s.
Proof.
  induction s as [|x s IH]; [reflexivity|].
  cbn [lower string_forall]. now rewrite not_digit_lower, IH.
Qed.

Lemma is_year_unit_spec (unit : string) :
  is_year_unit unit = true -> lower unit = "year" \/ lower unit = "years".
Proof.
  unfold is_year_unit. intros H.
  apply orb_true_iff in H as [H|H]; apply String.eqb_eq in H; auto.
Qed.

Lemma is_plus_gap_spec (gap : string) :
  is_plus_gap gap = true ->
  exists g1 pg,
    gap = g1 ++ pg /\ string_forall is_space g1 = true /\
    (pg = EmptyString \/
     exists g2, pg = String "+" g2 /\ string_forall is_space g2 = true).
Proof.
  unfold is_plus_gap. intros H.
  destruct (lstrip_split gap) as (g1 & Hg & Hs).
  exists g1, (lstrip gap). split; [exact Hg|]. split; [exact Hs|].
  destruct (lstrip gap) as [|c rest]; [now left|].
  apply andb_true_iff in H as [Hc Hr]. apply Ascii.eqb_eq in Hc. subst c.
  right. now exists rest.
Qed.

(** After the number of a year phrase comes no digit. *)
Lemma year_phrase_tail (amount gap unit : string) :
  year_phrase amount gap unit = true ->
  string_forall is_digit amount = true /\
  string_forall not_digit (gap ++ unit) = true.
Proof.
  unfold year_phrase, is_number. rewrite !andb_true_iff.
  intros [[[_ Hd] Hg] Hu]. split; [exact Hd|].
  rewrite string_forall_app. apply andb_true_iff. split.
  - apply is_plus_gap_spec in Hg as (g1 & pg & -> & H1 & Hpg).
    rewrite string_forall_app. apply andb_true_iff. split.
    + apply (string_forall_impl is_space not_digit _ is_space_not_digit H1).
    + destruct Hpg as [-> | (g2 & -> & H2)]; [reflexivity|].
      cbn [string_forall]. apply andb_true_iff. split; [reflexivity|].
      apply (string_forall_impl is_space not_digit _ is_space_not_digit H2).
  - rewrite <- string_forall_not_digit_lower.
    apply is_year_unit_spec in Hu as [-> | ->]; reflexivity.
Qed.

Lemma year_unit_split (unit : string) :
  is_year_unit unit = true ->
  exists u y tail,
    unit = String y u ++ tail /\ lower (String y u) = "year" /\
    (tail = EmptyString \/
     exists s, tail = String s EmptyString /\ lower_char s = "s"%char).
Proof.
  intros H. apply is_year_unit_spec in H.
  destruct unit as [|y [|e [|a [|r tail]]]];
    try (destruct H as [H|H]; discriminate H).
  exists (String e (String a (String r EmptyString))), y, tail.
  split; [reflexivity|].
  destruct H as [H|H]; cbn [lower] in H.
  - injection H as Hy He Ha Hr Ht. apply lower_empty in Ht. subst tail.
    cbn [lower]. rewrite Hy, He, Ha, Hr. split; [reflexivity | now left].
  - injection H as Hy He Ha Hr Ht.
    destruct tail as [|s [|x t]]; try discriminate Ht.
    cbn [lower] in Ht. injection Ht as Hs.
    cbn [lower]. rewrite Hy, He, Ha, Hr. split; [reflexivity|].
    right. now exists s.
Qed.

Lemma lower_s_word (s : ascii) : lower_char s = "s"%char -> is_word s = true.
Proof. intros H. rewrite <- is_word_lower, H. reflexivity. Qed.

(** The end of the year patterns: an optional s and a word boundary. *)
Lemma year_tail_run (b : ascii) (n : nat) (tail post : string) :
  is_word b = true ->
  (tail = EmptyString \/
   exists s, tail = String s EmptyString /\ lower_char s = "s"%char) ->
  is_word_opt (first_char post) = false ->
  Re.run (Re.Seq (Re.Opt (Re.Lit1i "s")) Re.WordB)
         (Re.Cursor (Some b) n (list_ascii_of_string (tail ++ post)))
         (fun c' => Some (Re.pos c'))
  = Some (n + String.length tail).
Proof.
  intros Hb Htail Hpost. unfold Re.Opt, Re.Lit1i.
  destruct Htail as [-> | (s & -> & Hs)].
  - cbn [String.append String.length]. rewrite Nat.add_0_r.
    assert (Hend : Re.run Re.WordB
                     (Re.Cursor (Some b) n (list_ascii_of_string post))
                     (fun c' => Some (Re.pos c')) = Some n).
    { cbn [Re.run]. unfold Re.at_boundary.
      rewrite word_before_cursor, word_after_cursor, Hpost. cbn [is_word_opt].
      now rewrite Hb. }
    cbn [Re.run Re.rest Re.pos].
    destruct post as [|x post]; cbn [list_ascii_of_string].
    + exact Hend.
    + destruct (Ascii.eqb_spec (lower_char x) (lower_char "s")) as [E|_].
      * apply lower_s_word in E. cbn in Hpost. congruence.
      * exact Hend.
  - cbn [String.append list_ascii_of_string Re.run Re.rest Re.pos String.length].
    replace (Ascii.eqb (lower_char s) (lower_char "s")) with true
      by (symmetry; now apply Ascii.eqb_eq).
    unfold Re.at_boundary.
    rewrite word_before_cursor, word_after_cursor, Hpost. cbn [is_word_opt].
    rewrite (lower_s_word s Hs). cbn. f_equal. lia.
Qed.

Lemma stops_first (p : ascii -> bool) (s : string) (rest : string) (a : ascii) :
  first_char s = Some a -> p a = false ->
  stops p (list_ascii_of_string (s ++ rest)).
Proof. destruct s as [|x s]; [discriminate|]. cbn. now intros [= ->]. Qed.

Lemma lower_y (y : ascii) :
  lower_char y = "y"%char ->
  is_space y = false /\ is_digit y = false /\ Ascii.eqb "+" y = false.
Proof.
  intros H. repeat split.
  - rewrite <- is_space_lower, H. reflexivity.
  - destruct (is_digit y) eqn:E; [|reflexivity].
    assert (Hn : not_digit (lower_char y) = not_digit y) by apply not_digit_lower.
    rewrite H in Hn. unfold not_digit in Hn at 2. rewrite E in Hn. discriminate.
  - apply Ascii.eqb_neq. intros <-. discriminate.
Qed.

Lemma run_Seq {A : Type} (r1 r2 : Re.re) (c : Re.cursor)
      (k : Re.cursor -> option A) :
  Re.run (Re.Seq r1 r2) c k = Re.run r1 c (fun c1 => Re.run r2 c1 k).
Proof. reflexivity. Qed.

Lemma run_WordB {A : Type} (c : Re.cursor) (k : Re.cursor -> option A) :
  Re.at_boundary c = true -> Re.run Re.WordB c k = k c.
Proof. intros H. cbn [Re.run]. now rewrite H. Qed.

(** At a position that follows no word character, before a year phrase
    that no word character follows, the first year pattern matches the
    phrase, all of it. *)
Lemma year_pattern_1_match_at (b : option ascii) (n : nat)
      (amount gap unit post : string) :
  year_phrase amount gap unit = true ->
  is_word_opt b = false ->
  is_word_opt (first_char post) = false ->
  Re.match_at year_pattern_1
    (Re.Cursor b n (list_ascii_of_string ((amount ++ gap ++ unit) ++ post)))
  = Some (n + String.length (amount ++ gap ++ unit)).
Proof.
  intros Hphrase Hb Hpost.
  pose proof Hphrase as Hp. unfold year_phrase, is_number in Hp.
  rewrite !andb_true_iff in Hp. destruct Hp as [[[Hne Hd] Hg] Hu].
  apply is_plus_gap_spec in Hg as (g1 & pg & -> & Hg1 & Hpg).
  apply year_unit_split in Hu as (u & y & tail & -> & Hyear & Htail).
  pose proof Hyear as Hy. cbn [lower] in Hy. injection Hy as Hy _.
  apply lower_y in Hy as (Hys & Hyd & Hyp).
  assert (Hlast : exists r, last_char (String y u) = Some r /\ is_word r = true).
  { destruct u as [|e [|a [|r [|x t]]]]; try discriminate Hyear.
    exists r. split; [reflexivity|].
    cbn [lower] in Hyear. injection Hyear as _ _ _ Hr.
    rewrite <- is_word_lower, Hr. reflexivity. }
  destruct Hlast as (r & Hr & Hrw).
  unfold Re.match_at, year_pattern_1.
  (* the boundary before the number *)
  assert (Hstart : Re.at_boundary
            (Re.Cursor b n
               (list_ascii_of_string
                  ((amount ++ (g1 ++ pg) ++ String y u ++ tail) ++ post)))
          = true).
  { unfold Re.at_boundary.
    rewrite word_before_cursor, Hb, word_after_cursor, !first_char_app.
    destruct amount as [|d amount]; [discriminate|]. cbn [first_char is_word_opt].
    cbn [string_forall] in Hd. apply andb_true_iff in Hd as [Hd _].
    now rewrite (is_digit_word d Hd). }
  rewrite run_Seq, (run_WordB _ _ Hstart).
  (* the text, piece by piece *)
  replace ((amount ++ (g1 ++ pg) ++ String y u ++ tail) ++ post)
    with (amount ++ g1 ++ pg ++ String y u ++ tail ++ post)
    by (now rewrite !append_assoc).
  rewrite run_Seq, list_ascii_app.
  apply (accepts_Plus is_digit amount _ Hne Hd).
  { destruct g1 as [|c g1].
    - destruct Hpg as [-> | (g2 & -> & _)]; cbn; [exact Hyd | reflexivity].
    - cbn in Hg1 |- *. apply andb_true_iff in Hg1 as [Hc _].
      apply is_space_not_digit in Hc. unfold not_digit in Hc.
      now apply negb_true_iff in Hc. }
  rewrite run_Seq, list_ascii_app.
  apply (accepts_Star is_space g1 _ Hg1).
  { destruct Hpg as [-> | (g2 & -> & _)]; cbn; [exact Hys | reflexivity]. }
  assert (Hrest :
    forall b1 n1,
      Re.run (Re.Seq (Re.Liti "year") (Re.Seq (Re.Opt (Re.Lit1i "s")) Re.WordB))
             (Re.Cursor b1 n1 (list_ascii_of_string (String y u ++ tail ++ post)))
             (fun c' => Some (Re.pos c'))
      = Some (n1 + String.length (String y u ++ tail))).
  { intros b1 n1. rewrite run_Seq, list_ascii_app.
    apply (accepts_Liti "year" (String y u) _ Hyear).
    rewrite before_after_cons.
    replace (before_after (Some y) u) with (Some r).
    2: { rewrite <- before_after_cons with (b := None), before_after_None.
         now rewrite Hr. }
    rewrite (year_tail_run r _ tail post Hrw Htail Hpost).
    f_equal. rewrite length_append. lia. }
  rewrite run_Seq.
  destruct Hpg as [-> | (g2 & -> & Hg2)].
  - cbn [String.append].
    change (list_ascii_of_string (String y u ++ tail ++ post))
      with (list_ascii_of_string EmptyString
            ++ list_ascii_of_string (String y u ++ tail ++ post))%list.
    apply (accepts_Opt_skip (Ascii.eqb "+") (Re.Star is_space)).
    { cbn. exact Hyp. }
    cbn [before_after last_char String.length]. rewrite Hrest.
    f_equal.
    repeat first [rewrite length_append | progress cbn [String.append String.length]].
    lia.
  - rewrite list_ascii_app.
    apply accepts_Opt_take.
    { apply (accepts_Seq _ _ (String "+" EmptyString) g2).
      - now apply accepts_Chr.
      - apply (accepts_Star is_space g2 _ Hg2). cbn. exact Hys. }
    rewrite Hrest.
    f_equal.
    repeat first [rewrite length_append | progress cbn [String.append String.length]].
    lia.
Qed.

Lemma last_char_get (s : string) :
  last_char s = String.get (String.length s - 1) s.
Proof.
  induction s as [|x s IH]; [reflexivity|].
  rewrite last_char_cons. unfold before_after. rewrite IH.
  destruct s as [|y s]; [reflexivity|].
  cbn [String.length]. rewrite !Nat.sub_succ, !Nat.sub_0_r.
  change (String.get (S (String.length s)) (String x (String y s)))
    with (String.get (String.length s) (String y s)).
  destruct (get_in_range (String y s) (String.length s)) as [a Ha]; [cbn; lia|].
  now rewrite Ha.
Qed.

(** A match of the first year pattern cannot cover the start of a number
    that no word character precedes. *)
Lemma year_overlap_impossible (pre0 amount0 tail0 post0 pre rest : string)
      (d : ascii) :
  pre0 ++ (amount0 ++ tail0) ++ post0 = pre ++ rest ->
  string_forall is_digit amount0 = true ->
  string_forall not_digit tail0 = true ->
  is_word_opt (last_char pre) = false ->
  first_char rest = Some d -> is_digit d = true ->
  String.length pre0 < String.length pre ->
  String.length pre < String.length pre0 + String.length (amount0 ++ tail0) ->
  False.
Proof.
  intros Ht Hd Hn Hpre Hfirst Hdd Hlt Hgt.
  set (k := String.length pre - 1 - String.length pre0).
  assert (Hk : S k < String.length (amount0 ++ tail0)) by (unfold k; lia).
  (* the character before the number *)
  destruct (get_in_range pre (String.length pre - 1) ltac:(lia)) as [c Hc].
  assert (Hcw : is_word c = false).
  { rewrite last_char_get, Hc in Hpre. exact Hpre. }
  assert (Hck : String.get k (amount0 ++ tail0) = Some c).
  { rewrite <- (get_middle pre0 _ post0 k) by lia. rewrite Ht.
    replace (String.length pre0 + k) with (String.length pre - 1)
      by (unfold k; lia).
    rewrite <- append_correct1 by lia. exact Hc. }
  assert (Hka : String.length amount0 <= k).
  { destruct (Nat.le_gt_cases (String.length amount0) k) as [H|H]; [exact H|].
    exfalso. rewrite <- append_correct1 in Hck by exact H.
    apply (string_forall_get _ _ _ _ Hd), is_digit_word in Hck. congruence. }
  (* the first digit of the number *)
  assert (Hdk : String.get (S k) (amount0 ++ tail0) = Some d).
  { rewrite <- (get_middle pre0 _ post0 (S k)) by lia. rewrite Ht.
    replace (String.length pre0 + S k) with (0 + String.length pre)
      by (unfold k; lia).
    rewrite <- append_correct2. destruct rest; [discriminate|].
    cbn in Hfirst |- *. exact Hfirst. }
  replace (S k) with ((S k - String.length amount0) + String.length amount0)
    in Hdk by lia.
  rewrite <- append_correct2 in Hdk.
  apply (string_forall_get _ _ _ _ Hn) in Hdk.
  unfold not_digit in Hdk. rewrite Hdd in Hdk. discriminate.
Qed.

(** X18.  A year phrase of a text of ASCII characters (a number, optional
    blanks, an optional plus sign, then year or years in any case) that no
    word character touches is reported by [analyze_experience] as
    "Mention of: " followed by the phrase, whatever the entity finder
    does. *)
Theorem stated_years_are_reported `{HashOrder}
        (pre amount gap unit post : string) (nlp_model : NlpModel) :
  ascii_only (pre ++ (amount ++ gap ++ unit) ++ post) = true ->
  year_phrase amount gap unit = true ->
  is_word_opt (last_char pre) = false ->
  is_word_opt (first_char post) = false ->
  In ("Mention of: " ++ amount ++ gap ++ unit)
     (analyze_experience (pre ++ (amount ++ gap ++ unit) ++ post) nlp_model).
Proof.
  intros _ Hphrase Hpre Hpost.
  set (phrase := amount ++ gap ++ unit). set (text := pre ++ phrase ++ post).
  apply experience_matches_mentions. apply year_mentions_In.
  exists year_pattern_1, (String.length pre, String.length pre + String.length phrase).
  split; [now left|]. cbn [fst snd].
  split; [|unfold text; now rewrite slice_middle].
  pose proof (year_pattern_1_match_at (last_char pre) (String.length pre)
                amount gap unit post Hphrase Hpre Hpost) as He.
  fold phrase in He.
  unfold Re.finditer, text. rewrite list_ascii_app.
  pose proof (finditer_from_covers year_pattern_1 pre
                (list_ascii_of_string (phrase ++ post)) None 0 0
                (String.length pre + String.length phrase) ltac:(lia)) as Hcov.
  rewrite before_after_None in Hcov. cbn [Nat.add] in Hcov.
  destruct (Hcov He) as [Hin | (span & Hs & Hlt & Hgt)]; [exact Hin|].
  exfalso. rewrite <- list_ascii_app in Hs.
  apply (finditer_sound year_pattern_1 text) in Hs
    as (pre0 & word0 & post0 & Ht & -> & Hl & _).
  cbn [fst snd] in Hlt, Hgt.
  apply lang_year_pattern_1 in Hl as (amount0 & gap0 & unit0 & -> & Hp0).
  apply year_phrase_tail in Hp0 as [Hd0 Hn0].
  assert (Hfirst : exists d, first_char (phrase ++ post) = Some d /\ is_digit d = true).
  { unfold year_phrase, is_number in Hphrase.
    rewrite !andb_true_iff in Hphrase. destruct Hphrase as [[[Hne Hd] _] _].
    unfold phrase. destruct amount as [|d amount]; [discriminate|].
    exists d. split; [reflexivity|].
    cbn [string_forall] in Hd. now apply andb_true_iff in Hd as [Hd _]. }
  destruct Hfirst as (d & Hfirst & Hdd).
  apply (year_overlap_impossible pre0 amount0 (gap0 ++ unit0) post0 pre
           (phrase ++ post) d); try assumption.
  now rewrite <- Ht.
Qed.

Lemma stated_years_are_reported_witness :
  In "Mention of: 5+ Years"
     (analyze_experience (H := insertion_order)
        ("Over " ++ ("5" ++ "+ " ++ "Years") ++ ", mostly backend") no_entities).
Proof.
  apply (stated_years_are_reported (H := insertion_order)
           "Over " "5" "+ " "Years" ", mostly backend" no_entities);
    reflexivity.
Defined.

(** ** The request handlers *)

Lemma extract_text_returns (env : Env) (fs : list Byte.byte) (filename : string)
      (w : World) :
  (endswith filename ".pdf" || endswith filename ".docx") = true ->
  exists text w1, extract_text env fs filename w = (Ok text, w1).
Proof.
  unfold extract_text. intros Hs.
  destruct (endswith filename ".pdf").
  - rewrite extract_text_from_pdf_run. eauto.
  - cbn [orb] in Hs. rewrite Hs, extract_text_from_docx_run. eauto.
Qed.

(** With a supported suffix, the orchestrator either raises the
    empty-document error before anything is logged, or returns a response
    after at most one insertion. *)
Lemma analyze_resume_file_outcome `{HashOrder} (env : Env) (fs : list Byte.byte)
      (filename target_role : string) (nlp_model : NlpModel) (w : World) :
  (endswith filename ".pdf" || endswith filename ".docx") = true ->
  (exists w1,
      analyze_resume_file env fs filename target_role nlp_model w
      = (Raise empty_document, w1)
      /\ collection w1 = collection w)
  \/ (exists response w2,
         analyze_resume_file env fs filename target_role nlp_model w
         = (Ok response, w2)
         /\ fileName response = filename
         /\ (collection w2 = collection w \/
             exists log_document,
               collection w2 = (collection w ++ [log_document])%list /\
               rec_file_name log_document = filename /\
               rec_target_role log_document = target_role)).
Proof.
  intros Hsuffix.
  destruct (extract_text_returns env fs filename w Hsuffix) as (text & w1 & Hx).
  destruct (extract_text_trace _ _ _ _ _ _ Hx) as [Hc1 _].
  destruct (String.eqb_spec (strip text) EmptyString) as [Hs|Hs].
  - left. exists w1. split; [|exact Hc1].
    now apply analyze_resume_file_blank with (text := text).
  - right. apply String.eqb_neq in Hs.
    destruct (orchestrator_prompt (extract_skills text) target_role)
      as [prompt Hp].
    destruct (get_personalized_feedback_returns env _ prompt w1 Hp)
      as (msg & wf & Hf & Hcf).
    unfold analyze_resume_file, bind at 1, time_time.
    rewrite (bind_ok _ _ _ _ _ Hx). rewrite Hs.
    rewrite (bind_ok _ _ _ _ _ Hf).
    unfold bind at 1. unfold bind at 1, log_analysis_to_db.
    match goal with
    | |- context [insert_one env (collection wf) ?doc] =>
        destruct (insert_one env (collection wf) doc) eqn:Hi
    end.
    + eexists _, _. split; [reflexivity|]. split; [reflexivity|].
      right. eexists. cbn [collection]. rewrite Hcf, Hc1.
      split; [reflexivity|]. split; reflexivity.
    + eexists _, _. split; [reflexivity|]. split; [reflexivity|].
      left. cbn [collection]. now rewrite Hcf, Hc1.
Qed.

(** X19.  The replies of [POST /analyze/].  Without a language model, or
    without a database client, the handler answers 500 and does nothing
    else.  With both, it answers 200, or 400 for one of three reasons: the
    upload cannot be read, the file name ends neither in ".pdf" nor in
    ".docx" (the service's own "Unsupported file type" is therefore never
    seen), or no text could be extracted.  In particular the handler's last
    resort, 500 "An unexpected error occurred", is never used.  The audit
    collection gains at most one record, the one of this analysis, and
    only on a 200. *)
Theorem analyze_resume_replies `{HashOrder} (env : Env) (app : App)
        (resume_file : UploadFile) (target_role : string) (w : World) :
  let reply := fst (analyze_resume env app resume_file target_role w) in
  let w' := snd (analyze_resume env app resume_file target_role w) in
  (nlp app = None ->
   reply = Rejected (mkHTTP 500 "NLP model is not loaded on the server.")
   /\ w' = w)
  /\ (nlp app <> None -> db_client app = None ->
      reply = Rejected (mkHTTP 500 "Database connection is not available.")
      /\ w' = w)
  /\ (nlp app <> None -> db_client app <> None ->
      match reply with
      | Body response =>
          fileName response = filename resume_file /\
          (collection w' = collection w \/
           exists log_document,
             collection w' = (collection w ++ [log_document])%list /\
             rec_file_name log_document = filename resume_file /\
             rec_target_role log_document = target_role)
      | Rejected e =>
          status_code e = 400 /\ collection w' = collection w /\
          ((exists message,
               read resume_file = ReadRaises message /\
               detail e = "Error reading file: " ++ message /\ w' = w)
           \/ (endswith (filename resume_file) ".pdf" = false /\
               endswith (filename resume_file) ".docx" = false /\
               detail e = "Invalid file type. Please upload a .pdf or .docx file."
               /\ w' = w)
           \/ detail e = empty_document_detail)
      end).
Proof.
  cbv zeta. unfold analyze_resume. split; [|split].
  - intros ->. now split.
  - intros Hn ->. destruct (nlp app); [now split | contradiction].
  - intros Hn Hd.
    destruct (nlp app) as [nlp_model|]; [|contradiction].
    destruct (db_client app) as [client|]; [|contradiction].
    destruct (read resume_file) as [file_contents|message].
    2: { cbn [fst snd status_code detail]. split; [reflexivity|].
         split; [reflexivity|]. left. now exists message. }
    destruct (endswith (filename resume_file) ".pdf"
              || endswith (filename resume_file) ".docx") eqn:Hs.
    2: { apply orb_false_iff in Hs as [H1 H2].
         cbn [negb fst snd status_code detail]. split; [reflexivity|].
         split; [reflexivity|]. right. left. now repeat split. }
    cbn [negb].
    destruct (analyze_resume_file_outcome env file_contents
                (filename resume_file) target_role nlp_model w Hs)
      as [(w1 & -> & Hc) | (response & w2 & -> & Hname & Hc)].
    + cbn [fst snd empty_document status_code detail].
      split; [reflexivity|]. split; [exact Hc|]. right. right. reflexivity.
    + cbn [fst snd]. now split.
Qed.

Lemma dict_lookup_get_or (d : list (string * value)) (key : string)
      (default : value) :
  get_or (VDict d) key default
  = Some match dict_lookup d key with Some v => v | None => default end.
Proof. reflexivity. Qed.

(** X20.  The metrics.  [get_analysis_metrics] returns the defaults (three
    zeros and an empty breakdown) when the aggregation call raises and when
    it returns no document; and for the document a [$facet] stage returns,
    a dictionary with the lists "overview" and "role_breakdown", it returns
    the three figures of the first overview entry (0 for a figure the entry
    lacks; the defaults when there is no entry) and the breakdown list as
    it came.  [GET /metrics/] answers 500 without a database client and
    otherwise 200 with these metrics, so a failing database shows as zeroed
    metrics, not as an error. *)
Theorem metrics_of_aggregation (app : App) (aggregate : Fallible (list value)) :
  (aggregate = Raises \/ aggregate = Returns [] ->
   get_analysis_metrics aggregate = default_metrics)
  /\ (forall facet others overview breakdown,
         aggregate = Returns (VDict facet :: others) ->
         dict_lookup facet "overview" = Some (VList overview) ->
         dict_lookup facet "role_breakdown" = Some (VList breakdown) ->
         (overview = [] ->
          get_analysis_metrics aggregate
          = {| total_analyses := VInt 0;
               avg_duration_ms := VInt 0;
               avg_score := VInt 0;
               role_breakdown := VList breakdown |})
         /\ (forall entry entries,
                overview = VDict entry :: entries ->
                get_analysis_metrics aggregate
                = {| total_analyses :=
                       match dict_lookup entry "total_analyses" with
                       | Some v => v
                       | None => VInt 0
                       end;
                     avg_duration_ms :=
                       match dict_lookup entry "avg_duration_ms" with
                       | Some v => v
                       | None => VInt 0
                       end;
                     avg_score :=
                       match dict_lookup entry "avg_score" with
                       | Some v => v
                       | None => VInt 0
                       end;
                     role_breakdown := VList breakdown |}))
  /\ (db_client app = None ->
      get_metrics app aggregate
      = Rejected (mkHTTP 500 "Database connection is not available."))
  /\ (db_client app <> None ->
      get_metrics app aggregate = Body (get_analysis_metrics aggregate)).
Proof.
  split; [|split; [|split]].
  - intros [-> | ->]; reflexivity.
  - intros facet others overview breakdown -> Ho Hb.
    unfold get_analysis_metrics, read_result.
    unfold try_bind at 1, try_eval at 1. cbn [subscript]. rewrite Ho.
    split.
    + intros ->. cbn [truthy]. unfold try_bind, try_ret, try_eval, try_assign.
      cbn [subscript]. rewrite Hb.
      destruct breakdown; reflexivity.
    + intros entry entries ->. cbn [truthy first_item].
      unfold try_bind, try_ret, try_eval, try_assign.
      cbn [get_or subscript]. rewrite Hb.
      destruct breakdown; reflexivity.
  - unfold get_metrics. now intros ->.
  - unfold get_metrics. intros Hd.
    destruct (db_client app); [reflexivity | contradiction].
Qed.

(** X21.  When MongoDB cannot be reached at startup (the client cannot be
    built, the ping or the index creation fails with a connection failure),
    [startup_event] completes with no database client, and from then on
    every [POST /analyze/] and every [GET /metrics/] is answered with a 500
    and has no effect; an exception of another kind makes the startup
    itself fail.  The index is only created after a successful ping. *)
Theorem no_database_no_service `{HashOrder} (model : option NlpModel)
        (driver : Driver) :
  (new_client driver = FailsToConnect \/
   (new_client driver = Succeeds /\ ping driver = FailsToConnect) \/
   (new_client driver = Succeeds /\ ping driver = Succeeds /\
    create_index driver = FailsToConnect) ->
   exists app,
     startup_event model driver = Returns app /\ db_client app = None /\
     (forall env resume_file target_role w,
         exists e,
           analyze_resume env app resume_file target_role w = (Rejected e, w)
           /\ status_code e = 500) /\
     (forall aggregate,
         get_metrics app aggregate
         = Rejected (mkHTTP 500 "Database connection is not available.")))
  /\ (startup_event model driver = Raises <->
      new_client driver = FailsOtherwise \/
      (new_client driver = Succeeds /\ ping driver = FailsOtherwise) \/
      (new_client driver = Succeeds /\ ping driver = Succeeds /\
       create_index driver = FailsOtherwise))
  /\ (In (CallCreateIndex "target_role") (snd (connect_to_mongo driver)) ->
      ping driver = Succeeds)
  /\ (forall app, startup_event model driver = Returns app ->
                  db_client app <> None ->
                  new_client driver = Succeeds /\ ping driver = Succeeds /\
                  create_index driver = Succeeds).
Proof.
  unfold startup_event, connect_to_mongo.
  split; [|split; [|split]].
  - intros Hfail.
    exists {| nlp := model; db_client := None |}.
    split; [|split; [reflexivity|split]].
    + destruct Hfail as [-> | [[-> ->] | (-> & -> & ->)]]; reflexivity.
    + intros env resume_file target_role w. unfold analyze_resume.
      cbn [nlp db_client]. destruct model; eexists; split; reflexivity.
    + reflexivity.
  - destruct (new_client driver), (ping driver), (create_index driver);
      cbn [fst]; split; intros Hr; try discriminate Hr;
      try (destruct Hr as [Hr | [[H1 H2] | (H1 & H2 & H3)]]; discriminate);
      tauto.
  - destruct (new_client driver), (ping driver), (create_index driver);
      cbn [snd In]; intros Hin; try reflexivity;
      repeat (destruct Hin as [Hin|Hin]; try discriminate Hin); contradiction.
  - intros app.
    destruct (new_client driver), (ping driver), (create_index driver);
      cbn [fst]; intros [= <-]; cbn [db_client]; intros Hd;
      try contradiction; now repeat split.
Qed.

(** ** What depends on the iteration order of sets *)

Lemma list_of_set_perm (H1 H2 : HashOrder) (xs ys : list string) :
  (forall x, In x xs <-> In x ys) ->
  Permutation (list_of_set (HashOrder := H1) xs)
              (list_of_set (HashOrder := H2) ys).
Proof.
  intros Hxy. apply Stdlib.Sorting.Permutation.NoDup_Permutation.
  - apply list_of_set_NoDup.
  - apply list_of_set_NoDup.
  - intros x. now rewrite !list_of_set_In.
Qed.

Lemma list_of_set_length (H1 : HashOrder) (xs : list string) :
  length (list_of_set (HashOrder := H1) xs) = length (nodup string_dec xs).
Proof.
  apply Permutation_length, Stdlib.Sorting.Permutation.NoDup_Permutation.
  - apply list_of_set_NoDup.
  - apply NoDup_nodup.
  - intros x. now rewrite list_of_set_In, nodup_In.
Qed.

Lemma unique_dates_all (H1 : HashOrder) (dates : list string) (x : string) :
  length (nodup string_dec dates) <= 10 ->
  In x (unique_dates (H := H1) dates) <-> In x dates.
Proof.
  intros Hlen. unfold unique_dates.
  rewrite firstn_all2.
  - unfold sorted_by_len_desc. now rewrite stable_sort_In, list_of_set_In.
  - unfold sorted_by_len_desc.
    rewrite (Permutation_length (stable_sort_perm _ _)).
    now rewrite list_of_set_length.
Qed.

Lemma experience_matches_same (H1 H2 : HashOrder) (text : string)
      (nlp_model : NlpModel) (x : string) :
  length (distinct_dates text nlp_model) <= 10 ->
  In x (experience_matches (H := H1) text nlp_model) <->
  In x (experience_matches (H := H2) text nlp_model).
Proof.
  unfold distinct_dates, experience_matches.
  destruct (nlp_model text) as [ents|]; [|reflexivity].
  destruct (date_entities_of ents) as [|d ds] eqn:Hd; [reflexivity|].
  intros Hlen. rewrite !in_app_iff.
  rewrite (unique_dates_all H1 _ x Hlen), (unique_dates_all H2 _ x Hlen).
  reflexivity.
Qed.

(** X22.  What the iteration order of Python sets (the hash seed of the
    process) can change.  For two orders: the education snippets are the
    same up to their order; so are the entries of the experience summary
    when the entity finder gives at most ten distinct dates; and
    [analyze_resume_file] leaves the same world, raises the same exception
    or returns a response with the same file name, text, skills, role
    matches, target-role analysis and feedback. *)
Theorem set_order_only_permutes (H1 H2 : HashOrder) (text : string)
        (nlp_model : NlpModel) (env : Env) (fs : list Byte.byte)
        (filename target_role : string) (w : World) :
  Permutation (analyze_education (H := H1) text)
              (analyze_education (H := H2) text)
  /\ (length (distinct_dates text nlp_model) <= 10 ->
      Permutation (analyze_experience (H := H1) text nlp_model)
                  (analyze_experience (H := H2) text nlp_model))
  /\ (let run1 := analyze_resume_file (H := H1) env fs filename target_role
                    nlp_model w in
      let run2 := analyze_resume_file (H := H2) env fs filename target_role
                    nlp_model w in
      snd run1 = snd run2 /\
      match fst run1, fst run2 with
      | Ok r1, Ok r2 =>
          fileName r1 = fileName r2 /\
          extractedText r1 = extractedText r2 /\
          skillsFound r1 = skillsFound r2 /\
          roleMatches r1 = roleMatches r2 /\
          targetRoleAnalysis r1 = targetRoleAnalysis r2 /\
          personalizedFeedback r1 = personalizedFeedback r2 /\
          Permutation (educationSummary r1) (educationSummary r2)
      | Raise e1, Raise e2 => e1 = e2
      | _, _ => False
      end).
Proof.
  split; [|split].
  - unfold analyze_education. now apply list_of_set_perm.
  - intros Hlen. unfold analyze_experience. apply list_of_set_perm.
    intros x. now apply experience_matches_same.
  - cbv zeta. unfold analyze_resume_file, bind, time_time, ret, raise.
    destruct (extract_text env fs filename w) as [[text'|e] w1];
      [|now split].
    destruct (String.eqb (strip text') EmptyString); [now split|].
    destruct (get_personalized_feedback env _ w1) as [[msg|e] wf];
      [|now split].
    unfold log_analysis_to_db.
    destruct (insert_one env (collection wf) _);
      cbn [fst snd fileName extractedText skillsFound roleMatches
           targetRoleAnalysis personalizedFeedback educationSummary];
      (split; [reflexivity|]); repeat (split; [reflexivity|]);
      unfold analyze_education; now apply list_of_set_perm.
Qed.

(** With more than ten dates the hypothesis on the dates is needed: of
    eleven dates of the same length, which ten are kept depends on the
    order. *)
Example eleven_dates_depend_on_order :
  In "2010" (analyze_experience (H := insertion_order) "resume" eleven_dates)
  /\ ~ In "2010" (analyze_experience (H := reversed_order) "resume" eleven_dates)
  /\ length (distinct_dates "resume" eleven_dates) = 11.
Proof.
  split; [vm_compute; tauto|]. split; [|reflexivity].
  vm_compute. intuition discriminate.
Qed.

(** ** Documents without text *)

Lemma pdf_pages_loop_blank (pages : list (Fallible string)) (text : string) :
  forallb blank_part pages = true ->
  string_forall is_space text = true ->
  string_forall is_space (pdf_pages_loop pages text) = true.
Proof.
  revert text. induction pages as [|[t|] pages IH]; intros text Hp Ht;
    cbn [pdf_pages_loop]; try exact Ht.
  cbn [forallb blank_part] in Hp. apply andb_true_iff in Hp as [Hb Hp].
  apply IH; [exact Hp|].
  destruct (String.eqb t EmptyString); [exact Ht|].
  rewrite !string_forall_app, Ht, Hb. reflexivity.
Qed.

Lemma docx_paragraphs_loop_blank (paragraphs : list (Fallible string))
      (text : string) :
  forallb blank_part paragraphs = true ->
  string_forall is_space text = true ->
  string_forall is_space (docx_paragraphs_loop paragraphs text) = true.
Proof.
  revert text. induction paragraphs as [|[t|] paragraphs IH]; intros text Hp Ht;
    cbn [docx_paragraphs_loop]; try exact Ht.
  cbn [forallb blank_part] in Hp. apply andb_true_iff in Hp as [Hb Hp].
  apply IH; [exact Hp|].
  rewrite !string_forall_app, Ht, Hb. reflexivity.
Qed.

(** X23.  A document without text is refused.  When every page of a PDF
    (every paragraph of a DOCX) either cannot be read or gives only blanks,
    as for a scan, [analyze_resume_file] raises the empty-document
    [ValueError] after the parser call alone, and [POST /analyze/] answers
    400 with that message; nothing is generated and nothing is logged. *)
Theorem document_without_text_is_refused `{HashOrder} (env : Env) (app : App)
        (resume_file : UploadFile) (file_contents : list Byte.byte)
        (target_role : string) (nlp_model : NlpModel)
        (client : AsyncIOMotorClient) (parts : list (Fallible string))
        (w : World) :
  (endswith (filename resume_file) ".pdf" = true /\
   pdf_reader env file_contents = Returns parts)
  \/ (endswith (filename resume_file) ".pdf" = false /\
      endswith (filename resume_file) ".docx" = true /\
      docx_document env file_contents = Returns parts) ->
  forallb blank_part parts = true ->
  exists w1,
    analyze_resume_file env file_contents (filename resume_file) target_role
      nlp_model w
    = (Raise empty_document, w1)
    /\ collection w1 = collection w
    /\ (trace w1 = (trace w ++ [EvPdfReader file_contents])%list \/
        trace w1 = (trace w ++ [EvDocxDocument file_contents])%list)
    /\ (nlp app = Some nlp_model -> db_client app = Some client ->
        read resume_file = ReadReturns file_contents ->
        analyze_resume env app resume_file target_role w
        = (Rejected (mkHTTP 400 empty_document_detail), w1)).
Proof.
  intros Hdoc Hblank.
  assert (Hx : exists text w1,
             extract_text env file_contents (filename resume_file) w
             = (Ok text, w1) /\ string_forall is_space text = true).
  { unfold extract_text.
    destruct Hdoc as [[Hpdf Hr] | (Hpdf & Hdocx & Hr)].
    - rewrite Hpdf, extract_text_from_pdf_run, Hr. eexists _, _.
      split; [reflexivity|]. now apply pdf_pages_loop_blank.
    - rewrite Hpdf, Hdocx, extract_text_from_docx_run, Hr. eexists _, _.
      split; [reflexivity|]. now apply docx_paragraphs_loop_blank. }
  destruct Hx as (text & w1 & Hx & Ht). exists w1.
  pose proof (analyze_resume_file_blank env file_contents (filename resume_file)
                target_role nlp_model w w1 text Hx (strip_blank text Ht)) as Hrun.
  destruct (extract_text_trace _ _ _ _ _ _ Hx) as [Hc Htr].
  split; [exact Hrun|]. split; [exact Hc|]. split; [exact Htr|].
  intros Hn Hd Hread. unfold analyze_resume. rewrite Hn, Hd, Hread.
  replace (endswith (filename resume_file) ".pdf"
           || endswith (filename resume_file) ".docx") with true.
  - cbn [negb]. now rewrite Hrun.
  - destruct Hdoc as [[-> _] | (-> & -> & _)]; reflexivity.
Qed.

Lemma document_without_text_is_refused_witness :
  analyze_resume (H := insertion_order) scanned_env running_app pdf_upload
    "Data Scientist" empty_world
  = (Rejected (mkHTTP 400 empty_document_detail),
     {| trace := [EvPdfReader []]; collection := [] |}).
Proof.
  destruct (document_without_text_is_refused (H := insertion_order)
              scanned_env running_app pdf_upload [] "Data Scientist"
              no_entities MotorClient
              [Returns EmptyString; Returns (String (chr 160) " ")]
              empty_world) as (w1 & Hrun & _ & _ & Hreply).
  - left. split; reflexivity.
  - reflexivity.
  - rewrite (Hreply eq_refl eq_refl eq_refl). f_equal.
    vm_compute in Hrun. now injection Hrun as <-.
Defined.

(** ** Texts with characters outside ASCII *)

(** The no-break space U+00A0 is [chr 160], the letters e and E with acute
    accent are [chr 233] and [chr 201].  In "My r(e)sum(e)" the letter r
    touches an accented letter, a word character, so the skill "r" is not
    found; in "caf(e).net" the accented letter gives ".net" the word
    boundary it needs; a no-break space is stripped from a snippet and
    separates a number from "years" as a blank does; an accented letter
    that touches a keyword or a year phrase takes its word boundary away. *)
Example characters_outside_ascii :
  extract_skills ("My r" ++ String (chr 233) ("sum" ++ String (chr 233) ""))
  = []
  /\ extract_skills ("caf" ++ String (chr 233) ".net")
     = [mkSkill ".net" "Web Development (Backend)"]
  /\ analyze_education (H := insertion_order) (String (chr 160) "University")
     = ["University"]
  /\ analyze_education (H := insertion_order)
       ("University" ++ String (chr 233) "")
     = []
  /\ year_mentions ("5" ++ String (chr 160) "years")
     = ["Mention of: 5" ++ String (chr 160) "years"]
  /\ year_mentions (String (chr 233) "5 years") = []
  /\ year_mentions ("5 years" ++ String (chr 233) "") = []
  /\ strip (String (chr 160) (String (chr 133) " ")) = EmptyString
  /\ lower (String (chr 201) "COLE") = String (chr 233) "cole".
Proof. repeat split; vm_compute; reflexivity. Qed.

(** ** The unit tests of [tests/test_services.py] *)

Example test_extract_skills_swe :
  let skill_names := map (fun s => lower (name s)) (extract_skills sample_text_swe) in
  In "python" skill_names /\ In "react" skill_names /\ In "docker" skill_names
  /\ In "git" skill_names /\ In "sql" skill_names /\ In "java" skill_names
  /\ ~ In "figma" skill_names.
Proof.
  vm_compute. repeat split; try tauto. intuition discriminate.
Qed.

Example test_extract_skills_ds :
  let skill_names := map (fun s => lower (name s)) (extract_skills sample_text_ds) in
  In "python" skill_names /\ In "sql" skill_names /\ In "pandas" skill_names
  /\ In "tensorflow" skill_names /\ In "scikit-learn" skill_names
  /\ In "tableau" skill_names /\ ~ In "docker" skill_names.
Proof.
  vm_compute. repeat split; try tauto. intuition discriminate.
Qed.

Example test_target_role_analysis_swe :
  exists analysis,
    analyze_target_role (extract_skills sample_text_swe) "Software Engineer"
    = Some analysis
    /\ tra_role analysis = "Software Engineer"
    /\ In "java" (tra_required_found analysis)
    /\ In "teamwork" (tra_required_missing analysis)
    /\ In "docker" (tra_good_to_have_found analysis)
    /\ In "agile" (tra_good_to_have_missing analysis).
Proof.
  eexists. split; [vm_compute; reflexivity|].
  vm_compute. tauto.
Qed.

Example test_invalid_target_role :
  analyze_target_role (extract_skills sample_text_swe) "Galactic Emperor" = None.
Proof. vm_compute. reflexivity. Qed.
